(** * Cross-realm FileSystemHandle messaging helpers

    A shallow embedding of [native-file-system/resources/messaging-helpers.js]
    (the serializer, the comparator and the message router) and of the
    verification functions of
    [native-file-system/FileSystemBaseHandle-postMessage.tentative.https.window.js],
    with the properties the design document states about them. *)

From Stdlib Require Import String Ascii List ZArith Bool Arith Lia.
From Stdlib Require Import Sorted Permutation OrdersEx RelationClasses.
Import ListNotations.

Open Scope string_scope.
Open Scope list_scope.

Set Warnings "-register-all".

(** ** JavaScript values the helpers throw *)

(** What a [throw] statement or a failing built-in raises.  The helpers throw
    plain strings; property access on [undefined] or [null] raises a
    [TypeError]; reading an undeclared identifier raises a [ReferenceError];
    the test harness's [assert_equals] raises an [AssertionError]; a rejected
    platform promise carries a [DOMException].  The message of a built-in
    error is the engine's wording; the model fixes one. *)
Inductive js_error : Type :=
| ThrownString (text : string)
| TypeError (message : string)
| ReferenceError (message : string)
| AssertionError (description : string)
| DOMException (error_name message : string).

(** [Error.prototype.toString], which [DOMException] inherits: the name
    alone when the message is empty, the message alone when the name is
    empty, and otherwise the two joined by a colon and a space. *)
Definition Error_toString (error_name message : string) : string :=
  match error_name, message with
  | _, EmptyString => error_name
  | EmptyString, _ => message
  | _, _ => (error_name ++ ": " ++ message)%string
  end.

(** The text of [`${error}`]: a thrown string is its own text, an error
    object is converted by [Error.prototype.toString].  The harness's
    [AssertionError] inherits [Error.prototype.name]. *)
Definition error_to_string (error : js_error) : string :=
  match error with
  | ThrownString text => text
  | TypeError message => Error_toString "TypeError" message
  | ReferenceError message => Error_toString "ReferenceError" message
  | AssertionError description => Error_toString "Error" description
  | DOMException error_name message => Error_toString error_name message
  end.

(** A computation that returns normally or throws. *)
Inductive result (A : Type) : Type :=
| Ok (value : A)
| Throw (error : js_error).

Arguments Ok {A} value.
Arguments Throw {A} error.

Definition bind {A B : Type} (r : result A) (k : A -> result B) : result B :=
  match r with
  | Ok value => k value
  | Throw error => Throw error
  end.

Declare Scope js_scope.
Delimit Scope js_scope with js.
Notation "x <- r ;; k" := (bind r (fun x => k))
  (at level 61, r at next level, right associativity) : js_scope.
Notation "r ;; k" := (bind r (fun _ => k))
  (at level 61, right associativity) : js_scope.
Open Scope js_scope.

(** The double quote character, for the assertion descriptions that quote a
    property name. *)
Definition dquote : string := String "034"%char EmptyString.

(** [`${value}`] of an optional string property: an absent property reads as
    [undefined]. *)
Definition template_of_property (property : option string) : string :=
  match property with
  | Some text => text
  | None => "undefined"
  end.

(** ** The test harness *)

(** [assert_equals(actual, expected, description)] of testharness.js: returns
    when the two values are the same value and throws an [AssertionError]
    otherwise.  The harness appends the two values to the description; the
    model keeps the description. *)
Definition assert_equals {A : Type} (same_value : A -> A -> bool)
    (actual expected : A) (description : string) : result unit :=
  if same_value actual expected then Ok tt
  else Throw (AssertionError description).

(** [assert_not_equals(actual, expected, description)]. *)
Definition assert_not_equals {A : Type} (same_value : A -> A -> bool)
    (actual expected : A) (description : string) : result unit :=
  if same_value actual expected then Throw (AssertionError description)
  else Ok tt.

(** ** File system handles *)

(** The three permission states [queryPermission] resolves to. *)
Inductive PermissionState : Type := granted | denied | prompt.

Definition PermissionState_eqb (a b : PermissionState) : bool :=
  match a, b with
  | granted, granted | denied, denied | prompt, prompt => true
  | _, _ => false
  end.

Module FileSystemHandle.

(** A handle object as the helpers observe it: its identity as a JavaScript
    object, the text [`${handle}`] evaluates to, the [isFile], [isDirectory]
    and [name] properties, what [queryPermission({writable})] resolves to,
    what [getFileContents(handle)] of test-helpers.js resolves to, and the
    children in the order [getEntries()] yields them.  The awaited platform
    calls are represented by the values they resolve to: a call that
    rejects would end the serialization with the platform's error and
    without a dictionary, a case this model of a handle does not have. *)
Inductive t : Type := Build {
  object_identity : nat;
  toString : string;
  isFile : bool;
  isDirectory : bool;
  name : string;
  queryPermission : bool -> PermissionState;
  getFileContents : string;
  getEntries : list t
}.

End FileSystemHandle.

Import FileSystemHandle (isFile, isDirectory, queryPermission, getFileContents, getEntries).

(** ** Serialized handles *)

(** The dictionary the serializer builds, with the properties that
    [Object.assign] adds for a file ([file_contents]) or for a directory
    ([files], [directories]) absent ([None]) until they are assigned.  The two
    kind flags may be absent in a dictionary that did not come from the
    serializer. *)
Inductive serialized_handle : Type := Build_serialized_handle {
  is_file : option bool;
  is_directory : option bool;
  name : string;
  read_permission : PermissionState;
  write_permission : PermissionState;
  file_contents : option string;
  files : option (list serialized_handle);
  directories : option (list serialized_handle)
}.

(** The truth value of an optional boolean property in a condition. *)
Definition truthy (flag : option bool) : bool :=
  match flag with
  | Some b => b
  | None => false
  end.

(** ** [Array.prototype.sort] *)

Section ArraySort.

Context {A : Type}.
Variable compareFn : A -> A -> Z.

(** Places [x] before the first element it does not come after. *)
Fixpoint sort_insert (x : A) (sorted : list A) : list A :=
  match sorted with
  | [] => [x]
  | y :: rest =>
      if (compareFn x y <=? 0)%Z then x :: y :: rest
      else y :: sort_insert x rest
  end.

(** [array.sort(compareFn)]: the stable sort of the array under a consistent
    comparison function. *)
Fixpoint Array_sort (array : list A) : list A :=
  match array with
  | [] => []
  | x :: rest => sort_insert x (Array_sort rest)
  end.

End ArraySort.

(** ** The serializer *)

Section Serializer.

(** [String.prototype.localeCompare] of the host. *)
Variable localeCompare : string -> string -> Z.

(** [serialize_file_system_handle]: the properties shared by files and
    directories. *)
Definition serialize_file_system_handle
    (file_system_handle : FileSystemHandle.t) : result serialized_handle :=
  let read_permission := queryPermission file_system_handle false in
  let write_permission := queryPermission file_system_handle true in
  Ok {| is_file := Some (isFile file_system_handle);
        is_directory := Some (isDirectory file_system_handle);
        name := FileSystemHandle.name file_system_handle;
        read_permission := read_permission;
        write_permission := write_permission;
        file_contents := None;
        files := None;
        directories := None |}.

(** [Object.assign(target, { file_contents })]. *)
Definition assign_file_contents (target : serialized_handle)
    (contents : string) : serialized_handle :=
  {| is_file := is_file target;
     is_directory := is_directory target;
     name := name target;
     read_permission := read_permission target;
     write_permission := write_permission target;
     file_contents := Some contents;
     files := files target;
     directories := directories target |}.

(** [Object.assign(target, { files, directories })]. *)
Definition assign_children (target : serialized_handle)
    (serialized_files serialized_directories : list serialized_handle)
    : serialized_handle :=
  {| is_file := is_file target;
     is_directory := is_directory target;
     name := name target;
     read_permission := read_permission target;
     write_permission := write_permission target;
     file_contents := file_contents target;
     files := Some serialized_files;
     directories := Some serialized_directories |}.

(** [serialize_file_system_file_handle]. *)
Definition serialize_file_system_file_handle
    (file_handle : FileSystemHandle.t) : result serialized_handle :=
  let contents := getFileContents file_handle in
  serialized_file_system_handle <- serialize_file_system_handle file_handle ;;
  Ok (assign_file_contents serialized_file_system_handle contents).

(** The comparison function of both [sort] calls. *)
Definition compare_names (left right : serialized_handle) : Z :=
  localeCompare (name left) (name right).

Section DirectoryBody.

(** The recursive call [serialize_handle(child_handle)]. *)
Variable serialize_child : FileSystemHandle.t -> result serialized_handle.

(** The [for await] loop over [getEntries()]: each child is serialized
    and pushed on one of the two arrays. *)
Fixpoint serialize_entries (entries : list FileSystemHandle.t)
    (serialized_files serialized_directories : list serialized_handle)
    : result (list serialized_handle * list serialized_handle) :=
  match entries with
  | [] => Ok (serialized_files, serialized_directories)
  | child_handle :: remaining =>
      serialized_child_handle <- serialize_child child_handle ;;
      if isDirectory child_handle then
        serialize_entries remaining serialized_files
          (serialized_directories ++ [serialized_child_handle])
      else
        serialize_entries remaining
          (serialized_files ++ [serialized_child_handle])
          serialized_directories
  end.

Definition serialize_directory_body
    (directory_handle : FileSystemHandle.t) : result serialized_handle :=
  children <- serialize_entries (getEntries directory_handle) [] [] ;;
  let serialized_files := Array_sort compare_names (fst children) in
  let serialized_directories := Array_sort compare_names (snd children) in
  serialized_file_system_handle <-
    serialize_file_system_handle directory_handle ;;
  Ok (assign_children serialized_file_system_handle
        serialized_files serialized_directories).

End DirectoryBody.

(** The text of the string [serialize_handle] throws. *)
Definition not_a_handle_message (handle_text : string) : string :=
  ("Object is not a FileSystemFileHandle or " ++
   "FileSystemDirectoryHandle " ++ handle_text)%string.

(** [serialize_handle]. *)
Fixpoint serialize_handle (handle : FileSystemHandle.t)
    : result serialized_handle :=
  if isDirectory handle then
    serialize_directory_body serialize_handle handle
  else if isFile handle then
    serialize_file_system_file_handle handle
  else
    Throw (ThrownString
             (not_a_handle_message (FileSystemHandle.toString handle))).

(** [serialize_file_system_directory_handle]. *)
Definition serialize_file_system_directory_handle
    (directory_handle : FileSystemHandle.t) : result serialized_handle :=
  serialize_directory_body serialize_handle directory_handle.

End Serializer.

(** ** The comparator *)

(** Same-value comparison of the property values the comparator reads. *)
Definition same_flag (a b : option bool) : bool :=
  match a, b with
  | Some x, Some y => Bool.eqb x y
  | None, None => true
  | _, _ => false
  end.

Definition same_optional_string (a b : option string) : bool :=
  match a, b with
  | Some x, Some y => String.eqb x y
  | None, None => true
  | _, _ => false
  end.

(** What reading a property of [undefined] raises. *)
Definition undefined_property_access : js_error :=
  TypeError "Cannot read properties of undefined".

(** The five descriptions of the shared-property assertions. *)
Definition is_file_description : string :=
  ("Each FileSystemHandle instance must use the expected " ++
   dquote ++ "isFile" ++ dquote ++ ".")%string.

Definition is_directory_description : string :=
  ("Each FileSystemHandle instance must use the expected " ++
   dquote ++ "isDirectory" ++ dquote ++ ".")%string.

Definition name_description : string :=
  ("Each FileSystemHandle instance must use the expected " ++
   dquote ++ "name" ++ dquote ++ " " ++ " property.")%string.

Definition read_permission_description : string :=
  "Each FileSystemHandle instance must have the expected read  permission.".

Definition write_permission_description : string :=
  "Each FileSystemHandle instance must have the expected write  permission.".

Definition file_contents_description : string :=
  "Each FileSystemFileHandle instance must have the same contents.".

Definition file_children_description : string :=
  "Each FileSystemDirectoryHandle must contain the same number of file children".

Definition directory_children_description : string :=
  "Each FileSystemDirectoryHandle must contain the same number of directory children".

(** [assert_equals_serialized_file_system_handles]. *)
Definition assert_equals_serialized_file_system_handles
    (left right : serialized_handle) : result unit :=
  assert_equals same_flag (is_file left) (is_file right)
    is_file_description ;;
  assert_equals same_flag (is_directory left) (is_directory right)
    is_directory_description ;;
  assert_equals String.eqb (name left) (name right)
    name_description ;;
  assert_equals PermissionState_eqb
    (read_permission left) (read_permission right)
    read_permission_description ;;
  assert_equals PermissionState_eqb
    (write_permission left) (write_permission right)
    write_permission_description.

(** [assert_equals_serialized_file_system_file_handles]. *)
Definition assert_equals_serialized_file_system_file_handles
    (left right : serialized_handle) : result unit :=
  assert_equals_serialized_file_system_handles left right ;;
  assert_equals same_optional_string
    (file_contents left) (file_contents right)
    file_contents_description.

Section IndexLoop.

(** The assertion applied to the two elements at one index. *)
Variable assert_pair : serialized_handle -> serialized_handle -> result unit.

(** [for (let i = 0; i < left_array.length; ++i)
       assert_pair(left_array[i], right_array[i]);]
    from index [i] on, where [remaining] holds the elements of the left
    array from that index.  An index past the end of the right array reads
    [undefined], whose properties cannot be read. *)
Fixpoint for_each_index (i : nat) (remaining right_array : list serialized_handle)
    : result unit :=
  match remaining with
  | [] => Ok tt
  | left_element :: rest =>
      match nth_error right_array i with
      | Some right_element => assert_pair left_element right_element
      | None => Throw undefined_property_access
      end ;;
      for_each_index (S i) rest right_array
  end.

End IndexLoop.

(** [assert_equals_serialized_file_system_directory_handles].  Reading
    [.length] of an absent [files] or [directories] property throws. *)
Fixpoint assert_equals_serialized_file_system_directory_handles
    (left right : serialized_handle) {struct left} : result unit :=
  assert_equals_serialized_file_system_handles left right ;;
  match files left with
  | None => Throw undefined_property_access
  | Some left_files =>
  match files right with
  | None => Throw undefined_property_access
  | Some right_files =>
  assert_equals Nat.eqb (length left_files) (length right_files)
    file_children_description ;;
  for_each_index assert_equals_serialized_file_system_file_handles
    0 left_files right_files ;;
  match directories left with
  | None => Throw undefined_property_access
  | Some left_directories =>
  match directories right with
  | None => Throw undefined_property_access
  | Some right_directories =>
  assert_equals Nat.eqb
    (length left_directories) (length right_directories)
    directory_children_description ;;
  for_each_index assert_equals_serialized_file_system_directory_handles
    0 left_directories right_directories
  end end end end.

(** The identifiers a function body of messaging-helpers.js can read besides
    its own parameters: the functions the script declares. *)
Definition script_declarations : list string :=
  [ "add_message_event_handlers"; "serialize_handle";
    "assert_equals_serialized_handles"; "serialize_file_system_handle";
    "assert_equals_serialized_file_system_handles";
    "serialize_file_system_file_handle";
    "assert_equals_serialized_file_system_file_handles";
    "serialize_file_system_directory_handle";
    "assert_equals_serialized_file_system_directory_handles";
    "serialize_message_error_event";
    "assert_equals_serialized_message_error_event" ].

(** The constants and functions the driver script declares in the realm
    where it calls the comparator. *)
Definition driver_declarations : list string :=
  [ "kDocumentMessageTarget"; "kSharedWorkerMessageTarget";
    "kServiceWorkerMessageTarget"; "kDedicatedWorkerMessageTarget";
    "kRemoteOrigin"; "kRemoteOriginDocumentMessageTarget";
    "add_iframe"; "open_window"; "create_dedicated_worker";
    "wait_for_loaded_message"; "create_message_channel";
    "create_broadcast_channel"; "send_file_system_handles";
    "create_and_send_file_system_handles";
    "verify_response_with_file_system_handles";
    "verify_response_with_message_error"; "do_post_message_test";
    "do_message_port_test"; "do_message_error_test";
    "do_message_port_error_test"; "fetch_text";
    "create_message_target_html_without_subresources";
    "create_message_target_blob_url"; "create_message_target_data_uri" ].

(** Whether reading [identifier] inside a function with the given parameters
    finds a binding. *)
Definition identifier_in_scope (parameters : list string)
    (identifier : string) : bool :=
  existsb (String.eqb identifier)
    (parameters ++ script_declarations ++ driver_declarations).

(** [assert_equals_serialized_handles].  The last branch evaluates the
    template [`FileSystemDirectoryHandle ${handle}`] before it throws; the
    function's parameters are [left] and [right]. *)
Definition assert_equals_serialized_handles
    (left right : serialized_handle) : result unit :=
  if truthy (is_directory left) then
    assert_equals_serialized_file_system_directory_handles left right
  else if truthy (is_file left) then
    assert_equals_serialized_file_system_file_handles left right
  else if identifier_in_scope ["left"; "right"] "handle" then
    Throw (ThrownString (not_a_handle_message "[object Object]"))
  else
    Throw (ReferenceError "handle is not defined").

(** ** Messages *)

(** The objects a reply can be posted to. *)
Inductive Endpoint : Type :=
| Window (id : nat)
| Worker (id : nat)
| MessagePort (id : nat)
| BroadcastChannel (channel_name : string).

(** The [data] of a [messageerror] event: [null] when the platform dispatches
    the event, another primitive when a script builds one. *)
Inductive js_primitive : Type :=
| js_null
| js_undefined
| js_boolean (b : bool)
| js_number (n : Z)
| js_string (s : string).

Definition same_primitive (a b : js_primitive) : bool :=
  match a, b with
  | js_null, js_null => true
  | js_undefined, js_undefined => true
  | js_boolean x, js_boolean y => Bool.eqb x y
  | js_number x, js_number y => Z.eqb x y
  | js_string x, js_string y => String.eqb x y
  | _, _ => false
  end.

Module MessageEvent.

(** The properties of a [MessageEvent] the listeners read; [source] is
    [None] when the property is [null]. *)
Record t (D : Type) : Type := Build {
  data : D;
  origin : string;
  lastEventId : string;
  source : option Endpoint;
  ports : list Endpoint
}.

Arguments Build {D} data origin lastEventId source ports.
Arguments data {D} _.
Arguments origin {D} _.
Arguments lastEventId {D} _.
Arguments source {D} _.
Arguments ports {D} _.

End MessageEvent.

(** The dictionary [serialize_message_error_event] returns. *)
Record serialized_event : Type := Build_serialized_event {
  data : js_primitive;
  origin : string;
  last_event_id : string;
  has_source : bool;
  ports_length : nat
}.

(** One element of [serialized_file_system_handles]. *)
Record response_handle : Type := Build_response_handle {
  handle : FileSystemHandle.t;
  serialized : serialized_handle
}.

(** A message object: the [type] tag and the properties the message kinds
    carry, each absent ([None]) unless the message has it. *)
Record envelope : Type := Build_envelope {
  type : option string;
  message_port : option Endpoint;
  broadcast_channel_name : option string;
  file_system_handles : option (list FileSystemHandle.t);
  serialized_file_system_handles : option (list response_handle);
  file_handle : option FileSystemHandle.t;
  directory_handle : option FileSystemHandle.t;
  serialized_message_error_event : option serialized_event
}.

(** The object [{ type }]. *)
Definition envelope_of_type (tag : string) : envelope :=
  {| type := Some tag;
     message_port := None;
     broadcast_channel_name := None;
     file_system_handles := None;
     serialized_file_system_handles := None;
     file_handle := None;
     directory_handle := None;
     serialized_message_error_event := None |}.

(** A value with no property: every property of a primitive string reads as
    [undefined]. *)
Definition no_properties : envelope :=
  {| type := None;
     message_port := None;
     broadcast_channel_name := None;
     file_system_handles := None;
     serialized_file_system_handles := None;
     file_handle := None;
     directory_handle := None;
     serialized_message_error_event := None |}.

(** The [data] of a [message] event, which is also what [postMessage] sends:
    [null], a string such as ["LOADED"] or ["ERROR: ..."], or a message
    object. *)
Inductive message_data : Type :=
| DataNull
| DataString (text : string)
| DataObject (object : envelope).

(** Reading a property of the message data: [null] has none to read. *)
Definition properties_of (value : message_data) : result envelope :=
  match value with
  | DataNull => Throw (TypeError "Cannot read properties of null")
  | DataString _ => Ok no_properties
  | DataObject object => Ok object
  end.

(** [`${response}`]. *)
Definition message_data_to_string (value : message_data) : string :=
  match value with
  | DataNull => "null"
  | DataString text => text
  | DataObject _ => "[object Object]"
  end.

(** ** The message-error dictionary *)

(** [serialize_message_error_event]. *)
Definition serialize_message_error_event
    (message_error_event : MessageEvent.t js_primitive) : serialized_event :=
  {| data := MessageEvent.data message_error_event;
     origin := MessageEvent.origin message_error_event;
     last_event_id := MessageEvent.lastEventId message_error_event;
     has_source :=
       match MessageEvent.source message_error_event with
       | Some _ => true
       | None => false
       end;
     ports_length := length (MessageEvent.ports message_error_event) |}.

(** [assert_equals_serialized_message_error_event]. *)
Definition assert_equals_serialized_message_error_event
    (serialized_event : serialized_event) (expected_origin : string)
    (expected_has_source : bool) : result unit :=
  assert_equals same_primitive (data serialized_event) js_null
    ("The message error event must set the " ++ dquote ++ "data" ++ dquote ++
     " property to null.")%string ;;
  assert_equals String.eqb (origin serialized_event) expected_origin
    ("The message error event must have the expected " ++ dquote ++ "origin" ++
     dquote ++ " property.")%string ;;
  assert_equals String.eqb (last_event_id serialized_event) EmptyString
    ("The message error event must set the " ++ dquote ++ "lastEventId" ++
     dquote ++ " property to the empty string.")%string ;;
  assert_equals Bool.eqb (has_source serialized_event) expected_has_source
    ("The message error event must have the expected " ++ dquote ++ "source" ++
     dquote ++ " property.")%string ;;
  assert_equals Nat.eqb (ports_length serialized_event) 0
    "The message error event not contain any message ports.".

(** ** Observable effects of a listener *)

(** What a listener invocation does to the outside: messages posted, event
    handlers registered, ports started, channels opened, and entries created
    in the system directory. *)
Inductive effect : Type :=
| PostMessage (destination : Endpoint) (message : message_data)
    (target_origin : option string)
| AddMessageEventHandlers (receiver : Endpoint) (target : option Endpoint)
    (target_origin : option string)
| StartPort (port : Endpoint)
| NewBroadcastChannel (channel_name : string)
| GetFile (file_name : string)
| GetDirectory (directory_name : string).

(** A listener body: the effects performed so far, and how it ended. *)
Definition action (A : Type) : Type := (list effect * result A)%type.

Definition ret {A : Type} (value : A) : action A := ([], Ok value).

Definition lift {A : Type} (r : result A) : action A := ([], r).

Definition perform (e : effect) : action unit := ([e], Ok tt).

Definition and_then {A B : Type} (a : action A) (k : A -> action B)
    : action B :=
  match snd a with
  | Ok value => (fst a ++ fst (k value), snd (k value))
  | Throw error => (fst a, Throw error)
  end.

(** [try { body } catch (error) { handler(error) }]. *)
Definition try_catch {A : Type} (body : action A)
    (handler : js_error -> action A) : action A :=
  match snd body with
  | Ok value => body
  | Throw error => (fst body ++ fst (handler error), snd (handler error))
  end.

Declare Scope action_scope.
Delimit Scope action_scope with action.
Notation "x <- a ;; k" := (and_then a (fun x => k))
  (at level 61, a at next level, right associativity) : action_scope.
Notation "a ;; k" := (and_then a (fun _ => k))
  (at level 61, right associativity) : action_scope.

(** The file system the [create-file] and [create-directory]
    messages use: what [FileSystemDirectoryHandle.getSystemDirectory],
    [getFile(name, { create: true })] and
    [getDirectory(name, { create: true })] resolve to, or reject with. *)
Record FileSystem : Type := Build_FileSystem {
  getSystemDirectory : result FileSystemHandle.t;
  getFile : FileSystemHandle.t -> string -> result FileSystemHandle.t;
  getDirectory : FileSystemHandle.t -> string -> result FileSystemHandle.t
}.

(** Whether [endpoint.postMessage(message, target_origin)] accepts its second
    argument.  The header comment of messaging-helpers.js records the
    exception: "Worker and message port tests must use undefined for
    |target_origin| to avoid exceptions" (their second parameter is a
    transfer list or an options object, which a string is not).  A window takes
    a target origin, and a broadcast channel ignores a second argument. *)
Definition accepts_target_origin (endpoint : Endpoint)
    (target_origin : option string) : bool :=
  match endpoint, target_origin with
  | Worker _, Some _ => false
  | MessagePort _, Some _ => false
  | _, _ => true
  end.

(** [destination.postMessage(message, target_origin)]: a method call on
    [undefined] throws, and so does a second argument the endpoint does not
    accept; otherwise the message is handed to the transport. *)
Definition postMessage (destination : option Endpoint)
    (message : message_data) (target_origin : option string) : action unit :=
  match destination with
  | Some endpoint =>
      if accepts_target_origin endpoint target_origin
      then perform (PostMessage endpoint message target_origin)
      else lift (Throw (TypeError "The provided value cannot be converted"))
  | None => lift (Throw undefined_property_access)
  end.

(** [message_port.start()]: only a [MessagePort] has the method. *)
Definition start (port : option Endpoint) : action unit :=
  match port with
  | Some (MessagePort id) => perform (StartPort (MessagePort id))
  | Some _ => lift (Throw (TypeError "start is not a function"))
  | None => lift (Throw undefined_property_access)
  end.

(** The destination of the replies of one listener invocation: the event's
    [source], or [target] when the source is [null]. *)
Definition resolve_message_source {D : Type}
    (message_event : MessageEvent.t D) (target : option Endpoint)
    : option Endpoint :=
  match MessageEvent.source message_event with
  | None => target
  | Some message_source => Some message_source
  end.

(** Whether the [type] property is the given string. *)
Definition type_is (message : envelope) (tag : string) : bool :=
  match type message with
  | Some text => String.eqb text tag
  | None => false
  end.

(** The six message types the router acts on. *)
Definition recognized_types : list string :=
  [ "receive-message-port"; "create-broadcast-channel";
    "receive-file-system-handles"; "receive-serialized-file-system-handles";
    "create-file"; "create-directory" ].

(** The string the [default] case throws. *)
Definition unknown_message_type (tag : option string) : string :=
  ("Unknown message type: '" ++ template_of_property tag ++ "'")%string.

Section Router.

Variable localeCompare : string -> string -> Z.
Variable file_system : FileSystem.

(** The registration [add_message_event_handlers] performs on [receiver];
    calling [addEventListener] on [undefined] throws. *)
Definition add_message_event_handlers (receiver target : option Endpoint)
    (target_origin : option string) : action unit :=
  match receiver with
  | Some endpoint =>
      perform (AddMessageEventHandlers endpoint target target_origin)
  | None => lift (Throw undefined_property_access)
  end.

(** The loop of the [receive-file-system-handles] case. *)
Fixpoint serialize_received_handles (handles : list FileSystemHandle.t)
    (serialized_file_system_handles : list response_handle)
    : result (list response_handle) :=
  match handles with
  | [] => Ok serialized_file_system_handles
  | handle :: remaining =>
      (serialized <- serialize_handle localeCompare handle ;;
       serialize_received_handles remaining
         (serialized_file_system_handles ++
          [ {| handle := handle; serialized := serialized |} ]))%js
  end.

(** The [switch] statement inside the [try] block of the [message]
    listener. *)
Definition message_switch (message_source : option Endpoint)
    (target_origin : option string) (message_data : message_data)
    : action unit :=
  (message <- lift (properties_of message_data) ;;
   if type_is message "receive-message-port" then
     add_message_event_handlers
       (message_port message) (message_port message) None ;;
     start (message_port message)
   else if type_is message "create-broadcast-channel" then
     let channel_name :=
       template_of_property (broadcast_channel_name message) in
     perform (NewBroadcastChannel channel_name) ;;
     let broadcast_channel := Some (BroadcastChannel channel_name) in
     add_message_event_handlers broadcast_channel broadcast_channel None ;;
     postMessage message_source
       (DataObject (envelope_of_type "broadcast-channel-created"))
       target_origin
   else if type_is message "receive-file-system-handles" then
     match file_system_handles message with
     | None => lift (Throw undefined_property_access)
     | Some handles =>
         serialized_file_system_handles <-
           lift (serialize_received_handles handles []) ;;
         postMessage message_source
           (DataObject
              {| type := Some "receive-serialized-file-system-handles";
                 message_port := None;
                 broadcast_channel_name := None;
                 file_system_handles := None;
                 serialized_file_system_handles :=
                   Some serialized_file_system_handles;
                 file_handle := None;
                 directory_handle := None;
                 serialized_message_error_event := None |})
           target_origin
     end
   else if type_is message "receive-serialized-file-system-handles" then
     ret tt
   else if type_is message "create-file" then
     directory <- lift (getSystemDirectory file_system) ;;
     file_handle <- lift (getFile file_system directory "temp-file") ;;
     perform (GetFile "temp-file") ;;
     postMessage message_source
       (DataObject
          {| type := Some "receive-file";
             message_port := None;
             broadcast_channel_name := None;
             file_system_handles := None;
             serialized_file_system_handles := None;
             file_handle := Some file_handle;
             directory_handle := None;
             serialized_message_error_event := None |})
       target_origin
   else if type_is message "create-directory" then
     parent_directory <- lift (getSystemDirectory file_system) ;;
     directory_handle <-
       lift (getDirectory file_system parent_directory "temp-directory") ;;
     perform (GetDirectory "temp-directory") ;;
     postMessage message_source
       (DataObject
          {| type := Some "receive-directory";
             message_port := None;
             broadcast_channel_name := None;
             file_system_handles := None;
             serialized_file_system_handles := None;
             file_handle := None;
             directory_handle := Some directory_handle;
             serialized_message_error_event := None |})
       target_origin
   else
     lift (Throw (ThrownString (unknown_message_type (type message)))))%action.

(** The reply of both [catch] blocks. *)
Definition report_error (message_source : option Endpoint)
    (target_origin : option string) (error : js_error) : action unit :=
  postMessage message_source
    (DataString ("ERROR: " ++ error_to_string error)%string) target_origin.

(** The [message] listener that [add_message_event_handlers(receiver,
    target, target_origin)] registers. *)
Definition message_listener (target : option Endpoint)
    (target_origin : option string)
    (message_event : MessageEvent.t message_data) : action unit :=
  let message_data := MessageEvent.data message_event in
  let message_source := resolve_message_source message_event target in
  try_catch
    (message_switch message_source target_origin message_data)
    (report_error message_source target_origin).

(** The [try] block of the [messageerror] listener. *)
Definition messageerror_body (message_source : option Endpoint)
    (target_origin : option string)
    (message_event : MessageEvent.t js_primitive) : action unit :=
  let serialized_message_error_event :=
    serialize_message_error_event message_event in
  postMessage message_source
    (DataObject
       {| type := Some "serialized-message-error";
          message_port := None;
          broadcast_channel_name := None;
          file_system_handles := None;
          serialized_file_system_handles := None;
          file_handle := None;
          directory_handle := None;
          serialized_message_error_event :=
            Some serialized_message_error_event |})
    target_origin.

(** The [messageerror] listener. *)
Definition messageerror_listener (target : option Endpoint)
    (target_origin : option string)
    (message_event : MessageEvent.t js_primitive) : action unit :=
  let message_source := resolve_message_source message_event target in
  try_catch
    (messageerror_body message_source target_origin message_event)
    (report_error message_source target_origin).

End Router.

(** ** The shared worker message target *)

(** The [connect] listener of message-target-shared-worker.js: the first
    port of the event becomes both receiver and target. *)
Definition connect_listener (ports : list Endpoint) : action unit :=
  (let message_port := nth_error ports 0 in
   add_message_event_handlers message_port message_port None ;;
   start message_port)%action.

(** ** The driver's verification of a reply *)

(** Identity comparison of two handle objects. *)
Definition same_object (a b : FileSystemHandle.t) : bool :=
  Nat.eqb (FileSystemHandle.object_identity a)
          (FileSystemHandle.object_identity b).

Section Driver.

Variable localeCompare : string -> string -> Z.

(** The body of the loop of [verify_response_with_file_system_handles] at
    one index. *)
Definition verify_response_handle (response_handle : option response_handle)
    (expected_handle : FileSystemHandle.t) : result unit :=
  match response_handle with
  | None => Throw undefined_property_access
  | Some response_handle =>
      let cloned_handle := handle response_handle in
      assert_not_equals same_object cloned_handle expected_handle
        ("Cloning a FileSystemFileHandle through postMessage() must create " ++
         "a new instance.")%string ;;
      serialized_cloned_handle <- serialize_handle localeCompare cloned_handle ;;
      expected_serialized_file_handle <-
        serialize_handle localeCompare expected_handle ;;
      assert_equals_serialized_handles
        serialized_cloned_handle expected_serialized_file_handle ;;
      assert_equals_serialized_handles
        (serialized response_handle) expected_serialized_file_handle
  end.

(** [for (let i = 0; i < expected_handles.length; ++i) ...] from index [i]
    on, where [remaining] holds the expected handles from that index. *)
Fixpoint verify_response_handles_from (i : nat)
    (response_handles : list response_handle)
    (remaining : list FileSystemHandle.t) : result unit :=
  match remaining with
  | [] => Ok tt
  | expected_handle :: rest =>
      verify_response_handle (nth_error response_handles i) expected_handle ;;
      verify_response_handles_from (S i) response_handles rest
  end.

(** [verify_response_with_file_system_handles]. *)
Definition verify_response_with_file_system_handles
    (response : message_data) (expected_handles : list FileSystemHandle.t)
    : result unit :=
  message <- properties_of response ;;
  assert_equals same_optional_string (type message)
    (Some "receive-serialized-file-system-handles")
    ("The message target must receive a " ++ dquote ++
     "serialized-file-system-handles" ++ dquote ++ " " ++
     "message response. Actual response: " ++
     message_data_to_string response)%string ;;
  match serialized_file_system_handles message with
  | None => Throw undefined_property_access
  | Some response_handles =>
      assert_equals Nat.eqb (length response_handles) (length expected_handles)
        ("The response must include the expected number of serialized " ++
         "FileSystemHandles.")%string ;;
      verify_response_handles_from 0 response_handles expected_handles
  end.

End Driver.

(** [verify_response_with_message_error]. *)
Definition verify_response_with_message_error (response : message_data)
    (expected_origin : string) (expected_has_source : bool) : result unit :=
  message <- properties_of response ;;
  assert_equals same_optional_string (type message)
    (Some "serialized-message-error")
    ("The message target must receive a " ++ dquote ++
     "serialized-message-error" ++ dquote ++ " message " ++
     "response.")%string ;;
  match serialized_message_error_event message with
  | None => Throw undefined_property_access
  | Some serialized_event =>
      assert_equals_serialized_message_error_event
        serialized_event expected_origin expected_has_source
  end.

(** ** A concrete collation and sample data *)

(** Comparison of two names by their characters' codes, as a
    [localeCompare] result. *)
Definition compare_code_units (left right : string) : Z :=
  match String_as_OT.compare left right with
  | Lt => (-1)%Z
  | Eq => 0%Z
  | Gt => 1%Z
  end.

(** A file handle with both permissions granted. *)
Definition sample_file (identity : nat) (file_name contents : string)
    : FileSystemHandle.t :=
  FileSystemHandle.Build identity "[object FileSystemFileHandle]"
    true false file_name (fun _ => granted) contents [].

(** A directory handle with both permissions granted. *)
Definition sample_directory (identity : nat) (directory_name : string)
    (entries : list FileSystemHandle.t) : FileSystemHandle.t :=
  FileSystemHandle.Build identity "[object FileSystemDirectoryHandle]"
    false true directory_name (fun _ => granted) EmptyString entries.

(** An object that is neither kind of handle. *)
Definition sample_non_handle : FileSystemHandle.t :=
  FileSystemHandle.Build 0 "[object Object]"
    false false EmptyString (fun _ => prompt) EmptyString [].

(** A file system whose root is an empty directory and which creates the entry
    asked for. *)
Definition sample_file_system : FileSystem :=
  {| getSystemDirectory := Ok (sample_directory 100 EmptyString []);
     getFile := fun _ file_name => Ok (sample_file 101 file_name EmptyString);
     getDirectory := fun _ directory_name =>
       Ok (sample_directory 102 directory_name []) |}.

(** A file system the platform refuses to open. *)
Definition failing_file_system : FileSystem :=
  {| getSystemDirectory :=
       Throw (DOMException "SecurityError" "Storage access is denied.");
     getFile := fun _ _ =>
       Throw (DOMException "SecurityError" "Storage access is denied.");
     getDirectory := fun _ _ =>
       Throw (DOMException "SecurityError" "Storage access is denied.") |}.

(** A dictionary whose kind flags are not true. *)
Definition sample_unknown_kind : serialized_handle :=
  {| is_file := None; is_directory := Some false; name := "x";
     read_permission := granted; write_permission := granted;
     file_contents := None; files := None; directories := None |}.

(** The batch [create_and_send_file_system_handles] of the driver sends: three
    files, two directories, and two handles sent twice. *)
Definition sample_batch : list FileSystemHandle.t :=
  let empty_file := sample_file 1 "empty-file" EmptyString in
  let first_file :=
    sample_file 2 "first-file-with-contents" "first-text-content" in
  let second_file :=
    sample_file 3 "second-file-with-contents" "second-text-content" in
  let empty_directory := sample_directory 4 "empty-directory" [] in
  let directory_with_files :=
    sample_directory 5 "directory-with-files"
      [ sample_file 6 "first-file-in-directory" "first-directory-text-content";
        sample_file 7 "second-file-in-directory"
          "second-directory-text-content";
        sample_directory 8 "subdirectory"
          [ sample_file 9 "first-file-in-subdirectory"
              "first-subdirectory-text-content" ] ] in
  [ empty_file; first_file; second_file; second_file;
    empty_directory; empty_directory; directory_with_files ].

(** A transport whose clone of a handle is a new object for the same entry. *)
Definition clone_as_new_object (handle : FileSystemHandle.t)
    : FileSystemHandle.t :=
  FileSystemHandle.Build
    (1000 + FileSystemHandle.object_identity handle)
    (FileSystemHandle.toString handle)
    (isFile handle) (isDirectory handle) (FileSystemHandle.name handle)
    (queryPermission handle) (getFileContents handle) (getEntries handle).

(** A [messageerror] event received on a port: no sender reference, empty
    origin. *)
Definition sample_message_error_event : MessageEvent.t js_primitive :=
  MessageEvent.Build js_null EmptyString EmptyString None [].

(** A [message] event of the given data received on a port. *)
Definition sample_port_event (message : message_data)
    : MessageEvent.t message_data :=
  MessageEvent.Build message EmptyString EmptyString None [].

(** ** Vocabulary of the properties *)

(** A comparison function that orders its arguments consistently: swapping
    the arguments swaps the sign, and "not after" is transitive. *)
Definition consistent_comparator (compare : string -> string -> Z) : Prop :=
  (forall x y, (compare x y < 0)%Z <-> (0 < compare y x)%Z) /\
  (forall x y z,
      (compare x y <= 0)%Z -> (compare y z <= 0)%Z -> (compare x z <= 0)%Z).

(** [left] does not come after [right] by name. *)
Definition name_order (localeCompare : string -> string -> Z)
    (left right : serialized_handle) : Prop :=
  (localeCompare (name left) (name right) <= 0)%Z.

(** Every object the serializer visits below [handle] is a file handle or a
    directory handle. *)
Fixpoint serializable (handle : FileSystemHandle.t) : bool :=
  if isDirectory handle then forallb serializable (getEntries handle)
  else isFile handle.

(** A file handle named [file_name]. *)
Definition is_file_named (file_name : string) (handle : FileSystemHandle.t)
    : Prop :=
  isDirectory handle = false /\ isFile handle = true /\
  FileSystemHandle.name handle = file_name.

(** A serialized handle has the two child arrays, and so has every element of
    its [directories], at every depth. *)
Fixpoint directory_shaped (s : serialized_handle) : bool :=
  match files s, directories s with
  | Some _, Some child_directories => forallb directory_shaped child_directories
  | _, _ => false
  end.

Section PairwiseComparison.

Variable assert_pair : serialized_handle -> serialized_handle -> result unit.

(** The elements of two arrays compared pairwise, first pair first; a left
    element without a partner meets [undefined]. *)
Fixpoint for_each_pair (left_array right_array : list serialized_handle)
    : result unit :=
  match left_array, right_array with
  | [], _ => Ok tt
  | left_element :: left_rest, right_element :: right_rest =>
      assert_pair left_element right_element ;;
      for_each_pair left_rest right_rest
  | _ :: _, [] => Throw undefined_property_access
  end.

End PairwiseComparison.

(** ** The index loops of the comparator read pairwise *)

(** [assert_equals_serialized_file_system_directory_handles] with each of
    its two index loops replaced by the traversal of the two arrays side by
    side; the proofs about the directory comparison go through it. *)
Fixpoint directory_comparison_pairwise (left right : serialized_handle)
    {struct left} : result unit :=
  assert_equals_serialized_file_system_handles left right ;;
  match files left, files right with
  | Some left_files, Some right_files =>
      assert_equals Nat.eqb (length left_files) (length right_files)
        file_children_description ;;
      for_each_pair assert_equals_serialized_file_system_file_handles left_files right_files
  | _, _ => Throw undefined_property_access
  end ;;
  match directories left, directories right with
  | Some left_directories, Some right_directories =>
      assert_equals Nat.eqb
        (length left_directories) (length right_directories)
        directory_children_description ;;
      for_each_pair directory_comparison_pairwise
        left_directories right_directories
  | _, _ => Throw undefined_property_access
  end.

(** The shape of a dictionary [serialize_file_system_file_handle] returns. *)
Definition file_dictionary (s : serialized_handle) : bool :=
  match is_directory s, file_contents s, files s, directories s with
  | Some false, Some _, None, None => true
  | _, _, _, _ => false
  end.

(** The shape of a dictionary [serialize_file_system_directory_handle]
    returns. *)
Fixpoint directory_dictionary (s : serialized_handle) : bool :=
  match is_directory s, file_contents s, files s, directories s with
  | Some true, None, Some child_files, Some child_directories =>
      forallb file_dictionary child_files &&
      forallb directory_dictionary child_directories
  | _, _, _, _ => false
  end.

(** The destinations of the messages posted in a trace. *)
Definition reply_destinations (trace : list effect) : list Endpoint :=
  flat_map (fun e => match e with
                     | PostMessage destination _ _ => [destination]
                     | _ => []
                     end) trace.

(** The message objects of the given type posted in a trace. *)
Definition replies_of_type (tag : string) (trace : list effect)
    : list envelope :=
  flat_map (fun e => match e with
                     | PostMessage _ (DataObject message) _ =>
                         if type_is message tag then [message] else []
                     | _ => []
                     end) trace.

(** Whether the [type] property is one of the six the router acts on. *)
Definition recognized (message : envelope) : bool :=
  existsb (type_is message) recognized_types.

(** The report the [messageerror] listener posts. *)
Definition message_error_report (report : serialized_event) : envelope :=
  {| type := Some "serialized-message-error";
     message_port := None;
     broadcast_channel_name := None;
     file_system_handles := None;
     serialized_file_system_handles := None;
     file_handle := None;
     directory_handle := None;
     serialized_message_error_event := Some report |}.

(** The registrations made in a trace. *)
Definition registrations (trace : list effect) : list effect :=
  filter (fun e => match e with
                   | AddMessageEventHandlers _ _ _ => true
                   | _ => false
                   end) trace.

(** A registration that names its receiver as target and leaves the target
    origin undefined. *)
Definition supplies_target (e : effect) : Prop :=
  match e with
  | AddMessageEventHandlers receiver target target_origin =>
      target = Some receiver /\ target_origin = None
  | _ => True
  end.

(** Every registration of the trace supplies a target. *)
Definition registered_with_target (trace : list effect) : Prop :=
  Forall supplies_target (registrations trace).

(** Every message of the trace went to [message_source]. *)
Definition replies_go_to_source (message_source : option Endpoint)
    (trace : list effect) : Prop :=
  Forall (fun destination => message_source = Some destination)
         (reply_destinations trace).

(** What the driver establishes about one element of the reply and the handle
    it sent at the same index: the returned handle is another object, it
    serializes to the dictionary the sent handle serializes to, and the
    dictionary computed by the message target passes the comparison with that
    dictionary. *)
Definition clone_verified (localeCompare : string -> string -> Z)
    (response_handle : response_handle) (expected_handle : FileSystemHandle.t)
    : Prop :=
  FileSystemHandle.object_identity (handle response_handle) <>
    FileSystemHandle.object_identity expected_handle /\
  exists snapshot,
    serialize_handle localeCompare expected_handle = Ok snapshot /\
    serialize_handle localeCompare (handle response_handle) = Ok snapshot /\
    assert_equals_serialized_handles (serialized response_handle) snapshot =
      Ok tt.

(** [send_file_system_handles] of the driver. *)
Definition send_file_system_handles (handles : list FileSystemHandle.t)
    (target : option Endpoint) (target_origin : option string) : action unit :=
  postMessage target
    (DataObject
       {| type := Some "receive-file-system-handles";
          message_port := None;
          broadcast_channel_name := None;
          file_system_handles := Some handles;
          serialized_file_system_handles := None;
          file_handle := None;
          directory_handle := None;
          serialized_message_error_event := None |})
    target_origin.

Section StructuredClone.

(** What the transport makes of a handle on its way to the other side. *)
Variable clone : FileSystemHandle.t -> FileSystemHandle.t.

(** The message the receiver gets: plain values are copied, handles are
    cloned. *)
Definition deliver (message : message_data) : message_data :=
  match message with
  | DataObject object =>
      DataObject
        {| type := type object;
           message_port := message_port object;
           broadcast_channel_name := broadcast_channel_name object;
           file_system_handles :=
             option_map (map clone) (file_system_handles object);
           serialized_file_system_handles :=
             option_map
               (map (fun entry =>
                       {| handle := clone (handle entry);
                          serialized := serialized entry |}))
               (serialized_file_system_handles object);
           file_handle := option_map clone (file_handle object);
           directory_handle := option_map clone (directory_handle object);
           serialized_message_error_event :=
             serialized_message_error_event object |}
  | other => other
  end.

End StructuredClone.

(** ** The transport *)

(** What the platform hands to a receiver: a [message] event, or a
    [messageerror] event when the receiving side could not rebuild the
    payload. *)
Inductive delivery : Type :=
| message_delivered (message_event : MessageEvent.t message_data)
| delivery_failed (message_error_event : MessageEvent.t js_primitive).

(** The two listeners [add_message_event_handlers(receiver, target,
    target_origin)] registers on a receiver: a [message] event runs the
    first, a [messageerror] event the second. *)
Definition dispatch_event (localeCompare : string -> string -> Z)
    (file_system : FileSystem) (target : option Endpoint)
    (target_origin : option string) (received : delivery) : action unit :=
  match received with
  | message_delivered message_event =>
      message_listener localeCompare file_system target target_origin
        message_event
  | delivery_failed message_error_event =>
      messageerror_listener target target_origin message_error_event
  end.

(** The message [send_file_system_handles] posts. *)
Definition handles_request (handles : list FileSystemHandle.t)
    : message_data :=
  DataObject
    {| type := Some "receive-file-system-handles";
       message_port := None;
       broadcast_channel_name := None;
       file_system_handles := Some handles;
       serialized_file_system_handles := None;
       file_handle := None;
       directory_handle := None;
       serialized_message_error_event := None |}.

(** Whether a message holds a handle for the transport to clone. *)
Definition carries_handles (message : message_data) : bool :=
  match message with
  | DataObject object =>
      match file_system_handles object with
      | Some (_ :: _) => true
      | _ => false
      end ||
      match serialized_file_system_handles object with
      | Some (_ :: _) => true
      | _ => false
      end ||
      match file_handle object with
      | Some _ => true
      | None => false
      end ||
      match directory_handle object with
      | Some _ => true
      | None => false
      end
  | _ => false
  end.

(** Modelled from the spec: the transport, which is the platform's and not
    a script of the repository.  One hop of it: whether the trust boundary it
    crosses allows the structured clone of a handle, the origin and the
    sender reference its events carry, and what its clone of a handle is. *)
Record hop : Type := Build_hop {
  allows_structured_clone : bool;
  event_origin : string;
  event_source : option Endpoint;
  structured_clone : FileSystemHandle.t -> FileSystemHandle.t
}.

(** Modelled from the spec: the delivery-failure event, "surfaced as a
    delivery-failure event rather than a normal reply", with "data == null,
    last_event_id ==" the empty string, "ports_length == 0". *)
Definition failure_event (crossed : hop) : MessageEvent.t js_primitive :=
  MessageEvent.Build js_null (event_origin crossed) EmptyString
    (event_source crossed) [].

(** Modelled from the spec: what the receiver gets of a message posted with
    a transfer list.  A message that holds a handle does "across a trust
    boundary that disallows structural clone" not arrive: "the receiving
    context could not reconstruct the payload" and gets the failure event;
    every other message arrives with its handles cloned. *)
Definition transmit (crossed : hop) (message : message_data)
    (transfer : list Endpoint) : delivery :=
  if carries_handles message && negb (allows_structured_clone crossed)
  then delivery_failed (failure_event crossed)
  else message_delivered
         (MessageEvent.Build (deliver (structured_clone crossed) message)
            (event_origin crossed) EmptyString (event_source crossed)
            transfer).

(** A hop without a sender reference across a boundary that refuses handles,
    as between a page and a port of another origin. *)
Definition sample_cross_origin_hop : hop :=
  {| allows_structured_clone := false;
     event_origin := EmptyString;
     event_source := None;
     structured_clone := clone_as_new_object |}.

(** ** The driver's channel set-up *)

(** What setting up a message channel does to the outside: a message posted
    with a transfer list, and a port started. *)
Inductive driver_effect : Type :=
| TransferMessage (target : Endpoint) (message : message_data)
    (target_origin : option string) (transfer : list Endpoint)
| StartDriverPort (port : Endpoint).

(** The message [create_message_channel] posts. *)
Definition receive_message_port_message (port : Endpoint) : message_data :=
  DataObject
    {| type := Some "receive-message-port";
       message_port := Some port;
       broadcast_channel_name := None;
       file_system_handles := None;
       serialized_file_system_handles := None;
       file_handle := None;
       directory_handle := None;
       serialized_message_error_event := None |}.

Section MessageChannel.

(** Whether the platform accepts [target.postMessage(message, target_origin,
    transfer)], or [target.postMessage(message, transfer)] when the target
    origin is undefined. *)
Variable transfer_accepted : Endpoint -> option string -> bool.

(** [create_message_channel], given the two ports of the [MessageChannel] it
    creates. *)
Definition create_message_channel (message_channel : Endpoint * Endpoint)
    (target : Endpoint) (target_origin : option string)
    : list driver_effect * result Endpoint :=
  let port1 := fst message_channel in
  let port2 := snd message_channel in
  let message_data := receive_message_port_message port2 in
  let posted :=
    match target_origin with
    | Some origin =>
        if transfer_accepted target (Some origin)
        then ([TransferMessage target message_data (Some origin) [port2]], Ok tt)
        else ([], Throw (TypeError "The provided value cannot be converted"))
    | None =>
        if transfer_accepted target None
        then ([TransferMessage target message_data None [port2]], Ok tt)
        else ([], Throw (TypeError "The provided value cannot be converted"))
    end in
  match snd posted with
  | Ok _ => (fst posted ++ [StartDriverPort port1], Ok port1)
  | Throw error => (fst posted, Throw error)
  end.

End MessageChannel.

(** The message [create_broadcast_channel] posts. *)
Definition create_broadcast_channel_message (channel_name : string)
    : message_data :=
  DataObject
    {| type := Some "create-broadcast-channel";
       message_port := None;
       broadcast_channel_name := Some channel_name;
       file_system_handles := None;
       serialized_file_system_handles := None;
       file_handle := None;
       directory_handle := None;
       serialized_message_error_event := None |}.

(** [create_broadcast_channel], given the [message] event its watcher waits
    for on [receiver]. *)
Definition create_broadcast_channel (channel_name : string)
    (target : option Endpoint) (target_origin : option string)
    (message_event : MessageEvent.t message_data) : action unit :=
  (postMessage target (create_broadcast_channel_message channel_name)
     target_origin ;;
   lift
     (bind (properties_of (MessageEvent.data message_event))
        (fun message =>
           assert_equals same_optional_string (type message)
             (Some "broadcast-channel-created")
             ("The message target must receive a " ++ dquote ++
              "broadcast-channel-created" ++ dquote ++ " message " ++
              "response.")%string)))%action.

(** ** Further vocabulary *)

(** [handle] with its children enumerated in another order. *)
Definition with_entries (handle : FileSystemHandle.t)
    (entries : list FileSystemHandle.t) : FileSystemHandle.t :=
  FileSystemHandle.Build
    (FileSystemHandle.object_identity handle)
    (FileSystemHandle.toString handle)
    (isFile handle) (isDirectory handle) (FileSystemHandle.name handle)
    (queryPermission handle) (getFileContents handle) entries.

(** A collation that tells any two different names apart. *)
Definition separates_names (compare : string -> string -> Z) : Prop :=
  forall x y, compare x y = 0%Z -> x = y.

(** The children of a directory that go to [files], and those that go to
    [directories]. *)
Definition file_entries (entries : list FileSystemHandle.t)
    : list FileSystemHandle.t :=
  filter (fun child => negb (isDirectory child)) entries.

Definition directory_entries (entries : list FileSystemHandle.t)
    : list FileSystemHandle.t :=
  filter isDirectory entries.

(** [snapshots] are the dictionaries of [handles], one for one. *)
Definition serialized_as (localeCompare : string -> string -> Z)
    (handles : list FileSystemHandle.t) (snapshots : list serialized_handle)
    : Prop :=
  Forall2 (fun child s => serialize_handle localeCompare child = Ok s)
          handles snapshots.

(** An outcome that is a normal return or a failed assertion. *)
Definition assertion_outcome (r : result unit) : Prop :=
  r = Ok tt \/ exists description, r = Throw (AssertionError description).

(** The messages posted in a trace, with their destinations. *)
Definition posted_messages (trace : list effect)
    : list (Endpoint * message_data) :=
  flat_map (fun e => match e with
                     | PostMessage destination message _ =>
                         [(destination, message)]
                     | _ => []
                     end) trace.

(** An action that posts no message. *)
Definition silent {A : Type} (a : action A) : Prop :=
  posted_messages (fst a) = [].

(** An action that posts at most one message, as its last effect, and that
    returns normally when it has posted one. *)
Definition single_reply (a : action unit) : Prop :=
  silent a \/
  exists before destination message target_origin,
    a = (before ++ [PostMessage destination message target_origin], Ok tt) /\
    posted_messages before = [].

(** The listeners a registration installs: every event they receive is
    handled with the registration's target and target origin. *)
Definition installed_listeners_complete
    (localeCompare : string -> string -> Z) (file_system : FileSystem)
    (registration : effect) : Prop :=
  match registration with
  | AddMessageEventHandlers receiver target target_origin =>
      forall (message_event : MessageEvent.t message_data)
             (message_error_event : MessageEvent.t js_primitive),
        snd (message_listener localeCompare file_system target target_origin
               message_event) = Ok tt /\
        snd (messageerror_listener target target_origin message_error_event) =
          Ok tt /\
        (MessageEvent.source message_event = None ->
         replies_go_to_source (Some receiver)
           (fst (message_listener localeCompare file_system target
                   target_origin message_event))) /\
        (MessageEvent.source message_error_event = None ->
         replies_go_to_source (Some receiver)
           (fst (messageerror_listener target target_origin
                   message_error_event)))
  | _ => True
  end.

(** One element of the reply to a batch: the received handle with the
    dictionary the message target computed from it. *)
Definition entry_of (localeCompare : string -> string -> Z)
    (received : FileSystemHandle.t) (entry : response_handle) : Prop :=
  handle entry = received /\
  serialize_handle localeCompare received = Ok (serialized entry).

(** The reply to a batch of handles. *)
Definition serialized_handles_reply (entries : list response_handle)
    : envelope :=
  {| type := Some "receive-serialized-file-system-handles";
     message_port := None;
     broadcast_channel_name := None;
     file_system_handles := None;
     serialized_file_system_handles := Some entries;
     file_handle := None;
     directory_handle := None;
     serialized_message_error_event := None |}.

(** ** The comparator as the design document words it *)

(** The fields of the shared-field comparison: it "checks isFile,
    isDirectory, name, readPermission, writePermission each independently,
    reporting which field mismatched". *)
Inductive shared_field : Type :=
| isFile_field
| isDirectory_field
| name_field
| readPermission_field
| writePermission_field.

(** The two sequences of child snapshots of a directory snapshot. *)
Inductive collection : Type := files_collection | directories_collection.

(** The first disagreement a comparison meets.  [collection_missing] is a
    dictionary without one of the two sequences: it is no directory
    snapshot, the design document does not provide for it, and the source
    fails reading the sequence. *)
Inductive mismatch : Type :=
| field_mismatch (field : shared_field)
| content_mismatch
| length_mismatch (which : collection)
| collection_missing.

Definition flag_eq_dec (a b : option bool) : {a = b} + {a <> b}.
Proof. decide equality. apply Bool.bool_dec. Defined.

Definition PermissionState_eq_dec (a b : PermissionState)
    : {a = b} + {a <> b}.
Proof. decide equality. Defined.

Definition content_eq_dec (a b : option string) : {a = b} + {a <> b}.
Proof. decide equality. apply string_dec. Defined.

(** "Shared-field comparison checks isFile, isDirectory, name,
    readPermission, writePermission each independently, reporting which
    field mismatched": the fields in that order, the first that differs
    reported. *)
Definition shared_mismatch (left right : serialized_handle)
    : option mismatch :=
  if flag_eq_dec (is_file left) (is_file right) then
    if flag_eq_dec (is_directory left) (is_directory right) then
      if string_dec (name left) (name right) then
        if PermissionState_eq_dec
             (read_permission left) (read_permission right) then
          if PermissionState_eq_dec
               (write_permission left) (write_permission right) then None
          else Some (field_mismatch writePermission_field)
        else Some (field_mismatch readPermission_field)
      else Some (field_mismatch name_field)
    else Some (field_mismatch isDirectory_field)
  else Some (field_mismatch isFile_field).

(** "If file, compares shared fields plus content equality (byte/string
    exact match)." *)
Definition file_mismatch (left right : serialized_handle)
    : option mismatch :=
  match shared_mismatch left right with
  | Some report => Some report
  | None =>
      if content_eq_dec (file_contents left) (file_contents right) then None
      else Some content_mismatch
  end.

Section Sequences.

(** The comparison of one pair of child snapshots. *)
Variable compare : serialized_handle -> serialized_handle -> option mismatch.

(** Two sequences compared "pairwise by index": the first pair that
    disagrees is reported. *)
Fixpoint pairwise_mismatch (left_sequence right_sequence : list serialized_handle)
    : option mismatch :=
  match left_sequence, right_sequence with
  | left_child :: left_rest, right_child :: right_rest =>
      match compare left_child right_child with
      | Some report => Some report
      | None => pairwise_mismatch left_rest right_rest
      end
  | _, _ => None
  end.

(** One collection of the two snapshots: compared pairwise "after requiring
    equal lengths", a length mismatch being reported at once. *)
Definition sequence_mismatch (which : collection)
    (left_sequence right_sequence : option (list serialized_handle))
    : option mismatch :=
  match left_sequence, right_sequence with
  | Some left_children, Some right_children =>
      if Nat.eq_dec (length left_children) (length right_children)
      then pairwise_mismatch left_children right_children
      else Some (length_mismatch which)
  | _, _ => Some collection_missing
  end.

End Sequences.

(** "If directory, compares shared fields then recursively compares files
    and directories sequences pairwise by index after requiring equal
    lengths." *)
Fixpoint directory_mismatch (left right : serialized_handle) {struct left}
    : option mismatch :=
  match shared_mismatch left right with
  | Some report => Some report
  | None =>
      match
        sequence_mismatch file_mismatch files_collection
          (files left) (files right)
      with
      | Some report => Some report
      | None =>
          sequence_mismatch directory_mismatch directories_collection
            (directories left) (directories right)
      end
  end.

(** The comparison "dispatches on isDirectory"; a left snapshot that is
    neither a directory nor a file is outside the document's cases. *)
Definition snapshot_mismatch (left right : serialized_handle)
    : option (option mismatch) :=
  if truthy (is_directory left) then Some (directory_mismatch left right)
  else if truthy (is_file left) then Some (file_mismatch left right)
  else None.

(** The human-readable explanation a disagreement is reported with: the
    document asks for a message saying which field or which collection
    disagrees, and these are the messages of the script. *)
Definition explanation (report : mismatch) : string :=
  match report with
  | field_mismatch isFile_field =>
      "Each FileSystemHandle instance must use the expected " ++
      dquote ++ "isFile" ++ dquote ++ "."
  | field_mismatch isDirectory_field =>
      "Each FileSystemHandle instance must use the expected " ++
      dquote ++ "isDirectory" ++ dquote ++ "."
  | field_mismatch name_field =>
      "Each FileSystemHandle instance must use the expected " ++
      dquote ++ "name" ++ dquote ++ "  property."
  | field_mismatch readPermission_field =>
      "Each FileSystemHandle instance must have the expected read  permission."
  | field_mismatch writePermission_field =>
      "Each FileSystemHandle instance must have the expected write  permission."
  | content_mismatch =>
      "Each FileSystemFileHandle instance must have the same contents."
  | length_mismatch files_collection =>
      "Each FileSystemDirectoryHandle must contain the same number of file children"
  | length_mismatch directories_collection =>
      "Each FileSystemDirectoryHandle must contain the same number of directory children"
  | collection_missing => "Cannot read properties of undefined"
  end%string.

(** How a comparison ends on a report: normally when nothing disagrees,
    with a failed assertion carrying the explanation when something does,
    and with the engine's error when a sequence is missing. *)
Definition outcome (report : option mismatch) : result unit :=
  match report with
  | None => Ok tt
  | Some collection_missing => Throw (TypeError (explanation collection_missing))
  | Some disagreement => Throw (AssertionError (explanation disagreement))
  end.

(** [description] contains [text]. *)
Definition mentions (text description : string) : Prop :=
  exists before after, description = (before ++ text ++ after)%string.

(** What the design document asks of a handle that went to the message
    target through [outbound] and came back through [inbound]: the returned
    reference is an object other than the original, the returned reference
    serializes to the dictionary of the original, and the dictionary the
    message target computed from what it received is that dictionary too. *)
Definition returned_clone_matches (localeCompare : string -> string -> Z)
    (outbound inbound : FileSystemHandle.t -> FileSystemHandle.t)
    (original : FileSystemHandle.t) : Prop :=
  FileSystemHandle.object_identity (inbound (outbound original)) <>
    FileSystemHandle.object_identity original /\
  exists snapshot,
    serialize_handle localeCompare original = Ok snapshot /\
    serialize_handle localeCompare (inbound (outbound original)) =
      Ok snapshot /\
    serialize_handle localeCompare (outbound original) = Ok snapshot.

(** The three facts about one element of the reply as the driver receives
    it and the handle sent at the same index: the reference returned is an
    object other than the original, serializing the returned reference
    gives what serializing the original gives, and the dictionary included
    in the reply is the dictionary of the original. *)
Definition equal_clone (localeCompare : string -> string -> Z)
    (original : FileSystemHandle.t) (returned : response_handle) : Prop :=
  FileSystemHandle.object_identity (handle returned) <>
    FileSystemHandle.object_identity original /\
  serialize_handle localeCompare (handle returned) =
    serialize_handle localeCompare original /\
  serialize_handle localeCompare original = Ok (serialized returned).

(** Modelled from the spec: a transport that clones a handle as the design
    document requires, "a new identity on the receiving side but an equal
    Snapshot". *)
Definition clones_faithfully (localeCompare : string -> string -> Z)
    (outbound inbound : FileSystemHandle.t -> FileSystemHandle.t) : Prop :=
  (forall handle,
      serialize_handle localeCompare (outbound handle) =
      serialize_handle localeCompare handle) /\
  (forall handle,
      serialize_handle localeCompare (inbound handle) =
      serialize_handle localeCompare handle) /\
  (forall handle,
      FileSystemHandle.object_identity (inbound (outbound handle)) <>
      FileSystemHandle.object_identity handle).

(** The objects [serialize_handle] can reach from [handle]: the handle
    and, for a directory, whatever it can reach from the children. *)
Fixpoint reachable (handle : FileSystemHandle.t) : list FileSystemHandle.t :=
  handle ::
  (if isDirectory handle then flat_map reachable (getEntries handle) else []).

(** ** Induction on handles and on serialized handles *)

Section HandleInduction.

Variable P : FileSystemHandle.t -> Prop.
Hypothesis step : forall identity text file directory handle_name
                         permission contents entries,
    Forall P entries ->
    P (FileSystemHandle.Build identity text file directory handle_name
         permission contents entries).

Fixpoint handle_induction (handle : FileSystemHandle.t) : P handle :=
  match handle with
  | FileSystemHandle.Build identity text file directory handle_name
      permission contents entries =>
      step identity text file directory handle_name permission contents
        entries
        ((fix all (l : list FileSystemHandle.t) : Forall P l :=
            match l with
            | [] => Forall_nil P
            | h :: rest => Forall_cons h (handle_induction h) (all rest)
            end) entries)
  end.

End HandleInduction.

Section SerializedInduction.

Variable P : serialized_handle -> Prop.

Definition all_children (children : option (list serialized_handle)) : Prop :=
  match children with
  | Some l => Forall P l
  | None => True
  end.

Hypothesis step : forall file directory handle_name read write contents
                         child_files child_directories,
    all_children child_files -> all_children child_directories ->
    P (Build_serialized_handle file directory handle_name read write
         contents child_files child_directories).

Fixpoint serialized_induction (s : serialized_handle) : P s :=
  match s with
  | Build_serialized_handle file directory handle_name read write contents
      child_files child_directories =>
      let all :=
        fix all (l : list serialized_handle) : Forall P l :=
          match l with
          | [] => Forall_nil P
          | c :: rest => Forall_cons c (serialized_induction c) (all rest)
          end in
      step file directory handle_name read write contents
        child_files child_directories
        (match child_files as o return all_children o with
         | Some l => all l
         | None => I
         end)
        (match child_directories as o return all_children o with
         | Some l => all l
         | None => I
         end)
  end.

End SerializedInduction.

(** ** The sort *)

Section ArraySortFacts.

Context {A : Type}.
Variable compareFn : A -> A -> Z.

Let not_after (x y : A) : Prop := (compareFn x y <= 0)%Z.

Lemma sort_insert_permutation (x : A) (l : list A) :
  Permutation (x :: l) (sort_insert compareFn x l).
Proof.
  induction l as [|y rest IH]; simpl.
  - apply Permutation_refl.
  - destruct (compareFn x y <=? 0)%Z.
    + apply Permutation_refl.
    + eapply perm_trans; [apply perm_swap|].
      now apply perm_skip.
Qed.

Lemma Array_sort_permutation (l : list A) :
  Permutation l (Array_sort compareFn l).
Proof.
  induction l as [|x rest IH]; simpl.
  - apply perm_nil.
  - eapply perm_trans; [apply perm_skip, IH|].
    apply sort_insert_permutation.
Qed.

Hypothesis swap : forall x y, (compareFn x y < 0)%Z <-> (0 < compareFn y x)%Z.
Hypothesis transitive :
  forall x y z, not_after x y -> not_after y z -> not_after x z.

Lemma sort_insert_sorted (x : A) (l : list A) :
  StronglySorted not_after l ->
  StronglySorted not_after (sort_insert compareFn x l).
Proof.
  induction 1 as [|y rest Hrest IH Hall]; simpl.
  - constructor; constructor.
  - destruct (Z.leb_spec (compareFn x y) 0) as [Hle|Hgt].
    + constructor.
      * now constructor.
      * constructor; [exact Hle|].
        eapply Forall_impl; [|exact Hall].
        intros z Hz. now apply transitive with y.
    + constructor; [exact IH|].
      assert (Hyx : not_after y x).
      { unfold not_after. apply swap in Hgt. lia. }
      eapply Permutation_Forall; [apply sort_insert_permutation|].
      now constructor.
Qed.

Lemma Array_sort_sorted (l : list A) :
  StronglySorted not_after (Array_sort compareFn l).
Proof.
  induction l as [|x rest IH]; simpl.
  - constructor.
  - now apply sort_insert_sorted.
Qed.

End ArraySortFacts.

(** ** The serializer: equations, totality, shape of the result *)

Section SerializerFacts.

Variable localeCompare : string -> string -> Z.

Lemma serialize_handle_equation (handle : FileSystemHandle.t) :
  serialize_handle localeCompare handle =
  if isDirectory handle then
    serialize_file_system_directory_handle localeCompare handle
  else if isFile handle then
    serialize_file_system_file_handle handle
  else
    Throw (ThrownString
             (not_a_handle_message (FileSystemHandle.toString handle))).
Proof. destruct handle; reflexivity. Qed.

Section Entries.

Variable serialize_child : FileSystemHandle.t -> result serialized_handle.

(** The loop appends to the two arrays the serialized children of each
    kind, in enumeration order. *)
Lemma serialize_entries_appends (entries : list FileSystemHandle.t) :
  forall files0 directories0 files1 directories1,
    serialize_entries serialize_child entries files0 directories0 =
      Ok (files1, directories1) ->
    exists new_files new_directories,
      files1 = files0 ++ new_files /\
      directories1 = directories0 ++ new_directories /\
      Forall (fun s => exists child, In child entries /\
                isDirectory child = false /\ serialize_child child = Ok s)
             new_files /\
      Forall (fun s => exists child, In child entries /\
                isDirectory child = true /\ serialize_child child = Ok s)
             new_directories.
Proof.
  induction entries as [|child rest IH]; simpl; intros f0 d0 f1 d1 H.
  - injection H as <- <-. exists [], [].
    rewrite !app_nil_r. repeat split; constructor.
  - destruct (serialize_child child) as [s|e] eqn:Hs; simpl in H;
      [|discriminate].
    destruct (isDirectory child) eqn:Hd.
    + apply IH in H as (nf & nd & -> & -> & Hf & Hdirs).
      exists nf, (s :: nd). rewrite <- app_assoc. repeat split.
      * eapply Forall_impl; [|exact Hf].
        intros x (c & Hin & Hk & Hx). exists c. auto.
      * constructor.
        -- exists child. auto.
        -- eapply Forall_impl; [|exact Hdirs].
           intros x (c & Hin & Hk & Hx). exists c. auto.
    + apply IH in H as (nf & nd & -> & -> & Hf & Hdirs).
      exists (s :: nf), nd. rewrite <- app_assoc. repeat split.
      * constructor.
        -- exists child. auto.
        -- eapply Forall_impl; [|exact Hf].
           intros x (c & Hin & Hk & Hx). exists c. auto.
      * eapply Forall_impl; [|exact Hdirs].
        intros x (c & Hin & Hk & Hx). exists c. auto.
Qed.

(** Every child ends up in one of the two arrays. *)
Lemma serialize_entries_length (entries : list FileSystemHandle.t) :
  forall files0 directories0 files1 directories1,
    serialize_entries serialize_child entries files0 directories0 =
      Ok (files1, directories1) ->
    length files1 + length directories1 =
    length files0 + length directories0 + length entries.
Proof.
  induction entries as [|child rest IH]; simpl; intros f0 d0 f1 d1 H.
  - injection H as <- <-. lia.
  - destruct (serialize_child child) as [s|e]; simpl in H; [|discriminate].
    destruct (isDirectory child); apply IH in H;
      rewrite length_app in H; simpl in H; lia.
Qed.

(** The loop completes when every child serializes. *)
Lemma serialize_entries_total (entries : list FileSystemHandle.t) :
  Forall (fun child => exists s, serialize_child child = Ok s) entries ->
  forall files0 directories0,
  exists children,
    serialize_entries serialize_child entries files0 directories0 =
      Ok children.
Proof.
  induction 1 as [|child rest (s & Hs) _ IH]; simpl; intros f0 d0.
  - eexists. reflexivity.
  - rewrite Hs. simpl. destruct (isDirectory child); apply IH.
Qed.

(** The loop stops at the first child that fails to serialize. *)
Lemma serialize_entries_ok_inv (entries : list FileSystemHandle.t) :
  forall files0 directories0 children,
    serialize_entries serialize_child entries files0 directories0 =
      Ok children ->
    Forall (fun child => exists s, serialize_child child = Ok s) entries.
Proof.
  induction entries as [|child rest IH]; simpl; intros f0 d0 r H.
  - constructor.
  - destruct (serialize_child child) as [s|e] eqn:Hs; simpl in H;
      [|discriminate].
    constructor; [now exists s|].
    destruct (isDirectory child); eapply IH; exact H.
Qed.

End Entries.

(** The serializer returns a dictionary exactly for the handles whose tree
    holds only files and directories. *)
Lemma serialize_handle_total (handle : FileSystemHandle.t) :
  serializable handle = true ->
  exists s, serialize_handle localeCompare handle = Ok s.
Proof.
  induction handle
    as [identity text file directory handle_name permission contents
        entries IH] using handle_induction.
  simpl. destruct directory.
  - intros Hall. unfold serialize_directory_body. simpl.
    destruct (serialize_entries_total (serialize_handle localeCompare)
                entries) with (files0 := @nil serialized_handle)
                              (directories0 := @nil serialized_handle)
      as (children & Hc).
    + rewrite forallb_forall in Hall. rewrite Forall_forall in IH |- *.
      intros child Hin. apply IH; auto.
    + rewrite Hc. simpl. eexists. reflexivity.
  - intros ->. eexists. reflexivity.
Qed.

Lemma serialize_handle_ok_serializable (handle : FileSystemHandle.t) :
  forall s, serialize_handle localeCompare handle = Ok s ->
            serializable handle = true.
Proof.
  induction handle
    as [identity text file directory handle_name permission contents
        entries IH] using handle_induction.
  simpl. destruct directory.
  - intros s H. unfold serialize_directory_body in H. simpl in H.
    destruct (serialize_entries (serialize_handle localeCompare) entries [] [])
      as [children|e] eqn:Hc; simpl in H; [|discriminate].
    apply serialize_entries_ok_inv in Hc.
    rewrite forallb_forall. rewrite Forall_forall in IH, Hc.
    intros child Hin. destruct (Hc child Hin) as (s' & Hs').
    eapply IH; eauto.
  - destruct file; [reflexivity|discriminate].
Qed.

(** What the serializer returns for a directory handle. *)
Lemma serialize_directory_result (handle : FileSystemHandle.t)
    (s : serialized_handle) :
  isDirectory handle = true ->
  serialize_handle localeCompare handle = Ok s ->
  exists child_files child_directories,
    serialize_entries (serialize_handle localeCompare)
      (getEntries handle) [] [] = Ok (child_files, child_directories) /\
    s = {| is_file := Some (isFile handle);
           is_directory := Some true;
           name := FileSystemHandle.name handle;
           read_permission := queryPermission handle false;
           write_permission := queryPermission handle true;
           file_contents := None;
           files := Some (Array_sort (compare_names localeCompare) child_files);
           directories :=
             Some (Array_sort (compare_names localeCompare)
                     child_directories) |}.
Proof.
  intros Hd H. rewrite serialize_handle_equation, Hd in H.
  unfold serialize_file_system_directory_handle, serialize_directory_body in H.
  destruct (serialize_entries (serialize_handle localeCompare)
              (getEntries handle) [] []) as [[cf cd]|e] eqn:Hc;
    simpl in H; [|discriminate].
  injection H as <-. exists cf, cd. split; [reflexivity|].
  unfold assign_children. simpl. now rewrite Hd.
Qed.

(** What the serializer returns for a file handle. *)
Lemma serialize_file_result (handle : FileSystemHandle.t)
    (s : serialized_handle) :
  isDirectory handle = false ->
  serialize_handle localeCompare handle = Ok s ->
  isFile handle = true /\
  s = {| is_file := Some true;
         is_directory := Some false;
         name := FileSystemHandle.name handle;
         read_permission := queryPermission handle false;
         write_permission := queryPermission handle true;
         file_contents := Some (getFileContents handle);
         files := None;
         directories := None |}.
Proof.
  intros Hd H. rewrite serialize_handle_equation, Hd in H.
  destruct (isFile handle) eqn:Hf; [|discriminate].
  split; [reflexivity|].
  unfold serialize_file_system_file_handle in H. simpl in H.
  injection H as <-. unfold assign_file_contents. simpl.
  now rewrite Hd, Hf.
Qed.

Lemma serialize_directory_shaped (handle : FileSystemHandle.t) :
  forall s, isDirectory handle = true ->
            serialize_handle localeCompare handle = Ok s ->
            directory_shaped s = true.
Proof.
  induction handle
    as [identity text file directory handle_name permission contents
        entries IH] using handle_induction.
  intros s Hd H.
  destruct (serialize_directory_result _ _ Hd H) as (cf & cd & Hc & ->).
  simpl in Hc |- *.
  apply serialize_entries_appends in Hc as (nf & nd & _ & Hcd & _ & Hdirs).
  simpl in Hcd. subst cd.
  rewrite forallb_forall. intros d Hin.
  eapply Permutation_in in Hin;
    [|apply Permutation_sym, Array_sort_permutation].
  rewrite Forall_forall in Hdirs, IH.
  destruct (Hdirs d Hin) as (child & Hchild & Hk & Hs).
  eapply IH; eauto.
Qed.

End SerializerFacts.

(** ** The comparator: pairwise reading of the index loops *)

Section PairLoop.

Variable assert_pair : serialized_handle -> serialized_handle -> result unit.

Lemma for_each_index_skipn (remaining right_array : list serialized_handle) :
  forall i,
    for_each_index assert_pair i remaining right_array =
    for_each_pair assert_pair remaining (skipn i right_array).
Proof.
  induction remaining as [|l rest IH]; intros i; simpl.
  - reflexivity.
  - destruct (nth_error right_array i) as [r|] eqn:Hn.
    + apply nth_error_split in Hn as (before & after & -> & <-).
      rewrite IH.
      replace (skipn (length before) (before ++ r :: after))
        with (r :: after)
        by (rewrite skipn_app, skipn_all, Nat.sub_diag; reflexivity).
      replace (skipn (S (length before)) (before ++ r :: after))
        with after.
      * reflexivity.
      * rewrite skipn_app, skipn_all2 by lia.
        replace (S (length before) - length before) with 1 by lia.
        reflexivity.
    + apply nth_error_None in Hn.
      rewrite skipn_all2 by exact Hn. reflexivity.
Qed.

Lemma for_each_index_pairs (left_array right_array : list serialized_handle) :
  for_each_index assert_pair 0 left_array right_array =
  for_each_pair assert_pair left_array right_array.
Proof. apply for_each_index_skipn. Qed.

Lemma for_each_pair_ok (left_array : list serialized_handle) :
  forall right_array,
    length left_array = length right_array ->
    (for_each_pair assert_pair left_array right_array = Ok tt <->
     Forall2 (fun l r => assert_pair l r = Ok tt) left_array right_array).
Proof.
  induction left_array as [|l rest IH]; intros [|r rs] Hlen;
    simpl in *; try discriminate.
  - split; [constructor|reflexivity].
  - injection Hlen as Hlen. specialize (IH rs Hlen).
    destruct (assert_pair l r) as [[]|e] eqn:Hp; simpl.
    + rewrite IH. split.
      * now constructor.
      * now inversion 1.
    + split; [discriminate|].
      inversion 1; congruence.
Qed.

Lemma for_each_pair_same (array : list serialized_handle) :
  Forall (fun s => assert_pair s s = Ok tt) array ->
  for_each_pair assert_pair array array = Ok tt.
Proof.
  induction 1 as [|s rest Hs _ IH]; simpl.
  - reflexivity.
  - now rewrite Hs.
Qed.

End PairLoop.

Lemma for_each_pair_ext (f g : serialized_handle -> serialized_handle -> result unit)
    (left_array : list serialized_handle) :
  Forall (fun l => forall r, f l r = g l r) left_array ->
  forall right_array,
    for_each_pair f left_array right_array =
    for_each_pair g left_array right_array.
Proof.
  induction 1 as [|l rest Hl _ IH]; intros [|r rs]; simpl; try reflexivity.
  now rewrite Hl, IH.
Qed.

(** ** Same-value comparison is reflexive and decides equality *)

Lemma same_flag_iff (a b : option bool) : same_flag a b = true <-> a = b.
Proof.
  destruct a as [[]|], b as [[]|]; simpl; split; congruence.
Qed.

Lemma same_optional_string_iff (a b : option string) :
  same_optional_string a b = true <-> a = b.
Proof.
  destruct a as [x|], b as [y|]; simpl; try (split; congruence).
  rewrite String.eqb_eq. split; congruence.
Qed.

Lemma PermissionState_eqb_iff (a b : PermissionState) :
  PermissionState_eqb a b = true <-> a = b.
Proof. destruct a, b; simpl; split; congruence. Qed.

Lemma assert_equals_ok {A : Type} (same_value : A -> A -> bool)
    (actual expected : A) (description : string) :
  assert_equals same_value actual expected description = Ok tt <->
  same_value actual expected = true.
Proof.
  unfold assert_equals. destruct (same_value actual expected);
    split; congruence.
Qed.

Lemma bind_ok {A B : Type} (r : result A) (k : A -> result B) (b : B) :
  bind r k = Ok b <-> exists a, r = Ok a /\ k a = Ok b.
Proof.
  destruct r as [a|e]; simpl; split.
  - intros H. now exists a.
  - now intros (a' & [= <-] & H).
  - discriminate.
  - now intros (a' & [=] & _).
Qed.

(** The shared-property assertions pass exactly when the five properties
    agree. *)
Lemma assert_equals_serialized_file_system_handles_ok
    (left right : serialized_handle) :
  assert_equals_serialized_file_system_handles left right = Ok tt <->
  is_file left = is_file right /\
  is_directory left = is_directory right /\
  name left = name right /\
  read_permission left = read_permission right /\
  write_permission left = write_permission right.
Proof.
  unfold assert_equals_serialized_file_system_handles, assert_equals.
  pose proof (same_flag_iff (is_file left) (is_file right)) as F1.
  pose proof (same_flag_iff (is_directory left) (is_directory right)) as F2.
  pose proof (String.eqb_eq (name left) (name right)) as F3.
  pose proof (PermissionState_eqb_iff
                (read_permission left) (read_permission right)) as F4.
  pose proof (PermissionState_eqb_iff
                (write_permission left) (write_permission right)) as F5.
  destruct (same_flag (is_file left) (is_file right));
    destruct (same_flag (is_directory left) (is_directory right));
    destruct (String.eqb (name left) (name right));
    destruct (PermissionState_eqb
                (read_permission left) (read_permission right));
    destruct (PermissionState_eqb
                (write_permission left) (write_permission right));
    simpl; intuition congruence.
Qed.

Lemma assert_equals_serialized_file_system_handles_same
    (s : serialized_handle) :
  assert_equals_serialized_file_system_handles s s = Ok tt.
Proof.
  apply assert_equals_serialized_file_system_handles_ok. auto.
Qed.

Lemma assert_equals_serialized_file_system_file_handles_same
    (s : serialized_handle) :
  assert_equals_serialized_file_system_file_handles s s = Ok tt.
Proof.
  unfold assert_equals_serialized_file_system_file_handles.
  rewrite assert_equals_serialized_file_system_handles_same. simpl.
  apply assert_equals_ok, same_optional_string_iff. reflexivity.
Qed.

Lemma assert_equals_serialized_file_system_directory_handles_same
    (s : serialized_handle) :
  directory_shaped s = true ->
  assert_equals_serialized_file_system_directory_handles s s = Ok tt.
Proof.
  induction s
    as [file directory handle_name read write contents child_files
        child_directories _ IH] using serialized_induction.
  destruct child_files as [cf|]; [|discriminate].
  destruct child_directories as [cd|]; [|discriminate].
  cbn [directory_shaped files directories]. intros Hshape.
  cbn [assert_equals_serialized_file_system_directory_handles
       files directories].
  rewrite assert_equals_serialized_file_system_handles_same.
  cbn [bind]. unfold assert_equals. rewrite !Nat.eqb_refl. cbn [bind].
  rewrite !for_each_index_pairs.
  rewrite for_each_pair_same.
  - cbn [bind]. apply for_each_pair_same.
    simpl in IH. rewrite forallb_forall in Hshape.
    rewrite Forall_forall in IH |- *. auto.
  - rewrite Forall_forall. intros x _.
    apply assert_equals_serialized_file_system_file_handles_same.
Qed.

Lemma directory_comparison_refines (left : serialized_handle) :
  forall right,
    assert_equals_serialized_file_system_directory_handles left right =
    directory_comparison_pairwise left right.
Proof.
  induction left
    as [file directory handle_name read write contents child_files
        child_directories _ IH] using serialized_induction.
  intros right.
  cbn [assert_equals_serialized_file_system_directory_handles
       directory_comparison_pairwise files directories].
  destruct (assert_equals_serialized_file_system_handles _ right) as [[]|e];
    cbn [bind]; [|reflexivity].
  destruct child_files as [lf|]; [|reflexivity].
  destruct (files right) as [rf|]; [|reflexivity].
  rewrite for_each_index_pairs.
  destruct (assert_equals Nat.eqb (length lf) (length rf) _) as [[]|e];
    cbn [bind]; [|reflexivity].
  change (for_each_pair assert_equals_serialized_file_system_file_handles lf rf)
    with (for_each_pair assert_equals_serialized_file_system_file_handles lf rf).
  destruct (for_each_pair assert_equals_serialized_file_system_file_handles lf rf) as [[]|e];
    cbn [bind]; [|reflexivity].
  destruct child_directories as [ld|]; [|reflexivity].
  destruct (directories right) as [rd|]; [|reflexivity].
  rewrite for_each_index_pairs.
  destruct (assert_equals Nat.eqb (length ld) (length rd) _) as [[]|e];
    cbn [bind]; [|reflexivity].
  apply for_each_pair_ext. exact IH.
Qed.

(** ** Properties of the serializer *)

Lemma code_units_lt_irreflexive (x : string) : ~ String_as_OT.lt x x.
Proof. apply (StrictOrder_Irreflexive (R := String_as_OT.lt)). Qed.

Lemma code_units_lt_transitive (x y z : string) :
  String_as_OT.lt x y -> String_as_OT.lt y z -> String_as_OT.lt x z.
Proof. apply (StrictOrder_Transitive (R := String_as_OT.lt)). Qed.

Lemma compare_code_units_sign (x y : string) :
  ((compare_code_units x y < 0)%Z <-> String_as_OT.lt x y) /\
  (compare_code_units x y = 0%Z <-> x = y) /\
  ((0 < compare_code_units x y)%Z <-> String_as_OT.lt y x).
Proof.
  unfold compare_code_units.
  destruct (String_as_OT.compare_spec x y) as [E|L|G].
  - unfold String_as_OT.eq in E. subst y.
    pose proof (code_units_lt_irreflexive x). intuition lia.
  - assert (x <> y)
      by (intros ->; exact (code_units_lt_irreflexive _ L)).
    assert (~ String_as_OT.lt y x)
      by (intros G; exact (code_units_lt_irreflexive _
                             (code_units_lt_transitive _ _ _ L G))).
    intuition lia.
  - assert (x <> y)
      by (intros ->; exact (code_units_lt_irreflexive _ G)).
    assert (~ String_as_OT.lt x y)
      by (intros L; exact (code_units_lt_irreflexive _
                             (code_units_lt_transitive _ _ _ L G))).
    intuition lia.
Qed.

Lemma compare_code_units_not_after (x y : string) :
  (compare_code_units x y <= 0)%Z <-> String_as_OT.lt x y \/ x = y.
Proof.
  destruct (compare_code_units_sign x y) as (Hlt & Heq & Hgt).
  split.
  - intros H. destruct (Z.eq_dec (compare_code_units x y) 0) as [E|N].
    + right. now apply Heq.
    + left. apply Hlt. lia.
  - intros [L|E].
    + apply Hlt in L. lia.
    + apply Heq in E. lia.
Qed.

Lemma compare_code_units_consistent : consistent_comparator compare_code_units.
Proof.
  split.
  - intros x y.
    destruct (compare_code_units_sign x y) as (Hlt & _ & _).
    destruct (compare_code_units_sign y x) as (_ & _ & Hgt).
    rewrite Hlt, Hgt. reflexivity.
  - intros x y z. rewrite !compare_code_units_not_after.
    intros [L1|E1] [L2|E2]; subst; auto.
    left. eapply code_units_lt_transitive; eassumption.
Qed.

(** A handle whose two kind flags are false makes [serialize_handle] throw
    its descriptive string. *)
Lemma serialize_handle_rejects (localeCompare : string -> string -> Z)
    (handle : FileSystemHandle.t) :
  isFile handle = false -> isDirectory handle = false ->
  serialize_handle localeCompare handle =
  Throw (ThrownString
           (not_a_handle_message (FileSystemHandle.toString handle))).
Proof.
  intros Hf Hd. now rewrite serialize_handle_equation, Hd, Hf.
Qed.

(** C1: for every directory handle whose tree holds only files and
    directories, whatever the order in which [getEntries()] yields the
    children, [serialize_handle] returns a dictionary whose [files] and
    [directories] arrays are each sorted ascending by [name] under the
    collation and together hold as many elements as the directory has
    children; a directory whose children are the files ["b"] and ["a"]
    serializes with ["a"] before ["b"] in [files]. *)
Theorem serialized_children_sorted_by_name
    (localeCompare : string -> string -> Z)
    (consistent : consistent_comparator localeCompare)
    (a_before_b : (localeCompare "a" "b" < 0)%Z) :
  (forall D,
      isDirectory D = true -> serializable D = true ->
      exists s child_files child_directories,
        serialize_handle localeCompare D = Ok s /\
        files s = Some child_files /\
        directories s = Some child_directories /\
        StronglySorted (name_order localeCompare) child_files /\
        StronglySorted (name_order localeCompare) child_directories /\
        length child_files + length child_directories =
          length (getEntries D)) /\
  (forall D file_a file_b,
      isDirectory D = true ->
      is_file_named "a" file_a -> is_file_named "b" file_b ->
      getEntries D = [file_b; file_a] \/ getEntries D = [file_a; file_b] ->
      exists s child_files,
        serialize_handle localeCompare D = Ok s /\
        files s = Some child_files /\
        map name child_files = ["a"; "b"]).
Proof.
  destruct consistent as [swap transitive].
  split.
  - intros D Hd Hall.
    destruct (serialize_handle_total localeCompare D Hall) as (s & Hs).
    destruct (serialize_directory_result localeCompare D s Hd Hs)
      as (cf & cd & Hc & ->).
    do 3 eexists. split; [exact Hs|].
    split; [reflexivity|]. split; [reflexivity|].
    split; [|split].
    + apply Array_sort_sorted; unfold compare_names; auto.
      intros x y z; apply transitive.
    + apply Array_sort_sorted; unfold compare_names; auto.
      intros x y z; apply transitive.
    + apply serialize_entries_length in Hc. simpl in Hc.
      rewrite <- !(Permutation_length (Array_sort_permutation _ _)).
      exact Hc.
  - intros D fa fb Hd (Hda & Hfa & Hna) (Hdb & Hfb & Hnb) Horder.
    assert (Ha : serialize_handle localeCompare fa =
                 Ok {| is_file := Some true; is_directory := Some false;
                       name := "a";
                       read_permission := queryPermission fa false;
                       write_permission := queryPermission fa true;
                       file_contents := Some (getFileContents fa);
                       files := None; directories := None |}).
    { rewrite serialize_handle_equation, Hda, Hfa.
      unfold serialize_file_system_file_handle, serialize_file_system_handle,
        assign_file_contents. simpl. now rewrite Hda, Hfa, Hna. }
    assert (Hb : serialize_handle localeCompare fb =
                 Ok {| is_file := Some true; is_directory := Some false;
                       name := "b";
                       read_permission := queryPermission fb false;
                       write_permission := queryPermission fb true;
                       file_contents := Some (getFileContents fb);
                       files := None; directories := None |}).
    { rewrite serialize_handle_equation, Hdb, Hfb.
      unfold serialize_file_system_file_handle, serialize_file_system_handle,
        assign_file_contents. simpl. now rewrite Hdb, Hfb, Hnb. }
    assert (Hba : (localeCompare "b" "a" <=? 0)%Z = false).
    { apply Z.leb_gt. now apply swap. }
    assert (Hab : (localeCompare "a" "b" <=? 0)%Z = true).
    { apply Z.leb_le. lia. }
    rewrite serialize_handle_equation, Hd.
    unfold serialize_file_system_directory_handle, serialize_directory_body.
    destruct Horder as [-> | ->]; simpl;
      rewrite Ha, Hb; simpl; rewrite Hda, Hdb; simpl;
      unfold compare_names; simpl; rewrite ?Hba, ?Hab;
      do 2 eexists; (split; [reflexivity|]); split; reflexivity.
Qed.

(** The file children ["b"], ["a"] of a sample directory come out as
    ["a"], ["b"] under the code-unit collation. *)
Lemma serialized_children_sorted_by_name_witness :
  exists s child_files,
    serialize_handle compare_code_units
      (sample_directory 1 "directory-with-files"
         [sample_file 2 "b" "second"; sample_file 3 "a" "first"]) = Ok s /\
    files s = Some child_files /\
    map name child_files = ["a"; "b"].
Proof.
  refine (proj2 (serialized_children_sorted_by_name compare_code_units
                   compare_code_units_consistent _) _
            (sample_file 3 "a" "first") (sample_file 2 "b" "second") _ _ _ _).
  - reflexivity.
  - reflexivity.
  - repeat split.
  - repeat split.
  - left. reflexivity.
Defined.

(** A dictionary the serializer returned passes the comparison with
    itself. *)
Lemma serialize_handle_result_equals_itself
    (localeCompare : string -> string -> Z) (handle : FileSystemHandle.t)
    (s : serialized_handle) :
  serialize_handle localeCompare handle = Ok s ->
  assert_equals_serialized_handles s s = Ok tt.
Proof.
  intros Hs. unfold assert_equals_serialized_handles.
  destruct (isDirectory handle) eqn:Hd.
  - pose proof (serialize_directory_shaped localeCompare handle s Hd Hs)
      as Hshape.
    destruct (serialize_directory_result localeCompare handle s Hd Hs)
      as (cf & cd & _ & E).
    replace (truthy (is_directory s)) with true by (rewrite E; reflexivity).
    now apply assert_equals_serialized_file_system_directory_handles_same.
  - destruct (serialize_file_result localeCompare handle s Hd Hs) as (_ & E).
    replace (truthy (is_directory s)) with false by (rewrite E; reflexivity).
    replace (truthy (is_file s)) with true by (rewrite E; reflexivity).
    apply assert_equals_serialized_file_system_file_handles_same.
Qed.

(** C5: for every handle whose tree holds only files and directories,
    [serialize_handle] returns a dictionary, and comparing that dictionary
    with itself through [assert_equals_serialized_handles] returns normally. *)
Theorem serialized_handle_equals_itself
    (localeCompare : string -> string -> Z) (handle : FileSystemHandle.t) :
  serializable handle = true ->
  exists s,
    serialize_handle localeCompare handle = Ok s /\
    assert_equals_serialized_handles s s = Ok tt.
Proof.
  intros Hall.
  destruct (serialize_handle_total localeCompare handle Hall) as (s & Hs).
  exists s. split; [exact Hs|].
  eapply serialize_handle_result_equals_itself. exact Hs.
Qed.

Lemma serialized_handle_equals_itself_witness :
  exists s,
    serialize_handle compare_code_units
      (sample_directory 1 "directory-with-files"
         [sample_file 2 "first-file-in-directory" "first-directory-text-content";
          sample_directory 3 "subdirectory"
            [sample_file 4 "first-file-in-subdirectory"
               "first-subdirectory-text-content"]]) = Ok s /\
    assert_equals_serialized_handles s s = Ok tt.
Proof.
  apply (serialized_handle_equals_itself compare_code_units).
  reflexivity.
Defined.

(** C6, as the code has it: for every object whose [isFile] and
    [isDirectory] are both false, [serialize_handle] returns no dictionary
    and throws the string ["Object is not a FileSystemFileHandle or
    FileSystemDirectoryHandle "] followed by the object's text. *)
Theorem serialize_handle_throws_string
    (localeCompare : string -> string -> Z) (handle : FileSystemHandle.t) :
  isFile handle = false -> isDirectory handle = false ->
  serialize_handle localeCompare handle =
    Throw (ThrownString
             ("Object is not a FileSystemFileHandle or FileSystemDirectoryHandle "
              ++ FileSystemHandle.toString handle)%string) /\
  forall s, serialize_handle localeCompare handle <> Ok s.
Proof.
  intros Hf Hd. rewrite (serialize_handle_rejects _ _ Hf Hd).
  split; [reflexivity|discriminate].
Qed.

Lemma serialize_handle_throws_string_witness :
  serialize_handle compare_code_units sample_non_handle =
    Throw (ThrownString
             "Object is not a FileSystemFileHandle or FileSystemDirectoryHandle [object Object]") /\
  forall s, serialize_handle compare_code_units sample_non_handle <> Ok s.
Proof.
  apply (serialize_handle_throws_string compare_code_units sample_non_handle);
    reflexivity.
Defined.

(** C6 as stated fails: the object [sample_non_handle] is neither a file nor
    a directory handle, and what [serialize_handle] throws for it is a string,
    not a [TypeError]. *)
Lemma serialize_handle_throws_no_TypeError :
  isFile sample_non_handle = false /\
  isDirectory sample_non_handle = false /\
  ~ exists message,
      serialize_handle compare_code_units sample_non_handle =
      Throw (TypeError message).
Proof.
  split; [reflexivity|]. split; [reflexivity|].
  intros (message & H). discriminate H.
Qed.

(** ** Properties of the comparator *)

(** C10: when the left dictionary has neither a true [is_directory] nor a
    true [is_file] (false or absent), [assert_equals_serialized_handles]
    never returns normally, whatever the right dictionary: evaluating the
    message of its last branch reads the undeclared identifier [handle], so
    what is thrown is a [ReferenceError] and not the descriptive string. *)
Theorem assert_equals_serialized_handles_fallback
    (left right : serialized_handle) :
  truthy (is_directory left) = false -> truthy (is_file left) = false ->
  assert_equals_serialized_handles left right =
    Throw (ReferenceError "handle is not defined") /\
  assert_equals_serialized_handles left right <> Ok tt /\
  forall text,
    assert_equals_serialized_handles left right <>
    Throw (ThrownString (not_a_handle_message text)).
Proof.
  intros Hd Hf. unfold assert_equals_serialized_handles.
  rewrite Hd, Hf.
  replace (identifier_in_scope ["left"; "right"] "handle") with false
    by reflexivity.
  repeat split; discriminate.
Qed.

Lemma assert_equals_serialized_handles_fallback_witness :
  assert_equals_serialized_handles sample_unknown_kind sample_unknown_kind =
    Throw (ReferenceError "handle is not defined") /\
  assert_equals_serialized_handles sample_unknown_kind sample_unknown_kind <>
    Ok tt /\
  forall text,
    assert_equals_serialized_handles sample_unknown_kind sample_unknown_kind <>
    Throw (ThrownString (not_a_handle_message text)).
Proof.
  apply (assert_equals_serialized_handles_fallback
           sample_unknown_kind sample_unknown_kind); reflexivity.
Defined.

Lemma same_value_decides {A : Type} (same_value : A -> A -> bool)
    (eq_dec : forall a b : A, {a = b} + {a <> b}) :
  (forall a b, same_value a b = true <-> a = b) ->
  forall a b, same_value a b = if eq_dec a b then true else false.
Proof.
  intros Hiff a b. destruct (eq_dec a b) as [E|N].
  - now apply Hiff.
  - destruct (same_value a b) eqn:H; [|reflexivity].
    now apply Hiff in H.
Qed.

(** The five assertions on the shared properties end as the document's
    shared-field comparison reports. *)
Lemma shared_comparison_reports (left right : serialized_handle) :
  assert_equals_serialized_file_system_handles left right =
  outcome (shared_mismatch left right).
Proof.
  unfold assert_equals_serialized_file_system_handles, shared_mismatch,
    assert_equals.
  rewrite !(same_value_decides same_flag flag_eq_dec same_flag_iff).
  rewrite (same_value_decides String.eqb string_dec String.eqb_eq).
  rewrite !(same_value_decides PermissionState_eqb PermissionState_eq_dec
              PermissionState_eqb_iff).
  destruct (flag_eq_dec (is_file left) (is_file right)); [|reflexivity].
  destruct (flag_eq_dec (is_directory left) (is_directory right));
    [|reflexivity].
  destruct (string_dec (name left) (name right)); [|reflexivity].
  destruct (PermissionState_eq_dec (read_permission left)
              (read_permission right)); [|reflexivity].
  destruct (PermissionState_eq_dec (write_permission left)
              (write_permission right)); reflexivity.
Qed.

Lemma outcome_then (report : option mismatch) (k : unit -> result unit) :
  bind (outcome report) k =
  match report with
  | Some disagreement => outcome (Some disagreement)
  | None => k tt
  end.
Proof. destruct report as [[[]| |[]|]|]; reflexivity. Qed.

Lemma file_comparison_reports (left right : serialized_handle) :
  assert_equals_serialized_file_system_file_handles left right =
  outcome (file_mismatch left right).
Proof.
  unfold assert_equals_serialized_file_system_file_handles, file_mismatch.
  rewrite shared_comparison_reports, outcome_then.
  destruct (shared_mismatch left right) as [report|]; [reflexivity|].
  unfold assert_equals.
  rewrite (same_value_decides same_optional_string content_eq_dec
             same_optional_string_iff).
  destruct (content_eq_dec (file_contents left) (file_contents right));
    reflexivity.
Qed.

(** Two arrays of equal length traversed side by side end as the pairwise
    comparison of the document reports. *)
Lemma for_each_pair_reports
    (assert_pair : serialized_handle -> serialized_handle -> result unit)
    (compare : serialized_handle -> serialized_handle -> option mismatch)
    (left_array : list serialized_handle) :
  Forall (fun l => forall r, assert_pair l r = outcome (compare l r))
    left_array ->
  forall right_array,
    length left_array = length right_array ->
    for_each_pair assert_pair left_array right_array =
    outcome (pairwise_mismatch compare left_array right_array).
Proof.
  induction 1 as [|l rest Hl _ IH]; intros [|r rs] Hlen;
    try discriminate Hlen; [reflexivity|].
  cbn [for_each_pair pairwise_mismatch].
  rewrite Hl, outcome_then.
  destruct (compare l r) as [report|]; [reflexivity|].
  apply IH. now injection Hlen.
Qed.

Lemma sequence_comparison_reports
    (assert_pair : serialized_handle -> serialized_handle -> result unit)
    (compare : serialized_handle -> serialized_handle -> option mismatch)
    (which : collection) (description : string)
    (left_array right_array : list serialized_handle) :
  explanation (length_mismatch which) = description ->
  Forall (fun l => forall r, assert_pair l r = outcome (compare l r))
    left_array ->
  (assert_equals Nat.eqb (length left_array) (length right_array)
     description ;;
   for_each_pair assert_pair left_array right_array) =
  outcome
    (sequence_mismatch compare which (Some left_array) (Some right_array)).
Proof.
  intros Hdescription Hall. unfold sequence_mismatch, assert_equals.
  destruct (Nat.eq_dec (length left_array) (length right_array)) as [E|N].
  - rewrite E, Nat.eqb_refl. cbn [bind].
    now apply for_each_pair_reports.
  - apply Nat.eqb_neq in N. rewrite N. cbn [bind outcome].
    rewrite <- Hdescription. destruct which; reflexivity.
Qed.

Lemma directory_comparison_reports (left : serialized_handle) :
  forall right,
    assert_equals_serialized_file_system_directory_handles left right =
    outcome (directory_mismatch left right).
Proof.
  intros right. rewrite directory_comparison_refines. revert right.
  induction left
    as [file directory handle_name read write contents child_files
        child_directories _ IH] using serialized_induction.
  intros right.
  cbn [directory_comparison_pairwise directory_mismatch files directories].
  rewrite shared_comparison_reports, outcome_then.
  destruct (shared_mismatch _ right) as [report|]; [reflexivity|].
  destruct child_files as [lf|];
    [|destruct child_directories, (directories right); reflexivity].
  destruct (files right) as [rf|];
    [|destruct child_directories, (directories right); reflexivity].
  rewrite (sequence_comparison_reports
             assert_equals_serialized_file_system_file_handles file_mismatch
             files_collection file_children_description lf rf eq_refl).
  2:{ rewrite Forall_forall. intros l _ r. apply file_comparison_reports. }
  rewrite outcome_then.
  destruct (sequence_mismatch file_mismatch files_collection (Some lf)
              (Some rf)) as [report|]; [reflexivity|].
  destruct child_directories as [ld|]; [|reflexivity].
  destruct (directories right) as [rd|]; [|reflexivity].
  apply (sequence_comparison_reports directory_comparison_pairwise
           directory_mismatch directories_collection
           directory_children_description ld rd eq_refl).
  exact IH.
Qed.

Lemma mentions_witness (text before after : string) :
  mentions text (before ++ text ++ after).
Proof. now exists before, after. Qed.

(** C9: the comparator behaves as the design document words it.  The
    shared-field comparison checks [isFile], [isDirectory], [name], the read
    permission and the write permission, in that order, and reports the
    first that differs; the directory comparison makes the shared-field
    comparison first, then requires the two [files] sequences to have equal
    lengths, failing at once with a message naming the file children,
    before it compares them pairwise by index as files, and then does the
    same for the two [directories] sequences, compared as directories; the
    file comparison makes the shared-field comparison and then requires
    equal contents; [assert_equals_serialized_handles] selects between the
    two on the left dictionary's flags.  Each failure is a failed assertion
    whose description names the field or the collection. *)
Theorem comparator_follows_documented_order :
  (forall left right,
      assert_equals_serialized_file_system_handles left right =
      outcome (shared_mismatch left right)) /\
  (forall left right,
      assert_equals_serialized_file_system_directory_handles left right =
      outcome (directory_mismatch left right)) /\
  (forall left right,
      assert_equals_serialized_file_system_file_handles left right =
      outcome (file_mismatch left right)) /\
  (forall left right,
      assert_equals_serialized_handles left right =
      match snapshot_mismatch left right with
      | Some report => outcome report
      | None => Throw (ReferenceError "handle is not defined")
      end) /\
  mentions "isFile" (explanation (field_mismatch isFile_field)) /\
  mentions "isDirectory" (explanation (field_mismatch isDirectory_field)) /\
  mentions "name" (explanation (field_mismatch name_field)) /\
  mentions "read" (explanation (field_mismatch readPermission_field)) /\
  mentions "write" (explanation (field_mismatch writePermission_field)) /\
  mentions "contents" (explanation content_mismatch) /\
  mentions "file children" (explanation (length_mismatch files_collection)) /\
  mentions "directory children"
    (explanation (length_mismatch directories_collection)).
Proof.
  split; [exact shared_comparison_reports|].
  split; [intros left right; apply directory_comparison_reports|].
  split; [exact file_comparison_reports|].
  split.
  { intros left right.
    unfold assert_equals_serialized_handles, snapshot_mismatch.
    destruct (truthy (is_directory left));
      [apply directory_comparison_reports|].
    destruct (truthy (is_file left)); [apply file_comparison_reports|].
    reflexivity. }
  repeat split.
  - apply (mentions_witness "isFile"
             ("Each FileSystemHandle instance must use the expected " ++
              dquote) (dquote ++ ".")).
  - apply (mentions_witness "isDirectory"
             ("Each FileSystemHandle instance must use the expected " ++
              dquote) (dquote ++ ".")).
  - apply (mentions_witness "name"
             ("Each FileSystemHandle instance must use the expected " ++
              dquote) (dquote ++ "  property.")).
  - apply (mentions_witness "read"
             "Each FileSystemHandle instance must have the expected "
             "  permission.").
  - apply (mentions_witness "write"
             "Each FileSystemHandle instance must have the expected "
             "  permission.").
  - apply (mentions_witness "contents"
             "Each FileSystemFileHandle instance must have the same " ".").
  - apply (mentions_witness "file children"
             "Each FileSystemDirectoryHandle must contain the same number of "
             EmptyString).
  - apply (mentions_witness "directory children"
             "Each FileSystemDirectoryHandle must contain the same number of "
             EmptyString).
Qed.

(** ** Properties of the router *)

Lemma reply_destinations_app (t1 t2 : list effect) :
  reply_destinations (t1 ++ t2) = reply_destinations t1 ++ reply_destinations t2.
Proof. apply flat_map_app. Qed.

Section Destinations.

Variable message_source : option Endpoint.

Lemma replies_and_then {A B : Type} (a : action A) (k : A -> action B) :
  replies_go_to_source message_source (fst a) ->
  (forall value, replies_go_to_source message_source (fst (k value))) ->
  replies_go_to_source message_source (fst (and_then a k)).
Proof.
  intros Ha Hk. unfold and_then. destruct (snd a) as [value|error]; simpl.
  - unfold replies_go_to_source. rewrite reply_destinations_app.
    apply Forall_app. split; [exact Ha|apply Hk].
  - exact Ha.
Qed.

Lemma replies_try_catch {A : Type} (body : action A)
    (handler : js_error -> action A) :
  replies_go_to_source message_source (fst body) ->
  (forall error, replies_go_to_source message_source (fst (handler error))) ->
  replies_go_to_source message_source (fst (try_catch body handler)).
Proof.
  intros Hb Hh. unfold try_catch. destruct (snd body) as [value|error]; simpl.
  - exact Hb.
  - unfold replies_go_to_source. rewrite reply_destinations_app.
    apply Forall_app. split; [exact Hb|apply Hh].
Qed.

Lemma replies_lift {A : Type} (r : result A) :
  replies_go_to_source message_source (fst (lift r)).
Proof. constructor. Qed.

Lemma replies_postMessage (message : message_data)
    (target_origin : option string) :
  replies_go_to_source message_source (fst (postMessage message_source message target_origin)).
Proof.
  unfold replies_go_to_source, postMessage. generalize message_source.
  intros [endpoint|]; [destruct (accepts_target_origin endpoint target_origin)|];
    simpl; repeat constructor.
Qed.

Lemma replies_add_message_event_handlers (receiver target : option Endpoint)
    (target_origin : option string) :
  replies_go_to_source message_source
    (fst (add_message_event_handlers receiver target target_origin)).
Proof. destruct receiver; constructor. Qed.

Lemma replies_start (port : option Endpoint) :
  replies_go_to_source message_source (fst (start port)).
Proof. destruct port as [[]|]; constructor. Qed.

Lemma replies_message_switch (localeCompare : string -> string -> Z)
    (file_system : FileSystem) (target_origin : option string)
    (message_data : message_data) :
  replies_go_to_source message_source
    (fst (message_switch localeCompare file_system message_source
            target_origin message_data)).
Proof.
  unfold message_switch.
  apply replies_and_then; [apply replies_lift|]. intros message.
  repeat match goal with
         | |- context [if ?c then _ else _] => destruct c
         | |- context [match file_system_handles ?m with _ => _ end] =>
             destruct (file_system_handles m)
         | |- replies_go_to_source _ (fst (and_then _ _)) =>
             apply replies_and_then; [|intros ?]
         | |- replies_go_to_source _ (fst (postMessage _ _ _)) =>
             apply replies_postMessage
         | |- replies_go_to_source _ (fst (lift _)) => apply replies_lift
         | |- replies_go_to_source _ (fst (add_message_event_handlers _ _ _)) =>
             apply replies_add_message_event_handlers
         | |- replies_go_to_source _ (fst (start _)) => apply replies_start
         | |- replies_go_to_source _ (fst (perform _)) => constructor
         | |- replies_go_to_source _ (fst (ret _)) => constructor
         end.
Qed.

End Destinations.

(** The reply of the [catch] block reaches a destination that exists and
    accepts the target origin. *)
Lemma try_catch_report_error (body : action unit) (destination : Endpoint)
    (target_origin : option string) :
  accepts_target_origin destination target_origin = true ->
  snd (try_catch body (report_error (Some destination) target_origin)) = Ok tt /\
  (forall error,
      snd body = Throw error ->
      try_catch body (report_error (Some destination) target_origin) =
      (fst body ++
       [PostMessage destination
          (DataString ("ERROR: " ++ error_to_string error)%string)
          target_origin],
       Ok tt)) /\
  (snd body = Ok tt ->
   try_catch body (report_error (Some destination) target_origin) = body).
Proof.
  intros Haccepts. unfold try_catch, report_error, postMessage.
  rewrite Haccepts. destruct body as [trace [[]|error]]; simpl.
  - repeat split; intros; discriminate.
  - repeat split; try discriminate. now intros error' [= <-].
Qed.

Lemma recognized_false (message : envelope) :
  recognized message = false ->
  type_is message "receive-message-port" = false /\
  type_is message "create-broadcast-channel" = false /\
  type_is message "receive-file-system-handles" = false /\
  type_is message "receive-serialized-file-system-handles" = false /\
  type_is message "create-file" = false /\
  type_is message "create-directory" = false.
Proof.
  unfold recognized, recognized_types. cbn [existsb].
  intros H.
  repeat (apply orb_false_elim in H; destruct H as [? H]).
  repeat split; assumption.
Qed.

(** The [default] case is the one taken for an unrecognized type, and it
    throws before anything is done. *)
Lemma message_switch_unknown_type (localeCompare : string -> string -> Z)
    (file_system : FileSystem) (message_source : option Endpoint)
    (target_origin : option string) (message : envelope) :
  recognized message = false ->
  message_switch localeCompare file_system message_source target_origin
    (DataObject message) =
  ([], Throw (ThrownString (unknown_message_type (type message)))).
Proof.
  intros H. apply recognized_false in H as (H1 & H2 & H3 & H4 & H5 & H6).
  unfold message_switch. unfold and_then at 1. cbn [lift properties_of fst snd].
  rewrite H1, H2, H3, H4, H5, H6. reflexivity.
Qed.

(** C7: the [message] listener and the [messageerror] listener both resolve
    the reply destination to the event's [source] when it is not null and to
    the [target] given to [add_message_event_handlers] otherwise, and every
    message either listener posts goes to the destination so resolved. *)
Theorem replies_go_to_resolved_source
    (localeCompare : string -> string -> Z) (file_system : FileSystem)
    (target : option Endpoint) (target_origin : option string)
    (message_event : MessageEvent.t message_data)
    (message_error_event : MessageEvent.t js_primitive) :
  resolve_message_source message_event target =
    match MessageEvent.source message_event with
    | Some message_source => Some message_source
    | None => target
    end /\
  resolve_message_source message_error_event target =
    match MessageEvent.source message_error_event with
    | Some message_source => Some message_source
    | None => target
    end /\
  replies_go_to_source (resolve_message_source message_event target)
    (fst (message_listener localeCompare file_system target target_origin
            message_event)) /\
  replies_go_to_source (resolve_message_source message_error_event target)
    (fst (messageerror_listener target target_origin message_error_event)).
Proof.
  split; [reflexivity|]. split; [reflexivity|].
  split.
  - unfold message_listener. apply replies_try_catch.
    + apply replies_message_switch.
    + intros error. apply replies_postMessage.
  - unfold messageerror_listener. apply replies_try_catch.
    + apply replies_postMessage.
    + intros error. apply replies_postMessage.
Qed.

(** C4, as the code has it: when the reply destination resolves to an
    endpoint (the event has a source, or a target was configured) that
    accepts the target origin, a message object whose [type] is none of the
    six recognized ones makes the [message] listener post to that
    destination the string ["ERROR: Unknown message type: '<type>'"] and do
    nothing else. *)
Theorem unknown_message_type_reply
    (localeCompare : string -> string -> Z) (file_system : FileSystem)
    (target : option Endpoint) (target_origin : option string)
    (message_event : MessageEvent.t message_data)
    (message : envelope) (destination : Endpoint) :
  MessageEvent.data message_event = DataObject message ->
  recognized message = false ->
  resolve_message_source message_event target = Some destination ->
  accepts_target_origin destination target_origin = true ->
  message_listener localeCompare file_system target target_origin
    message_event =
  ([PostMessage destination
      (DataString ("ERROR: Unknown message type: '" ++
                   template_of_property (type message) ++ "'")%string)
      target_origin],
   Ok tt).
Proof.
  intros Hdata Hunknown Hsource Haccepts. unfold message_listener.
  rewrite Hdata, Hsource, message_switch_unknown_type by exact Hunknown.
  unfold try_catch, report_error, postMessage. cbn [snd fst].
  rewrite Haccepts. reflexivity.
Qed.

Lemma unknown_message_type_reply_witness :
  message_listener compare_code_units sample_file_system None (Some "*")
    (MessageEvent.Build (DataObject (envelope_of_type "delete-file"))
       "https://web-platform.test:8443" EmptyString (Some (Window 1)) []) =
  ([PostMessage (Window 1)
      (DataString "ERROR: Unknown message type: 'delete-file'") (Some "*")],
   Ok tt).
Proof.
  apply (unknown_message_type_reply compare_code_units sample_file_system
           None (Some "*") _ (envelope_of_type "delete-file") (Window 1));
    reflexivity.
Defined.

(** C4 as stated fails: the reply needs a destination.  A message of an
    unknown type that carries no sender reference, handled by listeners
    registered without a target, gets no reply at all: the [catch] block
    calls [postMessage] on [undefined], which throws, and nothing has been
    posted when the invocation ends. *)
Lemma unknown_message_type_without_reply :
  recognized (envelope_of_type "delete-file") = false /\
  resolve_message_source
    (sample_port_event (DataObject (envelope_of_type "delete-file"))) None =
    None /\
  message_listener compare_code_units sample_file_system None None
    (sample_port_event (DataObject (envelope_of_type "delete-file"))) =
    ([], Throw undefined_property_access) /\
  forall destination target_origin,
    ~ In (PostMessage destination
            (DataString "ERROR: Unknown message type: 'delete-file'")
            target_origin)
         (fst (message_listener compare_code_units sample_file_system None
                 None
                 (sample_port_event
                    (DataObject (envelope_of_type "delete-file"))))).
Proof.
  split; [reflexivity|]. split; [reflexivity|]. split; [reflexivity|].
  intros destination target_origin H. exact H.
Qed.

(** C3, as the code has it: the reply of the [catch] block is best effort.
    When the reply destination resolves to an endpoint that accepts the
    target origin, the [message] listener always completes normally, and
    every failure raised inside its [try] block, the unknown-type failure
    included, ends the invocation with the reply ["ERROR: <description>"]
    posted to that destination; the same holds for the [messageerror]
    listener. *)
Theorem listener_failures_are_reported
    (localeCompare : string -> string -> Z) (file_system : FileSystem)
    (target : option Endpoint) (target_origin : option string)
    (message_event : MessageEvent.t message_data)
    (message_error_event : MessageEvent.t js_primitive)
    (destination error_destination : Endpoint) :
  resolve_message_source message_event target = Some destination ->
  accepts_target_origin destination target_origin = true ->
  resolve_message_source message_error_event target = Some error_destination ->
  accepts_target_origin error_destination target_origin = true ->
  let attempt :=
    message_switch localeCompare file_system (Some destination) target_origin
      (MessageEvent.data message_event) in
  let error_attempt :=
    messageerror_body (Some error_destination) target_origin
      message_error_event in
  snd (message_listener localeCompare file_system target target_origin
         message_event) = Ok tt /\
  (forall error,
      snd attempt = Throw error ->
      message_listener localeCompare file_system target target_origin
        message_event =
      (fst attempt ++
       [PostMessage destination
          (DataString ("ERROR: " ++ error_to_string error)%string)
          target_origin],
       Ok tt)) /\
  (forall message,
      MessageEvent.data message_event = DataObject message ->
      recognized message = false ->
      snd attempt = Throw (ThrownString (unknown_message_type (type message)))) /\
  snd (messageerror_listener target target_origin message_error_event) = Ok tt /\
  (forall error,
      snd error_attempt = Throw error ->
      messageerror_listener target target_origin message_error_event =
      (fst error_attempt ++
       [PostMessage error_destination
          (DataString ("ERROR: " ++ error_to_string error)%string)
          target_origin],
       Ok tt)).
Proof.
  intros Hsource Haccepts Herror Haccepts' attempt error_attempt.
  unfold message_listener, messageerror_listener.
  rewrite Hsource, Herror.
  destruct (try_catch_report_error attempt destination target_origin Haccepts)
    as (Hok & Hcaught & _).
  destruct (try_catch_report_error error_attempt error_destination
              target_origin Haccepts') as (Hok' & Hcaught' & _).
  split; [exact Hok|]. split; [exact Hcaught|].
  split; [|split; [exact Hok'|exact Hcaught']].
  intros message Hdata Hunknown. subst attempt.
  now rewrite Hdata, message_switch_unknown_type.
Qed.

(** A rejected file system request on a port without a sender reference is
    reported to the configured target. *)
Lemma listener_failures_are_reported_witness :
  message_listener compare_code_units failing_file_system
    (Some (MessagePort 7)) None
    (sample_port_event (DataObject (envelope_of_type "create-file"))) =
  ([PostMessage (MessagePort 7)
      (DataString "ERROR: SecurityError: Storage access is denied.") None],
   Ok tt).
Proof.
  destruct (listener_failures_are_reported compare_code_units
              failing_file_system (Some (MessagePort 7)) None
              (sample_port_event (DataObject (envelope_of_type "create-file")))
              sample_message_error_event
              (MessagePort 7) (MessagePort 7) eq_refl eq_refl eq_refl eq_refl)
    as (_ & Hcaught & _).
  exact (Hcaught (DOMException "SecurityError" "Storage access is denied.")
           eq_refl).
Defined.

(** C3 as stated fails: a dedicated worker's message carries no sender
    reference, and the target of [add_message_event_handlers] is optional.
    With neither, a file system request the platform rejects is a failure
    raised inside the [try] block for which no reply is posted: the reply of
    the [catch] block throws in its turn and ends the invocation. *)
Lemma listener_failure_without_reply :
  resolve_message_source
    (sample_port_event (DataObject (envelope_of_type "create-file"))) None =
    None /\
  snd (message_switch compare_code_units failing_file_system None None
         (DataObject (envelope_of_type "create-file"))) =
    Throw (DOMException "SecurityError" "Storage access is denied.") /\
  message_listener compare_code_units failing_file_system None None
    (sample_port_event (DataObject (envelope_of_type "create-file"))) =
    ([], Throw undefined_property_access).
Proof. repeat split. Qed.

(** The five assertions on a message-error dictionary pass exactly when its
    properties have the values a dispatched [messageerror] event must have. *)
Lemma assert_equals_serialized_message_error_event_ok
    (report : serialized_event) (expected_origin : string)
    (expected_has_source : bool) :
  assert_equals_serialized_message_error_event report expected_origin
    expected_has_source = Ok tt <->
  data report = js_null /\ last_event_id report = EmptyString /\
  ports_length report = 0 /\ origin report = expected_origin /\
  has_source report = expected_has_source.
Proof.
  unfold assert_equals_serialized_message_error_event, assert_equals.
  assert (F1 : same_primitive (data report) js_null = true <->
               data report = js_null)
    by (destruct (data report); simpl; split; congruence).
  pose proof (String.eqb_eq (origin report) expected_origin) as F2.
  pose proof (String.eqb_eq (last_event_id report) EmptyString) as F3.
  pose proof (Bool.eqb_true_iff (has_source report) expected_has_source) as F4.
  pose proof (Nat.eqb_eq (ports_length report) 0) as F5.
  destruct (same_primitive (data report) js_null);
    destruct (String.eqb (origin report) expected_origin);
    destruct (String.eqb (last_event_id report) EmptyString);
    destruct (Bool.eqb (has_source report) expected_has_source);
    destruct (Nat.eqb (ports_length report) 0);
    simpl; intuition congruence.
Qed.

(** What the [messageerror] listener does with an event when the reply
    destination is an endpoint that accepts the target origin, and when the
    driver's verification accepts the report. *)
Lemma messageerror_listener_reports
    (target : option Endpoint) (target_origin : option string)
    (message_error_event : MessageEvent.t js_primitive)
    (destination : Endpoint) :
  resolve_message_source message_error_event target = Some destination ->
  accepts_target_origin destination target_origin = true ->
  let report := serialize_message_error_event message_error_event in
  let trace :=
    fst (messageerror_listener target target_origin message_error_event) in
  messageerror_listener target target_origin message_error_event =
    ([PostMessage destination (DataObject (message_error_report report))
        target_origin], Ok tt) /\
  replies_of_type "receive-serialized-file-system-handles" trace = [] /\
  replies_of_type "serialized-message-error" trace =
    [message_error_report report] /\
  report =
    {| data := MessageEvent.data message_error_event;
       origin := MessageEvent.origin message_error_event;
       last_event_id := MessageEvent.lastEventId message_error_event;
       has_source :=
         match MessageEvent.source message_error_event with
         | Some _ => true
         | None => false
         end;
       ports_length := length (MessageEvent.ports message_error_event) |} /\
  forall expected_origin expected_has_source,
    verify_response_with_message_error
      (DataObject (message_error_report report))
      expected_origin expected_has_source = Ok tt <->
    data report = js_null /\ last_event_id report = EmptyString /\
    ports_length report = 0 /\ origin report = expected_origin /\
    has_source report = expected_has_source.
Proof.
  intros Hsource Haccepts report trace.
  assert (Hrun : messageerror_listener target target_origin message_error_event =
                 ([PostMessage destination
                     (DataObject (message_error_report report)) target_origin],
                  Ok tt)).
  { unfold messageerror_listener, messageerror_body, try_catch, postMessage.
    rewrite Hsource, Haccepts. reflexivity. }
  split; [exact Hrun|].
  subst trace. rewrite Hrun.
  split; [reflexivity|]. split; [reflexivity|]. split; [reflexivity|].
  intros expected_origin expected_has_source.
  apply assert_equals_serialized_message_error_event_ok.
Qed.

(** C8, as the code has it: a handle sent across a trust boundary that
    disallows structured clone reaches the receiver as a [messageerror]
    event, which runs the [messageerror] listener and not the [message]
    listener, so no [receive-serialized-file-system-handles] reply is
    produced; when the reply destination resolves to an endpoint (the event
    has a source, or a target was configured) that accepts the target
    origin, exactly one [serialized-message-error] report is posted to it and
    nothing else is done; the report carries the failing event's [data],
    [origin], [lastEventId], whether it has a [source], and the number of
    its ports; and a report passes the driver's verification exactly when
    its [data] is null, its [last_event_id] is empty, its [ports_length] is
    0, and its [origin] and [has_source] are the expected values. *)
Theorem message_error_report_is_verified
    (localeCompare : string -> string -> Z) (file_system : FileSystem)
    (crossed : hop) (target : option Endpoint)
    (target_origin : option string) (handles : list FileSystemHandle.t)
    (transfer : list Endpoint) (destination : Endpoint) :
  allows_structured_clone crossed = false ->
  handles <> [] ->
  resolve_message_source (failure_event crossed) target = Some destination ->
  accepts_target_origin destination target_origin = true ->
  let received := transmit crossed (handles_request handles) transfer in
  let run :=
    dispatch_event localeCompare file_system target target_origin received in
  let report := serialize_message_error_event (failure_event crossed) in
  received = delivery_failed (failure_event crossed) /\
  run =
    ([PostMessage destination (DataObject (message_error_report report))
        target_origin], Ok tt) /\
  replies_of_type "receive-serialized-file-system-handles" (fst run) = [] /\
  replies_of_type "serialized-message-error" (fst run) =
    [message_error_report report] /\
  report =
    {| data := MessageEvent.data (failure_event crossed);
       origin := MessageEvent.origin (failure_event crossed);
       last_event_id := MessageEvent.lastEventId (failure_event crossed);
       has_source :=
         match MessageEvent.source (failure_event crossed) with
         | Some _ => true
         | None => false
         end;
       ports_length := length (MessageEvent.ports (failure_event crossed)) |} /\
  (forall any_report expected_origin expected_has_source,
      verify_response_with_message_error
        (DataObject (message_error_report any_report))
        expected_origin expected_has_source = Ok tt <->
      data any_report = js_null /\ last_event_id any_report = EmptyString /\
      ports_length any_report = 0 /\ origin any_report = expected_origin /\
      has_source any_report = expected_has_source) /\
  (forall expected_origin expected_has_source,
      verify_response_with_message_error
        (DataObject (message_error_report report))
        expected_origin expected_has_source = Ok tt <->
      event_origin crossed = expected_origin /\
      match event_source crossed with
      | Some _ => true
      | None => false
      end = expected_has_source).
Proof.
  intros Hboundary Hhandles Hsource Haccepts received run report.
  assert (Hreceived : received = delivery_failed (failure_event crossed)).
  { subst received. unfold transmit. rewrite Hboundary.
    destruct handles as [|h rest]; [now contradiction Hhandles|].
    reflexivity. }
  destruct (messageerror_listener_reports target target_origin
              (failure_event crossed) destination Hsource Haccepts)
    as (Hrun & Hnone & Hone & Hfields & _).
  assert (Hdispatch :
            run = messageerror_listener target target_origin
                    (failure_event crossed)).
  { subst run. now rewrite Hreceived. }
  split; [exact Hreceived|].
  split; [now rewrite Hdispatch|].
  split; [now rewrite Hdispatch|].
  split; [now rewrite Hdispatch|].
  split; [exact Hfields|].
  split.
  - intros any_report expected_origin expected_has_source.
    apply assert_equals_serialized_message_error_event_ok.
  - intros expected_origin expected_has_source.
    unfold verify_response_with_message_error.
    cbn [properties_of bind message_error_report type
         serialized_message_error_event].
    unfold assert_equals at 1. cbn [same_optional_string].
    rewrite String.eqb_refl. cbn [bind].
    rewrite assert_equals_serialized_message_error_event_ok.
    subst report. cbn. intuition.
Qed.

(** The cross-origin port scenario of the driver: a file sent to a port of
    another origin, the port itself as target, and a report that passes the
    verification with the expectations of the driver. *)
Lemma message_error_report_is_verified_witness :
  dispatch_event compare_code_units sample_file_system
    (Some (MessagePort 7)) None
    (transmit sample_cross_origin_hop
       (handles_request
          [sample_file 1 "test-error-file" "test-error-file-contents"]) []) =
    ([PostMessage (MessagePort 7)
        (DataObject
           (message_error_report
              (serialize_message_error_event
                 (failure_event sample_cross_origin_hop))))
        None], Ok tt) /\
  verify_response_with_message_error
    (DataObject
       (message_error_report
          (serialize_message_error_event
             (failure_event sample_cross_origin_hop))))
    EmptyString false = Ok tt.
Proof.
  destruct (message_error_report_is_verified compare_code_units
              sample_file_system sample_cross_origin_hop
              (Some (MessagePort 7)) None
              [sample_file 1 "test-error-file" "test-error-file-contents"]
              [] (MessagePort 7) eq_refl
              ltac:(discriminate) eq_refl eq_refl)
    as (_ & Hrun & _ & _ & _ & _ & Hverify).
  split; [exact Hrun|].
  apply Hverify. split; reflexivity.
Defined.

(** C8 as stated fails: the report needs a destination.  The failure event
    of a port carries no sender reference, and the target of
    [add_message_event_handlers] is optional; with neither, the handle that
    could not cross the boundary produces no report at all: both the [try]
    block and the [catch] block call [postMessage] on [undefined]. *)
Lemma delivery_failure_without_report :
  transmit sample_cross_origin_hop
    (handles_request
       [sample_file 1 "test-error-file" "test-error-file-contents"]) [] =
    delivery_failed (failure_event sample_cross_origin_hop) /\
  dispatch_event compare_code_units sample_file_system None None
    (transmit sample_cross_origin_hop
       (handles_request
          [sample_file 1 "test-error-file" "test-error-file-contents"]) []) =
    ([], Throw undefined_property_access) /\
  replies_of_type "serialized-message-error"
    (fst (dispatch_event compare_code_units sample_file_system None None
            (transmit sample_cross_origin_hop
               (handles_request
                  [sample_file 1 "test-error-file"
                     "test-error-file-contents"]) []))) = [].
Proof. repeat split. Qed.

(** ** Serialized handles that pass the comparison are equal *)

Section Dictionaries.

Variable localeCompare : string -> string -> Z.

Lemma serialize_file_dictionary (handle : FileSystemHandle.t)
    (s : serialized_handle) :
  isDirectory handle = false ->
  serialize_handle localeCompare handle = Ok s ->
  file_dictionary s = true.
Proof.
  intros Hd Hs.
  destruct (serialize_file_result localeCompare handle s Hd Hs) as (_ & ->).
  reflexivity.
Qed.

Lemma serialize_directory_dictionary (handle : FileSystemHandle.t) :
  forall s, isDirectory handle = true ->
            serialize_handle localeCompare handle = Ok s ->
            directory_dictionary s = true.
Proof.
  induction handle
    as [identity text file directory handle_name permission contents
        entries IH] using handle_induction.
  intros s Hd H.
  destruct (serialize_directory_result _ _ _ Hd H) as (cf & cd & Hc & ->).
  simpl in Hc. cbn [directory_dictionary is_directory file_contents files
                    directories].
  apply serialize_entries_appends in Hc as (nf & nd & Hcf & Hcd & Hf & Hdirs).
  simpl in Hcf, Hcd. subst cf cd.
  apply andb_true_intro. split; rewrite forallb_forall; intros c Hin;
    (eapply Permutation_in in Hin;
     [|apply Permutation_sym, Array_sort_permutation]).
  - rewrite Forall_forall in Hf.
    destruct (Hf c Hin) as (child & _ & Hk & Hs).
    eapply serialize_file_dictionary; eauto.
  - rewrite Forall_forall in Hdirs, IH.
    destruct (Hdirs c Hin) as (child & Hchild & Hk & Hs).
    eapply IH; eauto.
Qed.

End Dictionaries.

Lemma file_dictionaries_equal (a b : serialized_handle) :
  file_dictionary a = true -> file_dictionary b = true ->
  assert_equals_serialized_file_system_file_handles a b = Ok tt ->
  a = b.
Proof.
  unfold file_dictionary, assert_equals_serialized_file_system_file_handles.
  intros Ha Hb H. apply bind_ok in H as ([] & Hshared & Hcontents).
  apply assert_equals_serialized_file_system_handles_ok in Hshared
    as (E1 & E2 & E3 & E4 & E5).
  apply assert_equals_ok, same_optional_string_iff in Hcontents.
  destruct a as [f d n r w c fs ds], b as [f' d' n' r' w' c' fs' ds'].
  simpl in *. subst.
  destruct d' as [[]|]; try discriminate.
  destruct c' as [c'|]; try discriminate.
  destruct fs as [fs|]; try discriminate.
  destruct ds as [ds|]; try discriminate.
  destruct fs' as [fs'|]; try discriminate.
  destruct ds' as [ds'|]; try discriminate.
  reflexivity.
Qed.

Lemma Forall2_equal {A : Type} (P : A -> A -> Prop) (l1 l2 : list A) :
  Forall2 P l1 l2 ->
  Forall (fun a => forall b, In b l2 -> P a b -> a = b) l1 ->
  l1 = l2.
Proof.
  induction 1 as [|a b l1 l2 Hab _ IH]; intros Hall.
  - reflexivity.
  - inversion Hall as [|? ? Ha Hrest]; subst.
    f_equal.
    + apply Ha; [now left|exact Hab].
    + apply IH. eapply Forall_impl; [|exact Hrest].
      intros x Hx y Hy. apply Hx. now right.
Qed.

Lemma directory_dictionaries_equal (a : serialized_handle) :
  forall b,
    directory_dictionary a = true -> directory_dictionary b = true ->
    assert_equals_serialized_file_system_directory_handles a b = Ok tt ->
    a = b.
Proof.
  induction a
    as [f d n r w c fs ds _ IH] using serialized_induction.
  intros [f' d' n' r' w' c' fs' ds'].
  cbn [directory_dictionary is_directory file_contents files directories].
  intros Ha Hb.
  destruct d as [[]|]; try discriminate.
  destruct c; try discriminate.
  destruct fs as [lf|]; try discriminate.
  destruct ds as [ld|]; try discriminate.
  destruct d' as [[]|]; try discriminate.
  destruct c'; try discriminate.
  destruct fs' as [rf|]; try discriminate.
  destruct ds' as [rd|]; try discriminate.
  apply andb_prop in Ha as [Hlf Hld]. apply andb_prop in Hb as [Hrf Hrd].
  rewrite forallb_forall in Hlf, Hld, Hrf, Hrd.
  rewrite directory_comparison_refines.
  cbn [directory_comparison_pairwise files directories].
  intros H.
  apply bind_ok in H as ([] & Hshared & H).
  apply bind_ok in H as ([] & Hfiles & H).
  apply bind_ok in Hfiles as ([] & Hflen & Hfiles).
  apply bind_ok in H as ([] & Hdlen & Hdirs).
  apply assert_equals_ok, Nat.eqb_eq in Hflen, Hdlen.
  apply for_each_pair_ok in Hfiles; [|exact Hflen].
  apply for_each_pair_ok in Hdirs; [|exact Hdlen].
  apply assert_equals_serialized_file_system_handles_ok in Hshared
    as (E1 & E2 & E3 & E4 & E5).
  simpl in E1, E2, E3, E4, E5. subst.
  assert (lf = rf) as ->.
  { eapply Forall2_equal; [exact Hfiles|].
    rewrite Forall_forall. intros x Hx y Hy Hxy.
    apply file_dictionaries_equal; auto. }
  assert (ld = rd) as ->.
  { eapply Forall2_equal; [exact Hdirs|].
    simpl in IH. rewrite Forall_forall in IH |- *.
    intros x Hx y Hy Hxy.
    apply IH; auto.
    now rewrite directory_comparison_refines. }
  reflexivity.
Qed.

(** Two dictionaries the serializer returned pass the comparison exactly when
    they are equal. *)
Lemma serialized_handles_pass_iff_equal
    (localeCompare : string -> string -> Z)
    (left_handle right_handle : FileSystemHandle.t)
    (left right : serialized_handle) :
  serialize_handle localeCompare left_handle = Ok left ->
  serialize_handle localeCompare right_handle = Ok right ->
  (assert_equals_serialized_handles left right = Ok tt <-> left = right).
Proof.
  intros Hl Hr. split.
  - unfold assert_equals_serialized_handles.
    destruct (isDirectory left_handle) eqn:Hdl.
    + pose proof (serialize_directory_dictionary _ _ _ Hdl Hl) as Dl.
      destruct (serialize_directory_result _ _ _ Hdl Hl) as (cf & cd & _ & El).
      replace (truthy (is_directory left)) with true by (rewrite El; reflexivity).
      intros H.
      assert (Hdr : isDirectory right_handle = true).
      { destruct (isDirectory right_handle) eqn:Hdr; [reflexivity|].
        destruct (serialize_file_result _ _ _ Hdr Hr) as (_ & Er).
        rewrite directory_comparison_refines in H.
        destruct left, right; cbn in H.
        apply bind_ok in H as ([] & Hshared & _).
        apply assert_equals_serialized_file_system_handles_ok in Hshared
          as (_ & E2 & _).
        simpl in E2. injection El as _ -> _ _ _ _ _ _.
        injection Er as _ -> _ _ _ _ _ _. discriminate E2. }
      pose proof (serialize_directory_dictionary _ _ _ Hdr Hr) as Dr.
      now apply directory_dictionaries_equal.
    + pose proof (serialize_file_dictionary _ _ _ Hdl Hl) as Dl.
      destruct (serialize_file_result _ _ _ Hdl Hl) as (_ & El).
      replace (truthy (is_directory left)) with false
        by (rewrite El; reflexivity).
      replace (truthy (is_file left)) with true by (rewrite El; reflexivity).
      intros H.
      assert (Hdr : isDirectory right_handle = false).
      { destruct (isDirectory right_handle) eqn:Hdr; [|reflexivity].
        destruct (serialize_directory_result _ _ _ Hdr Hr)
          as (cf & cd & _ & Er).
        unfold assert_equals_serialized_file_system_file_handles in H.
        apply bind_ok in H as ([] & Hshared & _).
        apply assert_equals_serialized_file_system_handles_ok in Hshared
          as (_ & E2 & _).
        rewrite El, Er in E2. discriminate E2. }
      pose proof (serialize_file_dictionary _ _ _ Hdr Hr) as Dr.
      now apply file_dictionaries_equal.
  - intros <-. eapply serialize_handle_result_equals_itself. exact Hl.
Qed.

(** ** Properties of the driver's verification *)

Lemma skipn_nth_error {A : Type} (l : list A) (i : nat) (x : A) :
  nth_error l i = Some x -> skipn i l = x :: skipn (S i) l.
Proof.
  revert i. induction l as [|y rest IH]; intros [|i] H; try discriminate.
  - injection H as ->. reflexivity.
  - simpl in H. apply IH in H. exact H.
Qed.

Section DriverFacts.

Variable localeCompare : string -> string -> Z.

Lemma verify_response_handle_ok (response_handle : response_handle)
    (expected_handle : FileSystemHandle.t) :
  verify_response_handle localeCompare (Some response_handle)
    expected_handle = Ok tt <->
  clone_verified localeCompare response_handle expected_handle.
Proof.
  unfold verify_response_handle, clone_verified, assert_not_equals,
    same_object.
  split.
  - intros H.
    destruct (Nat.eqb_spec
                (FileSystemHandle.object_identity (handle response_handle))
                (FileSystemHandle.object_identity expected_handle))
      as [E|N]; [discriminate|].
    cbn [bind] in H.
    apply bind_ok in H as (cloned & Hc & H).
    apply bind_ok in H as (expected & He & H).
    apply bind_ok in H as ([] & Hsame & Hremote).
    apply (serialized_handles_pass_iff_equal localeCompare _ _ _ _ Hc He)
      in Hsame.
    subst cloned. split; [exact N|]. exists expected. auto.
  - intros (N & snapshot & He & Hc & Hremote).
    apply Nat.eqb_neq in N. rewrite N. cbn [bind].
    rewrite Hc, He. cbn [bind].
    rewrite (serialize_handle_result_equals_itself _ _ _ He). cbn [bind].
    exact Hremote.
Qed.

Lemma verify_response_handles_from_ok
    (response_handles : list response_handle)
    (remaining : list FileSystemHandle.t) :
  forall i,
    length (skipn i response_handles) = length remaining ->
    (verify_response_handles_from localeCompare i response_handles remaining
       = Ok tt <->
     Forall2 (clone_verified localeCompare)
       (skipn i response_handles) remaining).
Proof.
  induction remaining as [|expected rest IH]; intros i Hlen;
    cbn [verify_response_handles_from].
  - apply length_zero_iff_nil in Hlen. rewrite Hlen.
    split; [constructor|reflexivity].
  - destruct (nth_error response_handles i) as [entry|] eqn:Hn.
    + rewrite (skipn_nth_error _ _ _ Hn) in Hlen |- *.
      injection Hlen as Hlen. specialize (IH (S i) Hlen).
      rewrite bind_ok. split.
      * intros ([] & Hentry & Hrest).
        constructor; [now apply verify_response_handle_ok|now apply IH].
      * inversion 1; subst. exists tt.
        split; [now apply verify_response_handle_ok|now apply IH].
    + apply nth_error_None in Hn.
      rewrite skipn_all2 in Hlen by exact Hn. discriminate Hlen.
Qed.

End DriverFacts.

(** A reply whose elements are verified clones of the handles sent is
    accepted. *)
Lemma verify_response_with_file_system_handles_accepts
    (localeCompare : string -> string -> Z) (message : envelope)
    (response_handles : list response_handle)
    (expected_handles : list FileSystemHandle.t) :
  type message = Some "receive-serialized-file-system-handles" ->
  serialized_file_system_handles message = Some response_handles ->
  Forall2 (clone_verified localeCompare) response_handles expected_handles ->
  verify_response_with_file_system_handles localeCompare (DataObject message)
    expected_handles = Ok tt.
Proof.
  intros Htype He Hall. unfold verify_response_with_file_system_handles.
  cbn [properties_of bind]. rewrite Htype, He.
  unfold assert_equals at 1. cbn [same_optional_string].
  rewrite String.eqb_refl. cbn [bind].
  unfold assert_equals.
  rewrite (Forall2_length Hall), Nat.eqb_refl. cbn [bind].
  apply verify_response_handles_from_ok.
  - exact (Forall2_length Hall).
  - exact Hall.
Qed.

(** The replies the driver's verification accepts: it returns normally
    exactly when the reply is a [receive-serialized-file-system-handles]
    message with one element per handle sent and, for every handle of the
    batch, the handle returned at its index is an object other than the one
    sent, serializes to the same dictionary as the one sent, and the
    dictionary computed remotely passes the comparison with the dictionary
    of the one sent. *)
Lemma verification_accepts_verified_clones
    (localeCompare : string -> string -> Z) (response : message_data)
    (expected_handles : list FileSystemHandle.t) :
  verify_response_with_file_system_handles localeCompare response
    expected_handles = Ok tt <->
  exists message response_handles,
    response = DataObject message /\
    type message = Some "receive-serialized-file-system-handles" /\
    serialized_file_system_handles message = Some response_handles /\
    Forall2 (clone_verified localeCompare) response_handles expected_handles.
Proof.
  split.
  - unfold verify_response_with_file_system_handles. intros H.
    apply bind_ok in H as (message & Hm & H).
    apply bind_ok in H as ([] & Htype & H).
    apply assert_equals_ok, same_optional_string_iff in Htype.
    destruct response as [|text|object]; simpl in Hm; try discriminate.
    + injection Hm as <-. discriminate Htype.
    + injection Hm as <-.
      destruct (serialized_file_system_handles object) as [entries|] eqn:He;
        [|discriminate].
      apply bind_ok in H as ([] & Hlen & H).
      apply assert_equals_ok, Nat.eqb_eq in Hlen.
      apply verify_response_handles_from_ok in H; [|exact Hlen].
      exists object, entries. auto.
  - intros (message & entries & -> & Htype & He & Hall).
    now apply verify_response_with_file_system_handles_accepts
      with (response_handles := entries).
Qed.

(** ** The round trip of a batch *)

Section RoundTrip.

Variable localeCompare : string -> string -> Z.
Variable file_system : FileSystem.
Variable clone : FileSystemHandle.t -> FileSystemHandle.t.

(** A clone names the same entry of the file system as its original. *)
Hypothesis clone_serializes_alike :
  forall handle,
    serialize_handle localeCompare (clone handle) =
    serialize_handle localeCompare handle.

(** The clone that comes back is an object the sender did not have. *)
Hypothesis returned_clone_is_new :
  forall handle,
    FileSystemHandle.object_identity (clone (clone handle)) <>
    FileSystemHandle.object_identity handle.

Lemma serialize_received_handles_pairs (handles : list FileSystemHandle.t) :
  forallb serializable handles = true ->
  forall collected,
  exists entries,
    serialize_received_handles localeCompare handles collected =
      Ok (collected ++ entries) /\
    Forall2 (fun received entry =>
               handle entry = received /\
               serialize_handle localeCompare received =
                 Ok (serialized entry))
            handles entries.
Proof.
  induction handles as [|h rest IH]; simpl; intros Hall collected.
  - exists []. rewrite app_nil_r. split; [reflexivity|constructor].
  - apply andb_prop in Hall as [Hh Hrest].
    destruct (serialize_handle_total localeCompare h Hh) as (s & Hs).
    rewrite Hs. cbn [bind].
    destruct (IH Hrest (collected ++ [{| handle := h; serialized := s |}]))
      as (entries & Hrun & Hpairs).
    exists ({| handle := h; serialized := s |} :: entries).
    rewrite Hrun, <- app_assoc. split; [reflexivity|].
    constructor; [split; [reflexivity|exact Hs]|exact Hpairs].
Qed.

(** A batch of handles sent to a message target comes back in a reply that
    the driver's verification accepts. *)
Theorem batch_round_trip (batch : list FileSystemHandle.t)
    (target : option Endpoint) (target_origin : option string)
    (event_origin event_id : string) (event_source : option Endpoint)
    (event_ports : list Endpoint) (destination : Endpoint)
    (driver_target : Endpoint) (driver_origin : option string) :
  forallb serializable batch = true ->
  forall sent,
    fst (send_file_system_handles batch (Some driver_target) driver_origin) =
      [PostMessage driver_target sent driver_origin] ->
    let message_event :=
      MessageEvent.Build (deliver clone sent) event_origin event_id
        event_source event_ports in
    resolve_message_source message_event target = Some destination ->
    accepts_target_origin destination target_origin = true ->
    exists reply,
      message_listener localeCompare file_system target target_origin
        message_event = ([PostMessage destination reply target_origin], Ok tt) /\
      verify_response_with_file_system_handles localeCompare
        (deliver clone reply) batch = Ok tt.
Proof.
  intros Hall sent Hsent message_event Hsource Haccepts.
  unfold send_file_system_handles, postMessage in Hsent.
  destruct (accepts_target_origin driver_target driver_origin);
    [|discriminate Hsent].
  injection Hsent as <-.
  assert (Hbatch : forallb serializable (map clone batch) = true).
  { rewrite forallb_forall in Hall |- *. intros c Hin.
    apply in_map_iff in Hin as (h & <- & Hin).
    destruct (serialize_handle_total localeCompare h (Hall h Hin))
      as (s & Hs).
    eapply serialize_handle_ok_serializable.
    rewrite clone_serializes_alike. exact Hs. }
  destruct (serialize_received_handles_pairs (map clone batch) Hbatch [])
    as (entries & Hrun & Hpairs).
  simpl in Hrun.
  eexists. split.
  - unfold message_listener. rewrite Hsource. subst message_event.
    cbn [MessageEvent.data deliver].
    unfold message_switch, and_then at 1.
    cbn [lift properties_of fst snd type_is type String.eqb Ascii.eqb
         Bool.eqb file_system_handles option_map app].
    rewrite Hrun. unfold and_then, postMessage, try_catch. cbn [lift snd fst].
    rewrite Haccepts. reflexivity.
  - cbn [deliver].
    eapply verify_response_with_file_system_handles_accepts;
      [reflexivity|reflexivity|].
    clear Hrun Hbatch Hall Hsource message_event.
    revert entries Hpairs.
    induction batch as [|h rest IH]; intros entries Hpairs;
      inversion Hpairs as [|c e cs es [Hc Hs] Hrest]; subst; simpl.
    + constructor.
    + constructor; [|apply IH; exact Hrest].
      split; [simpl; rewrite Hc; apply returned_clone_is_new|].
      exists (serialized e). simpl.
      rewrite clone_serializes_alike in Hs.
      rewrite Hc, !clone_serializes_alike.
      repeat split; try exact Hs.
      eapply serialize_handle_result_equals_itself. exact Hs.
Qed.

End RoundTrip.

Lemma clone_as_new_object_serializes_alike
    (localeCompare : string -> string -> Z) (handle : FileSystemHandle.t) :
  serialize_handle localeCompare (clone_as_new_object handle) =
  serialize_handle localeCompare handle.
Proof. destruct handle; reflexivity. Qed.

Lemma clone_as_new_object_returns_new (handle : FileSystemHandle.t) :
  FileSystemHandle.object_identity
    (clone_as_new_object (clone_as_new_object handle)) <>
  FileSystemHandle.object_identity handle.
Proof. destruct handle; simpl; lia. Qed.

(** The driver's batch, sent through a port and back, is accepted. *)
Example sample_batch_round_trip :
  exists reply,
    message_listener compare_code_units sample_file_system
      (Some (MessagePort 7)) None
      (sample_port_event
         (deliver clone_as_new_object
            (DataObject
               {| type := Some "receive-file-system-handles";
                  message_port := None;
                  broadcast_channel_name := None;
                  file_system_handles := Some sample_batch;
                  serialized_file_system_handles := None;
                  file_handle := None;
                  directory_handle := None;
                  serialized_message_error_event := None |}))) =
      ([PostMessage (MessagePort 7) reply None], Ok tt) /\
    verify_response_with_file_system_handles compare_code_units
      (deliver clone_as_new_object reply) sample_batch = Ok tt.
Proof.
  apply (batch_round_trip compare_code_units sample_file_system
           clone_as_new_object
           (clone_as_new_object_serializes_alike compare_code_units)
           clone_as_new_object_returns_new
           sample_batch (Some (MessagePort 7)) None EmptyString EmptyString None []
           (MessagePort 7) (MessagePort 8) None);
    reflexivity.
Qed.

(** ** When no reply can be posted *)

(** The properties of the replies are stated for a destination that
    resolves to an endpoint, which the design notes require by construction,
    and that accepts the target origin, which the script's header comment
    asks of its callers.  Outside that case, an event without a sender
    reference handled by listeners registered without a target leaves
    nothing to post to: the reply of the [catch] block throws in its turn
    and the invocation ends with that error. *)
Lemma message_listener_without_destination
    (localeCompare : string -> string -> Z) (file_system : FileSystem)
    (target_origin : option string)
    (message_event : MessageEvent.t message_data) (message : envelope) :
  MessageEvent.data message_event = DataObject message ->
  recognized message = false ->
  resolve_message_source message_event None = None ->
  message_listener localeCompare file_system None target_origin message_event =
  ([], Throw undefined_property_access).
Proof.
  intros Hdata Hunknown Hsource. unfold message_listener.
  rewrite Hdata, Hsource, message_switch_unknown_type by exact Hunknown.
  reflexivity.
Qed.

(** A port given a target origin refuses every reply, the one of the [catch]
    block included. *)
Lemma message_listener_refused_target_origin
    (localeCompare : string -> string -> Z) (file_system : FileSystem)
    (target : option Endpoint) (origin : string)
    (message_event : MessageEvent.t message_data) (message : envelope)
    (id : nat) :
  MessageEvent.data message_event = DataObject message ->
  recognized message = false ->
  resolve_message_source message_event target = Some (MessagePort id) ->
  message_listener localeCompare file_system target (Some origin)
    message_event =
  ([], Throw (TypeError "The provided value cannot be converted")).
Proof.
  intros Hdata Hunknown Hsource. unfold message_listener.
  rewrite Hdata, Hsource, message_switch_unknown_type by exact Hunknown.
  reflexivity.
Qed.

(** ** Every registration of the repository supplies a target *)

Lemma registrations_app (t1 t2 : list effect) :
  registrations (t1 ++ t2) = registrations t1 ++ registrations t2.
Proof. apply filter_app. Qed.

Lemma registered_and_then {A B : Type} (a : action A) (k : A -> action B) :
  registered_with_target (fst a) ->
  (forall value, registered_with_target (fst (k value))) ->
  registered_with_target (fst (and_then a k)).
Proof.
  intros Ha Hk. unfold and_then. destruct (snd a) as [value|error]; simpl.
  - unfold registered_with_target. rewrite registrations_app.
    apply Forall_app. split; [exact Ha|apply Hk].
  - exact Ha.
Qed.

Lemma registered_postMessage (destination : option Endpoint)
    (message : message_data) (target_origin : option string) :
  registered_with_target (fst (postMessage destination message target_origin)).
Proof.
  unfold postMessage.
  destruct destination as [endpoint|];
    [destruct (accepts_target_origin endpoint target_origin)|]; constructor.
Qed.

Lemma registered_start (port : option Endpoint) :
  registered_with_target (fst (start port)).
Proof. destruct port as [[]|]; constructor. Qed.

Lemma registered_same_target (receiver : option Endpoint) :
  registered_with_target
    (fst (add_message_event_handlers receiver receiver None)).
Proof.
  destruct receiver as [endpoint|]; simpl.
  - constructor; [split; reflexivity|constructor].
  - constructor.
Qed.

(** The registrations the router makes for a received port or a new
    broadcast channel, and the one the shared worker makes on connection,
    all pass the receiver as target and no target origin. *)
Lemma repository_registrations_supply_target
    (localeCompare : string -> string -> Z) (file_system : FileSystem)
    (target : option Endpoint) (target_origin : option string)
    (message_event : MessageEvent.t message_data) (ports : list Endpoint) :
  registered_with_target
    (fst (message_listener localeCompare file_system target target_origin
            message_event)) /\
  registered_with_target (fst (connect_listener ports)).
Proof.
  split.
  - unfold message_listener, try_catch.
    assert (Hswitch : forall message_source,
               registered_with_target
                 (fst (message_switch localeCompare file_system message_source
                         target_origin (MessageEvent.data message_event)))).
    { intros message_source. unfold message_switch.
      apply registered_and_then; [constructor|]. intros message.
      repeat match goal with
             | |- context [if ?c then _ else _] => destruct c
             | |- context [match file_system_handles ?m with _ => _ end] =>
                 destruct (file_system_handles m)
             | |- registered_with_target (fst (and_then _ _)) =>
                 apply registered_and_then; [|intros ?]
             | |- registered_with_target (fst (postMessage _ _ _)) =>
                 apply registered_postMessage
             | |- registered_with_target
                    (fst (add_message_event_handlers _ _ _)) =>
                 apply registered_same_target
             | |- registered_with_target (fst (start _)) =>
                 apply registered_start
             | |- registered_with_target (fst (lift _)) => constructor
             | |- registered_with_target (fst (perform _)) => constructor
             | |- registered_with_target (fst (ret _)) => constructor
             end. }
    specialize (Hswitch (resolve_message_source message_event target)).
    destruct (snd (message_switch _ _ _ _ _)); simpl; [exact Hswitch|].
    unfold registered_with_target. rewrite registrations_app.
    apply Forall_app. split; [exact Hswitch|].
    apply registered_postMessage.
  - unfold connect_listener.
    apply registered_and_then; [apply registered_same_target|].
    intros _. apply registered_start.
Qed.

(** Listeners registered that way always have a destination to reply to,
    and it accepts the reply. *)
Lemma target_resolves_destination {D : Type}
    (message_event : MessageEvent.t D) (target : Endpoint) :
  exists destination,
    resolve_message_source message_event (Some target) = Some destination /\
    accepts_target_origin destination None = true.
Proof.
  unfold resolve_message_source.
  destruct (MessageEvent.source message_event) as [message_source|];
    eexists; (split; [reflexivity|]).
  - destruct message_source; reflexivity.
  - destruct target; reflexivity.
Qed.

(** ** Further properties of the serializer *)

(** The loop of the directory serializer collects the dictionaries of the
    children of each kind, in enumeration order. *)
Lemma serialize_entries_serialized_as (localeCompare : string -> string -> Z)
    (entries : list FileSystemHandle.t) :
  forall files0 directories0 files1 directories1,
    serialize_entries (serialize_handle localeCompare) entries
      files0 directories0 = Ok (files1, directories1) ->
    exists new_files new_directories,
      files1 = files0 ++ new_files /\
      directories1 = directories0 ++ new_directories /\
      serialized_as localeCompare (file_entries entries) new_files /\
      serialized_as localeCompare (directory_entries entries) new_directories.
Proof.
  unfold serialized_as, file_entries, directory_entries.
  induction entries as [|child rest IH]; simpl; intros f0 d0 f1 d1 H.
  - injection H as <- <-. exists [], [].
    rewrite !app_nil_r. repeat split; constructor.
  - destruct (serialize_handle localeCompare child) as [s|e] eqn:Hs;
      simpl in H; [|discriminate].
    destruct (isDirectory child) eqn:Hd; simpl;
      apply IH in H as (nf & nd & -> & -> & Hf & Hdirs).
    + exists nf, (s :: nd). rewrite <- app_assoc.
      repeat split; auto.
    + exists (s :: nf), nd. rewrite <- app_assoc.
      repeat split; auto.
Qed.

(** The dictionaries of a list of handles are determined by the handles. *)
Lemma serialized_as_functional (localeCompare : string -> string -> Z)
    (handles : list FileSystemHandle.t) :
  forall snapshots snapshots',
    serialized_as localeCompare handles snapshots ->
    serialized_as localeCompare handles snapshots' ->
    snapshots = snapshots'.
Proof.
  unfold serialized_as.
  induction handles as [|h rest IH]; intros s1 s2 H1 H2;
    inversion H1; inversion H2; subst.
  - reflexivity.
  - f_equal; [congruence|]. now apply IH.
Qed.

(** Whatever makes [serialize_handle] fail is the string it throws for an
    object it reached that is neither kind of handle. *)
Lemma serialize_handle_error (localeCompare : string -> string -> Z)
    (handle : FileSystemHandle.t) :
  forall error,
    serialize_handle localeCompare handle = Throw error ->
    exists object,
      In object (reachable handle) /\
      isFile object = false /\ isDirectory object = false /\
      error =
        ThrownString (not_a_handle_message (FileSystemHandle.toString object)).
Proof.
  induction handle
    as [identity text file directory handle_name permission contents
        entries IH] using handle_induction.
  intros error. simpl. destruct directory.
  - unfold serialize_directory_body. simpl.
    assert (Hloop : forall f0 d0 e,
               serialize_entries (serialize_handle localeCompare) entries f0 d0
                 = Throw e ->
               exists object,
                 In object (flat_map reachable entries) /\
                 isFile object = false /\ isDirectory object = false /\
                 e = ThrownString
                       (not_a_handle_message
                          (FileSystemHandle.toString object))).
    { clear error. induction IH as [|child rest Hchild _ IHrest];
        simpl; intros f0 d0 e H.
      - discriminate.
      - destruct (serialize_handle localeCompare child) as [s|e'] eqn:Hs;
          simpl in H.
        + assert (Hrest :
                    exists object,
                      In object (flat_map reachable rest) /\
                      isFile object = false /\ isDirectory object = false /\
                      e = ThrownString
                            (not_a_handle_message
                               (FileSystemHandle.toString object)))
            by (destruct (isDirectory child); eapply IHrest; exact H).
          destruct Hrest as (object & Hin & Hobject).
          exists object. split; [|exact Hobject].
          apply in_or_app. now right.
        + injection H as <-.
          destruct (Hchild _ eq_refl) as (object & Hin & Hobject).
          exists object. split; [|exact Hobject].
          apply in_or_app. now left. }
    destruct (serialize_entries (serialize_handle localeCompare) entries [] [])
      as [children|e] eqn:Hc; simpl; [discriminate|].
    intros [= <-]. destruct (Hloop _ _ _ Hc) as (object & Hin & Hobject).
    exists object. split; [now right|exact Hobject].
  - destruct file; simpl; [discriminate|].
    intros [= <-]. eexists. split; [left; reflexivity|]. auto.
Qed.

(** A tree holds only files and directories when every object reachable in
    it is one or the other. *)
Lemma serializable_reachable (handle : FileSystemHandle.t) :
  serializable handle = true ->
  forall object,
    In object (reachable handle) ->
    isFile object = true \/ isDirectory object = true.
Proof.
  induction handle
    as [identity text file directory handle_name permission contents
        entries IH] using handle_induction.
  simpl. destruct directory.
  - intros Hall object [<-|Hin]; [now right|].
    apply in_flat_map in Hin as (child & Hchild & Hin).
    rewrite Forall_forall in IH. rewrite forallb_forall in Hall.
    exact (IH child Hchild (Hall child Hchild) object Hin).
  - intros -> object [<-|[]]. now left.
Qed.

(** X1: [serialize_handle] returns a dictionary only when every object it
    can reach from the handle is a file handle or a directory handle; and
    when it throws a string, the string is the message of the script about
    an object it reached that is neither, ending with that object's text. *)
Theorem serialize_handle_blames_a_non_handle
    (localeCompare : string -> string -> Z) (handle : FileSystemHandle.t) :
  (forall s,
      serialize_handle localeCompare handle = Ok s ->
      forall object,
        In object (reachable handle) ->
        isFile object = true \/ isDirectory object = true) /\
  (forall text,
      serialize_handle localeCompare handle = Throw (ThrownString text) ->
      exists object,
        In object (reachable handle) /\
        isFile object = false /\ isDirectory object = false /\
        text =
          ("Object is not a FileSystemFileHandle or FileSystemDirectoryHandle "
           ++ FileSystemHandle.toString object)%string).
Proof.
  split.
  - intros s Hs. apply serializable_reachable.
    eapply serialize_handle_ok_serializable. exact Hs.
  - intros text Hthrow.
    destruct (serialize_handle_error _ _ _ Hthrow)
      as (object & Hin & Hfile & Hdirectory & Herror).
    exists object. injection Herror as ->. auto.
Qed.

(** X2: the dictionary of a handle copies the handle's two kind flags, its
    name and its two permission states; the dictionary of a file carries the
    file's contents and no child arrays; the dictionary of a directory
    carries no contents, and at every depth its [files] hold file
    dictionaries and its [directories] hold directory dictionaries. *)
Theorem serialized_handle_mirrors_handle
    (localeCompare : string -> string -> Z) (handle : FileSystemHandle.t)
    (s : serialized_handle) :
  serialize_handle localeCompare handle = Ok s ->
  is_file s = Some (isFile handle) /\
  is_directory s = Some (isDirectory handle) /\
  name s = FileSystemHandle.name handle /\
  read_permission s = queryPermission handle false /\
  write_permission s = queryPermission handle true /\
  (if isDirectory handle
   then file_contents s = None /\ directory_dictionary s = true
   else file_contents s = Some (getFileContents handle) /\
        file_dictionary s = true).
Proof.
  intros Hs. destruct (isDirectory handle) eqn:Hd.
  - pose proof (serialize_directory_dictionary _ _ _ Hd Hs) as Hshape.
    destruct (serialize_directory_result _ _ _ Hd Hs) as (cf & cd & _ & E).
    rewrite E in Hshape |- *. simpl. repeat split. exact Hshape.
  - destruct (serialize_file_result _ _ _ Hd Hs) as (Hf & E).
    rewrite E. simpl. rewrite Hf. repeat split.
Qed.

Lemma serialized_handle_mirrors_handle_witness :
  exists s,
    serialize_handle compare_code_units
      (sample_file 3 "second-file-with-contents" "second-text-content") =
      Ok s /\
    name s = "second-file-with-contents" /\
    file_contents s = Some "second-text-content".
Proof.
  eexists. split; [reflexivity|].
  destruct (serialized_handle_mirrors_handle compare_code_units
              (sample_file 3 "second-file-with-contents" "second-text-content")
              _ eq_refl) as (_ & _ & Hname & _ & _ & Hcontents & _).
  split; [exact Hname|exact Hcontents].
Defined.

(** X3: sorting loses and adds nothing: the [files] of a directory's
    dictionary are, up to order, the dictionaries of its children that are
    not directories, and its [directories] are, up to order, the dictionaries
    of its children that are. *)
Theorem serialized_children_are_the_entries
    (localeCompare : string -> string -> Z) (D : FileSystemHandle.t)
    (s : serialized_handle) :
  isDirectory D = true ->
  serialize_handle localeCompare D = Ok s ->
  exists file_snapshots directory_snapshots child_files child_directories,
    files s = Some child_files /\
    directories s = Some child_directories /\
    serialized_as localeCompare (file_entries (getEntries D)) file_snapshots /\
    Permutation file_snapshots child_files /\
    serialized_as localeCompare (directory_entries (getEntries D))
      directory_snapshots /\
    Permutation directory_snapshots child_directories.
Proof.
  intros Hd Hs.
  destruct (serialize_directory_result _ _ _ Hd Hs) as (cf & cd & Hc & ->).
  apply serialize_entries_serialized_as in Hc
    as (nf & nd & Hcf & Hcd & Hf & Hdirs).
  simpl in Hcf, Hcd. subst cf cd.
  exists nf, nd. do 2 eexists.
  split; [reflexivity|]. split; [reflexivity|].
  split; [exact Hf|]. split; [apply Array_sort_permutation|].
  split; [exact Hdirs|apply Array_sort_permutation].
Qed.

Lemma serialized_children_are_the_entries_witness :
  exists file_snapshots child_files,
    serialized_as compare_code_units
      [sample_file 2 "b" "second"; sample_file 3 "a" "first"] file_snapshots /\
    Permutation file_snapshots child_files /\
    map name child_files = ["a"; "b"].
Proof.
  destruct (serialized_children_are_the_entries compare_code_units
              (sample_directory 1 "d"
                 [sample_file 2 "b" "second"; sample_file 3 "a" "first"])
              _ eq_refl eq_refl)
    as (fs & ds & cf & cd & Hcf & _ & Hfs & Hperm & _).
  injection Hcf as <-.
  exists fs. eexists. split; [exact Hfs|]. split; [exact Hperm|reflexivity].
Defined.

Lemma serialize_handle_name (localeCompare : string -> string -> Z)
    (handle : FileSystemHandle.t) (s : serialized_handle) :
  serialize_handle localeCompare handle = Ok s ->
  name s = FileSystemHandle.name handle.
Proof.
  intros Hs. destruct (isDirectory handle) eqn:Hd.
  - destruct (serialize_directory_result _ _ _ Hd Hs) as (cf & cd & _ & ->).
    reflexivity.
  - destruct (serialize_file_result _ _ _ Hd Hs) as (_ & ->). reflexivity.
Qed.

Lemma serialized_as_names (localeCompare : string -> string -> Z)
    (handles : list FileSystemHandle.t) (snapshots : list serialized_handle) :
  serialized_as localeCompare handles snapshots ->
  map name snapshots = map FileSystemHandle.name handles.
Proof.
  induction 1 as [|h s hs ss Hs _ IH]; simpl.
  - reflexivity.
  - now rewrite IH, (serialize_handle_name _ _ _ Hs).
Qed.

Lemma filter_permutation {A : Type} (keep : A -> bool) (l l' : list A) :
  Permutation l l' -> Permutation (filter keep l) (filter keep l').
Proof.
  induction 1 as [|x l l' _ IH|x y l|l l' l'' _ IH1 _ IH2]; simpl.
  - constructor.
  - destruct (keep x); [now constructor|exact IH].
  - destruct (keep x), (keep y); try apply Permutation_refl. apply perm_swap.
  - eapply perm_trans; eassumption.
Qed.

Lemma NoDup_map_filter {A B : Type} (f : A -> B) (keep : A -> bool)
    (l : list A) :
  NoDup (map f l) -> NoDup (map f (filter keep l)).
Proof.
  induction l as [|x rest IH]; simpl; intros H.
  - constructor.
  - inversion H as [|? ? Hnotin Hrest]; subst.
    destruct (keep x); simpl; [|now apply IH].
    constructor; [|now apply IH].
    intros Hin. apply Hnotin.
    apply in_map_iff in Hin as (y & Hy & Hin).
    apply filter_In in Hin as [Hin _].
    apply in_map_iff. now exists y.
Qed.

Lemma NoDup_map_injective {A B : Type} (f : A -> B) (l : list A) :
  NoDup (map f l) ->
  forall x y, In x l -> In y l -> f x = f y -> x = y.
Proof.
  induction l as [|a rest IH]; simpl; intros H x y Hx Hy E.
  - contradiction.
  - inversion H as [|? ? Hnotin Hrest]; subst.
    destruct Hx as [<-|Hx], Hy as [<-|Hy].
    + reflexivity.
    + exfalso. apply Hnotin. rewrite E. now apply in_map.
    + exfalso. apply Hnotin. rewrite <- E. now apply in_map.
    + now apply IH.
Qed.

(** Two sorted arrangements of the same elements coincide when no two
    different elements are each not after the other. *)
Lemma sorted_arrangement_unique {A : Type} (not_after : A -> A -> Prop)
    (l1 : list A) :
  forall l2,
    StronglySorted not_after l1 -> StronglySorted not_after l2 ->
    Permutation l1 l2 ->
    (forall x y, In x l1 -> In y l1 ->
                 not_after x y -> not_after y x -> x = y) ->
    l1 = l2.
Proof.
  induction l1 as [|a rest IH]; intros l2 S1 S2 Hperm Hanti.
  - apply Permutation_nil in Hperm. now subst.
  - destruct l2 as [|b rest2].
    + apply Permutation_sym, Permutation_nil in Hperm. discriminate.
    + apply StronglySorted_inv in S1 as [S1 Ha].
      apply StronglySorted_inv in S2 as [S2 Hb].
      rewrite Forall_forall in Ha, Hb.
      assert (Hbin : In b (a :: rest))
        by (eapply Permutation_in;
            [apply Permutation_sym; exact Hperm|now left]).
      assert (Hain : In a (b :: rest2))
        by (eapply Permutation_in; [exact Hperm|now left]).
      assert (a = b) as <-.
      { destruct Hbin as [E|Hbin]; [exact E|].
        destruct Hain as [E|Hain]; [now symmetry|].
        apply Hanti; [now left|now right|now apply Ha|now apply Hb]. }
      f_equal. apply Permutation_cons_inv in Hperm.
      apply IH; auto.
      intros x y Hx Hy. apply Hanti; now right.
Qed.

Lemma serialized_as_permutation (localeCompare : string -> string -> Z)
    (handles handles' : list FileSystemHandle.t)
    (snapshots snapshots' : list serialized_handle) :
  Permutation handles handles' ->
  serialized_as localeCompare handles snapshots ->
  serialized_as localeCompare handles' snapshots' ->
  Permutation snapshots snapshots'.
Proof.
  intros Hperm H1 H2.
  destruct (Permutation_Forall2 Hperm H1) as (moved & Hmoved & H1').
  now rewrite (serialized_as_functional _ _ _ _ H2 H1').
Qed.

(** Sorting the dictionaries of two enumerations of the same uniquely named
    children gives the same array. *)
Lemma sorted_snapshots_unique (localeCompare : string -> string -> Z)
    (handles handles' : list FileSystemHandle.t)
    (snapshots snapshots' : list serialized_handle) :
  consistent_comparator localeCompare -> separates_names localeCompare ->
  NoDup (map FileSystemHandle.name handles) ->
  Permutation handles handles' ->
  serialized_as localeCompare handles snapshots ->
  serialized_as localeCompare handles' snapshots' ->
  Array_sort (compare_names localeCompare) snapshots =
  Array_sort (compare_names localeCompare) snapshots'.
Proof.
  intros [swap transitive] separates Hnames Hperm H1 H2.
  pose proof (serialized_as_permutation _ _ _ _ _ Hperm H1 H2) as Hsnap.
  apply sorted_arrangement_unique
    with (not_after := fun x y => (compare_names localeCompare x y <= 0)%Z).
  - apply Array_sort_sorted; unfold compare_names; auto.
    intros x y z. apply transitive.
  - apply Array_sort_sorted; unfold compare_names; auto.
    intros x y z. apply transitive.
  - eapply perm_trans;
      [apply Permutation_sym, Array_sort_permutation|].
    eapply perm_trans; [exact Hsnap|apply Array_sort_permutation].
  - intros x y Hx Hy Hxy Hyx. unfold compare_names in Hxy, Hyx.
    assert (Hzero : localeCompare (name x) (name y) = 0%Z).
    { destruct (Z.eq_dec (localeCompare (name x) (name y)) 0) as [E|N];
        [exact E|].
      assert (Hlt : (localeCompare (name x) (name y) < 0)%Z) by lia.
      apply swap in Hlt. lia. }
    apply separates in Hzero.
    eapply Permutation_in in Hx;
      [|apply Permutation_sym, Array_sort_permutation].
    eapply Permutation_in in Hy;
      [|apply Permutation_sym, Array_sort_permutation].
    apply (NoDup_map_injective name snapshots); auto.
    rewrite (serialized_as_names _ _ _ H1). exact Hnames.
Qed.

Lemma compare_code_units_separates : separates_names compare_code_units.
Proof.
  intros x y H. now apply (compare_code_units_sign x y).
Qed.

(** X4: the dictionary of a directory does not depend on the order in which
    its children are enumerated, when the children have different names
    that the collation tells apart. *)
Theorem serialization_ignores_enumeration_order
    (localeCompare : string -> string -> Z) (D : FileSystemHandle.t)
    (entries' : list FileSystemHandle.t) :
  consistent_comparator localeCompare -> separates_names localeCompare ->
  isDirectory D = true -> serializable D = true ->
  NoDup (map FileSystemHandle.name (getEntries D)) ->
  Permutation (getEntries D) entries' ->
  serialize_handle localeCompare (with_entries D entries') =
  serialize_handle localeCompare D.
Proof.
  intros Hconsistent Hseparates Hd Hall Hnames Hperm.
  assert (Hall' : serializable (with_entries D entries') = true).
  { destruct D as [i t f d n q c es]. simpl in *. subst d.
    rewrite forallb_forall in Hall |- *. intros child Hin.
    apply Hall. eapply Permutation_in; [apply Permutation_sym|]; eassumption. }
  destruct (serialize_handle_total localeCompare D Hall) as (s & Hs).
  destruct (serialize_handle_total localeCompare _ Hall') as (s' & Hs').
  rewrite Hs, Hs'. f_equal.
  assert (Hd' : isDirectory (with_entries D entries') = true) by exact Hd.
  destruct (serialize_directory_result _ _ _ Hd Hs) as (cf & cd & Hc & ->).
  destruct (serialize_directory_result _ _ _ Hd' Hs')
    as (cf' & cd' & Hc' & ->).
  apply serialize_entries_serialized_as in Hc
    as (nf & nd & Hcf & Hcd & Hf & Hdirs).
  apply serialize_entries_serialized_as in Hc'
    as (nf' & nd' & Hcf' & Hcd' & Hf' & Hdirs').
  simpl in Hcf, Hcd, Hcf', Hcd', Hf', Hdirs'. subst cf cd cf' cd'.
  simpl.
  assert (Hnames' : NoDup (map FileSystemHandle.name entries')).
  { eapply Permutation_NoDup; [|exact Hnames].
    apply Permutation_map. exact Hperm. }
  assert (Ef : Array_sort (compare_names localeCompare) nf' =
               Array_sort (compare_names localeCompare) nf).
  { apply (sorted_snapshots_unique localeCompare
             (file_entries entries') (file_entries (getEntries D))); auto.
    - now apply NoDup_map_filter.
    - apply filter_permutation, Permutation_sym. exact Hperm. }
  assert (Ed : Array_sort (compare_names localeCompare) nd' =
               Array_sort (compare_names localeCompare) nd).
  { apply (sorted_snapshots_unique localeCompare
             (directory_entries entries')
             (directory_entries (getEntries D))); auto.
    - now apply NoDup_map_filter.
    - apply filter_permutation, Permutation_sym. exact Hperm. }
  now rewrite Ef, Ed.
Qed.

Lemma serialization_ignores_enumeration_order_witness :
  serialize_handle compare_code_units
    (with_entries
       (sample_directory 1 "directory-with-files"
          [sample_file 2 "b" "second"; sample_file 3 "a" "first";
           sample_directory 4 "c" []])
       [sample_directory 4 "c" []; sample_file 3 "a" "first";
        sample_file 2 "b" "second"]) =
  serialize_handle compare_code_units
    (sample_directory 1 "directory-with-files"
       [sample_file 2 "b" "second"; sample_file 3 "a" "first";
        sample_directory 4 "c" []]).
Proof.
  apply (serialization_ignores_enumeration_order compare_code_units).
  - exact compare_code_units_consistent.
  - exact compare_code_units_separates.
  - reflexivity.
  - reflexivity.
  - simpl. repeat constructor; simpl; intuition discriminate.
  - exact (Permutation_rev
             [sample_file 2 "b" "second"; sample_file 3 "a" "first";
              sample_directory 4 "c" []]).
Defined.

(** ** Further properties of the comparator *)

Lemma assert_equals_outcome {A : Type} (same_value : A -> A -> bool)
    (actual expected : A) (description : string) :
  assertion_outcome (assert_equals same_value actual expected description).
Proof.
  unfold assert_equals. destruct (same_value actual expected).
  - now left.
  - right. now exists description.
Qed.

Lemma bind_outcome (r : result unit) (k : unit -> result unit) :
  assertion_outcome r -> assertion_outcome (k tt) ->
  assertion_outcome (bind r k).
Proof.
  intros [->|(d & ->)] Hk; simpl; [exact Hk|].
  right. now exists d.
Qed.

Lemma shared_properties_outcome (left right : serialized_handle) :
  assertion_outcome (assert_equals_serialized_file_system_handles left right).
Proof.
  unfold assert_equals_serialized_file_system_handles.
  repeat (apply bind_outcome; [apply assert_equals_outcome|]).
  apply assert_equals_outcome.
Qed.

Lemma file_comparison_outcome (left right : serialized_handle) :
  assertion_outcome
    (assert_equals_serialized_file_system_file_handles left right).
Proof.
  unfold assert_equals_serialized_file_system_file_handles.
  apply bind_outcome; [apply shared_properties_outcome|].
  apply assert_equals_outcome.
Qed.

Lemma for_each_pair_outcome
    (assert_pair : serialized_handle -> serialized_handle -> result unit)
    (left_array : list serialized_handle) :
  forall right_array,
    length left_array = length right_array ->
    Forall (fun l => forall r, In r right_array ->
                               assertion_outcome (assert_pair l r))
           left_array ->
    assertion_outcome (for_each_pair assert_pair left_array right_array).
Proof.
  induction left_array as [|l rest IH]; intros [|r rs] Hlen Hall;
    simpl in *; try discriminate.
  - now left.
  - inversion Hall as [|? ? Hl Hrest]; subst.
    apply bind_outcome; [apply Hl; now left|].
    apply IH; [now injection Hlen|].
    eapply Forall_impl; [|exact Hrest].
    intros x Hx y Hy. apply Hx. now right.
Qed.

(** On a directory dictionary compared with a dictionary of either kind, the
    directory comparison never reads a missing property. *)
Lemma directory_comparison_outcome (left : serialized_handle) :
  forall right,
    directory_dictionary left = true ->
    directory_dictionary right = true \/ file_dictionary right = true ->
    assertion_outcome (directory_comparison_pairwise left right).
Proof.
  induction left
    as [f d n r w c fs ds _ IH] using serialized_induction.
  intros [f' d' n' r' w' c' fs' ds'] Hl Hr.
  cbn [directory_dictionary is_directory file_contents files directories]
    in Hl.
  destruct d as [[]|]; try discriminate.
  destruct c; try discriminate.
  destruct fs as [lf|]; try discriminate.
  destruct ds as [ld|]; try discriminate.
  apply andb_prop in Hl as [Hlf Hld].
  cbn [directory_comparison_pairwise files directories].
  destruct (assert_equals_serialized_file_system_handles _ _)
    as [[]|e] eqn:Hshared.
  2: { pose proof (shared_properties_outcome
                     (Build_serialized_handle f (Some true) n r w None
                        (Some lf) (Some ld))
                     (Build_serialized_handle f' d' n' r' w' c' fs' ds'))
         as Hout.
       rewrite Hshared in Hout. exact Hout. }
  apply assert_equals_serialized_file_system_handles_ok in Hshared
    as (_ & Hdir & _). simpl in Hdir. subst d'.
  destruct Hr as [Hr|Hr];
    [|unfold file_dictionary in Hr; simpl in Hr; discriminate].
  cbn [directory_dictionary is_directory file_contents files directories]
    in Hr.
  destruct c'; try discriminate.
  destruct fs' as [rf|]; try discriminate.
  destruct ds' as [rd|]; try discriminate.
  apply andb_prop in Hr as [Hrf Hrd].
  cbn [bind].
  apply bind_outcome.
  - unfold assert_equals.
    destruct (Nat.eqb_spec (length lf) (length rf)) as [Hlen|_]; cbn [bind].
    + apply for_each_pair_outcome; [exact Hlen|].
      rewrite Forall_forall. intros x _ y _.
      apply file_comparison_outcome.
    + right. eexists. reflexivity.
  - unfold assert_equals.
    destruct (Nat.eqb_spec (length ld) (length rd)) as [Hlen|_]; cbn [bind].
    + apply for_each_pair_outcome; [exact Hlen|].
      simpl in IH. rewrite forallb_forall in Hld, Hrd.
      rewrite Forall_forall in IH |- *.
      intros x Hx y Hy. apply IH; auto.
    + right. eexists. reflexivity.
Qed.

(** X5: on the dictionaries of two handles, the comparison returns normally
    exactly when the two dictionaries are equal, and when they differ it
    fails with an assertion error: it never reads a missing property and
    never reaches its last branch. *)
Theorem comparison_decides_equality_of_serialized_handles
    (localeCompare : string -> string -> Z)
    (left_handle right_handle : FileSystemHandle.t)
    (left right : serialized_handle) :
  serialize_handle localeCompare left_handle = Ok left ->
  serialize_handle localeCompare right_handle = Ok right ->
  (assert_equals_serialized_handles left right = Ok tt <-> left = right) /\
  (left <> right ->
   exists description,
     assert_equals_serialized_handles left right =
     Throw (AssertionError description)).
Proof.
  intros Hl Hr.
  pose proof (serialized_handles_pass_iff_equal _ _ _ _ _ Hl Hr) as Hiff.
  split; [exact Hiff|]. intros Hdiff.
  assert (Hout : assertion_outcome
                   (assert_equals_serialized_handles left right)).
  { assert (Hright : directory_dictionary right = true \/
                     file_dictionary right = true).
    { destruct (isDirectory right_handle) eqn:Hdr.
      - left. eapply serialize_directory_dictionary; eauto.
      - right. eapply serialize_file_dictionary; eauto. }
    unfold assert_equals_serialized_handles.
    destruct (isDirectory left_handle) eqn:Hdl.
    - pose proof (serialize_directory_dictionary _ _ _ Hdl Hl) as Dl.
      destruct (serialize_directory_result _ _ _ Hdl Hl) as (cf & cd & _ & E).
      replace (truthy (is_directory left)) with true by (rewrite E; reflexivity).
      rewrite directory_comparison_refines.
      now apply directory_comparison_outcome.
    - destruct (serialize_file_result _ _ _ Hdl Hl) as (_ & E).
      replace (truthy (is_directory left)) with false
        by (rewrite E; reflexivity).
      replace (truthy (is_file left)) with true by (rewrite E; reflexivity).
      apply file_comparison_outcome. }
  destruct Hout as [Hok|Hfail]; [|exact Hfail].
  exfalso. apply Hdiff. now apply Hiff.
Qed.

Lemma comparison_decides_equality_of_serialized_handles_witness :
  exists description,
    assert_equals_serialized_handles
      {| is_file := Some true; is_directory := Some false;
         name := "first-file-with-contents";
         read_permission := granted; write_permission := granted;
         file_contents := Some "first-text-content";
         files := None; directories := None |}
      {| is_file := Some true; is_directory := Some false;
         name := "second-file-with-contents";
         read_permission := granted; write_permission := granted;
         file_contents := Some "second-text-content";
         files := None; directories := None |} =
    Throw (AssertionError description).
Proof.
  refine (proj2 (comparison_decides_equality_of_serialized_handles
                   compare_code_units
                   (sample_file 2 "first-file-with-contents"
                      "first-text-content")
                   (sample_file 3 "second-file-with-contents"
                      "second-text-content")
                   _ _ eq_refl eq_refl) _).
  discriminate.
Defined.

(** When the directory comparison returns normally. *)
Lemma directory_comparison_pairwise_ok (left right : serialized_handle) :
  directory_comparison_pairwise left right = Ok tt <->
  assert_equals_serialized_file_system_handles left right = Ok tt /\
  exists left_files right_files left_directories right_directories,
    files left = Some left_files /\ files right = Some right_files /\
    directories left = Some left_directories /\
    directories right = Some right_directories /\
    Forall2 (fun l r => assert_equals_serialized_file_system_file_handles l r = Ok tt)
      left_files right_files /\
    Forall2 (fun l r => directory_comparison_pairwise l r = Ok tt)
      left_directories right_directories.
Proof.
  destruct left as [f d n r w c fs ds].
  cbn [directory_comparison_pairwise files directories].
  split.
  - intros H.
    apply bind_ok in H as ([] & Hshared & H).
    apply bind_ok in H as ([] & Hfiles & Hdirs).
    split; [exact Hshared|].
    destruct fs as [lf|]; [|discriminate].
    destruct (files right) as [rf|]; [|discriminate].
    destruct ds as [ld|]; [|discriminate].
    destruct (directories right) as [rd|]; [|discriminate].
    apply bind_ok in Hfiles as ([] & Hflen & Hfiles).
    apply bind_ok in Hdirs as ([] & Hdlen & Hdirs).
    apply assert_equals_ok, Nat.eqb_eq in Hflen, Hdlen.
    apply for_each_pair_ok in Hfiles; [|exact Hflen].
    apply for_each_pair_ok in Hdirs; [|exact Hdlen].
    exists lf, rf, ld, rd. auto 10.
  - intros (Hshared & lf & rf & ld & rd & -> & -> & -> & -> & Hf & Hd).
    rewrite Hshared. cbn [bind]. unfold assert_equals.
    rewrite (Forall2_length Hf), (Forall2_length Hd), !Nat.eqb_refl.
    cbn [bind].
    rewrite (proj2 (for_each_pair_ok _ _ _ (Forall2_length Hf)) Hf).
    cbn [bind].
    apply for_each_pair_ok; [exact (Forall2_length Hd)|exact Hd].
Qed.

Lemma shared_properties_symmetric (a b : serialized_handle) :
  assert_equals_serialized_file_system_handles a b = Ok tt ->
  assert_equals_serialized_file_system_handles b a = Ok tt.
Proof.
  rewrite !assert_equals_serialized_file_system_handles_ok. intuition.
Qed.

Lemma shared_properties_transitive (a b c : serialized_handle) :
  assert_equals_serialized_file_system_handles a b = Ok tt ->
  assert_equals_serialized_file_system_handles b c = Ok tt ->
  assert_equals_serialized_file_system_handles a c = Ok tt.
Proof.
  rewrite !assert_equals_serialized_file_system_handles_ok.
  intuition congruence.
Qed.

Lemma file_comparison_ok (a b : serialized_handle) :
  assert_equals_serialized_file_system_file_handles a b = Ok tt <->
  assert_equals_serialized_file_system_handles a b = Ok tt /\
  file_contents a = file_contents b.
Proof.
  unfold assert_equals_serialized_file_system_file_handles. rewrite bind_ok. split.
  - intros ([] & Hshared & Hc).
    apply assert_equals_ok, same_optional_string_iff in Hc. auto.
  - intros (Hshared & Hc). exists tt. split; [exact Hshared|].
    now apply assert_equals_ok, same_optional_string_iff.
Qed.

Lemma Forall2_symmetric_in {A : Type} (P : A -> A -> Prop) (l1 l2 : list A) :
  Forall (fun a => forall b, P a b -> P b a) l1 ->
  Forall2 P l1 l2 -> Forall2 P l2 l1.
Proof.
  intros Hall H. induction H as [|a b l1 l2 Hab _ IH].
  - constructor.
  - inversion Hall; subst. constructor; auto.
Qed.

Lemma Forall2_transitive_in {A : Type} (P : A -> A -> Prop) (l1 : list A) :
  Forall (fun a => forall b c, P a b -> P b c -> P a c) l1 ->
  forall l2 l3, Forall2 P l1 l2 -> Forall2 P l2 l3 -> Forall2 P l1 l3.
Proof.
  induction 1 as [|a l1 Ha _ IH]; intros l2 l3 H12 H23;
    inversion H12; subst; inversion H23; subst; constructor; eauto.
Qed.

Lemma directory_comparison_pairwise_symmetric (a : serialized_handle) :
  forall b,
    directory_comparison_pairwise a b = Ok tt ->
    directory_comparison_pairwise b a = Ok tt.
Proof.
  induction a as [f d n r w c fs ds _ IH] using serialized_induction.
  intros b H.
  apply directory_comparison_pairwise_ok in H
    as (Hshared & lf & rf & ld & rd & Hlf & Hrf & Hld & Hrd & Hf & Hd).
  apply directory_comparison_pairwise_ok.
  split; [now apply shared_properties_symmetric|].
  exists rf, lf, rd, ld. repeat split; auto.
  - apply Forall2_symmetric_in; [|exact Hf].
    rewrite Forall_forall. intros x _ y Hxy.
    apply file_comparison_ok in Hxy as [Hs Hc].
    apply file_comparison_ok.
    split; [now apply shared_properties_symmetric|now symmetry].
  - apply Forall2_symmetric_in; [|exact Hd].
    simpl in Hld. subst ds. exact IH.
Qed.

Lemma directory_comparison_pairwise_transitive (a : serialized_handle) :
  forall b c,
    directory_comparison_pairwise a b = Ok tt ->
    directory_comparison_pairwise b c = Ok tt ->
    directory_comparison_pairwise a c = Ok tt.
Proof.
  induction a as [f d n r w c0 fs ds _ IH] using serialized_induction.
  intros b c Hab Hbc.
  apply directory_comparison_pairwise_ok in Hab
    as (Hs1 & lf & mf & ld & md & Hlf & Hmf & Hld & Hmd & Hf1 & Hd1).
  apply directory_comparison_pairwise_ok in Hbc
    as (Hs2 & mf' & rf & md' & rd & Hmf' & Hrf & Hmd' & Hrd & Hf2 & Hd2).
  rewrite Hmf in Hmf'. injection Hmf' as <-.
  rewrite Hmd in Hmd'. injection Hmd' as <-.
  apply directory_comparison_pairwise_ok.
  split; [eapply shared_properties_transitive; eassumption|].
  exists lf, rf, ld, rd. repeat split; auto.
  - eapply Forall2_transitive_in; [|exact Hf1|exact Hf2].
    rewrite Forall_forall. intros x _ y z Hxy Hyz.
    apply file_comparison_ok in Hxy as [Hxy Hc1].
    apply file_comparison_ok in Hyz as [Hyz Hc2].
    apply file_comparison_ok.
    split; [eapply shared_properties_transitive; eassumption|congruence].
  - eapply Forall2_transitive_in; [|exact Hd1|exact Hd2].
    simpl in Hld. subst ds. exact IH.
Qed.

(** The branch [assert_equals_serialized_handles] takes is decided by the two
    kind flags, which a passing comparison finds equal on both sides. *)
Lemma passing_comparison_same_flags (a b : serialized_handle) :
  assert_equals_serialized_handles a b = Ok tt ->
  is_directory b = is_directory a /\ is_file b = is_file a.
Proof.
  unfold assert_equals_serialized_handles.
  destruct (truthy (is_directory a)).
  - rewrite directory_comparison_refines. intros H.
    apply directory_comparison_pairwise_ok in H as (Hs & _).
    apply assert_equals_serialized_file_system_handles_ok in Hs. intuition.
  - destruct (truthy (is_file a)).
    + intros H. apply file_comparison_ok in H as (Hs & _).
      apply assert_equals_serialized_file_system_handles_ok in Hs. intuition.
    + destruct (identifier_in_scope _ _); discriminate.
Qed.

(** X6: on arbitrary dictionaries, a comparison that returns normally also
    returns normally with its arguments exchanged, and two comparisons that
    return normally chain: the comparison is symmetric and transitive. *)
Theorem comparison_is_symmetric_and_transitive :
  (forall a b,
      assert_equals_serialized_handles a b = Ok tt ->
      assert_equals_serialized_handles b a = Ok tt) /\
  (forall a b c,
      assert_equals_serialized_handles a b = Ok tt ->
      assert_equals_serialized_handles b c = Ok tt ->
      assert_equals_serialized_handles a c = Ok tt).
Proof.
  split.
  - intros a b H.
    destruct (passing_comparison_same_flags a b H) as [Hd Hf].
    unfold assert_equals_serialized_handles in *. rewrite Hd, Hf.
    destruct (truthy (is_directory a)).
    + rewrite directory_comparison_refines in *.
      now apply directory_comparison_pairwise_symmetric.
    + destruct (truthy (is_file a)).
      * apply file_comparison_ok in H as [Hs Hc].
        apply file_comparison_ok.
        split; [now apply shared_properties_symmetric|now symmetry].
      * exact H.
  - intros a b c Hab Hbc.
    destruct (passing_comparison_same_flags a b Hab) as [Hd Hf].
    unfold assert_equals_serialized_handles in *. rewrite Hd, Hf in Hbc.
    destruct (truthy (is_directory a)).
    + rewrite directory_comparison_refines in *.
      eapply directory_comparison_pairwise_transitive; eassumption.
    + destruct (truthy (is_file a)).
      * apply file_comparison_ok in Hab as [Hs1 Hc1].
        apply file_comparison_ok in Hbc as [Hs2 Hc2].
        apply file_comparison_ok.
        split; [eapply shared_properties_transitive; eassumption|congruence].
      * exact Hab.
Qed.

(** ** Further properties of the router *)

Lemma posted_messages_app (t1 t2 : list effect) :
  posted_messages (t1 ++ t2) = posted_messages t1 ++ posted_messages t2.
Proof. apply flat_map_app. Qed.

Lemma silent_single_reply (a : action unit) : silent a -> single_reply a.
Proof. intros H. now left. Qed.

Lemma silent_add_message_event_handlers (receiver target : option Endpoint)
    (target_origin : option string) :
  silent (add_message_event_handlers receiver target target_origin).
Proof. destruct receiver; reflexivity. Qed.

Lemma silent_start (port : option Endpoint) : silent (start port).
Proof. destruct port as [[]|]; reflexivity. Qed.

Lemma silent_and_then {A B : Type} (a : action A) (k : A -> action B) :
  silent a -> (forall value, silent (k value)) -> silent (and_then a k).
Proof.
  unfold silent, and_then. intros Ha Hk.
  destruct (snd a) as [value|error]; simpl; [|exact Ha].
  now rewrite posted_messages_app, Ha, Hk.
Qed.

Lemma single_reply_postMessage (destination : option Endpoint)
    (message : message_data) (target_origin : option string) :
  single_reply (postMessage destination message target_origin).
Proof.
  unfold postMessage. destruct destination as [endpoint|]; [|now left].
  destruct (accepts_target_origin endpoint target_origin); [|now left].
  right. now exists [], endpoint, message, target_origin.
Qed.

Lemma single_reply_and_then {A : Type} (a : action A)
    (k : A -> action unit) :
  silent a -> (forall value, single_reply (k value)) ->
  single_reply (and_then a k).
Proof.
  intros Ha Hk. unfold and_then.
  destruct a as [trace [value|error]]; cbn [fst snd]; [|now left].
  unfold silent in Ha. cbn [fst] in Ha.
  destruct (Hk value) as [Hs|(before & d & m & o & Hrun & Hbefore)].
  - left. unfold silent in *. cbn [fst].
    now rewrite posted_messages_app, Ha, Hs.
  - right. exists (trace ++ before), d, m, o. rewrite Hrun. cbn [fst snd].
    rewrite app_assoc. split; [reflexivity|].
    now rewrite posted_messages_app, Ha, Hbefore.
Qed.

Lemma single_reply_try_catch (body : action unit)
    (handler : js_error -> action unit) :
  single_reply body -> (forall error, single_reply (handler error)) ->
  single_reply (try_catch body handler).
Proof.
  intros Hb Hh. unfold try_catch.
  destruct body as [trace [[]|error]]; cbn [fst snd]; [exact Hb|].
  destruct Hb as [Hs|(before & d & m & o & Hrun & _)]; [|discriminate Hrun].
  unfold silent in Hs. cbn [fst] in Hs.
  destruct (Hh error) as [Hs'|(before & d & m & o & Hrun & Hbefore)].
  - left. unfold silent in *. cbn [fst].
    now rewrite posted_messages_app, Hs, Hs'.
  - right. exists (trace ++ before), d, m, o. rewrite Hrun. cbn [fst snd].
    rewrite app_assoc. split; [reflexivity|].
    now rewrite posted_messages_app, Hs, Hbefore.
Qed.

(** Every case of the [switch] posts at most once, and last. *)
Lemma single_reply_message_switch (localeCompare : string -> string -> Z)
    (file_system : FileSystem) (message_source : option Endpoint)
    (target_origin : option string) (message_data : message_data) :
  single_reply
    (message_switch localeCompare file_system message_source target_origin
       message_data).
Proof.
  unfold message_switch.
  apply single_reply_and_then; [reflexivity|]. intros message.
  repeat match goal with
         | |- context [if ?c then _ else _] => destruct c
         | |- context [match file_system_handles ?m with _ => _ end] =>
             destruct (file_system_handles m)
         | |- single_reply (and_then _ _) =>
             apply single_reply_and_then; [|intros ?]
         | |- single_reply (postMessage _ _ _) =>
             apply single_reply_postMessage
         | |- single_reply (start _) =>
             apply silent_single_reply, silent_start
         | |- single_reply (lift _) => now left
         | |- single_reply (ret _) => now left
         | |- silent (add_message_event_handlers _ _ _) =>
             apply silent_add_message_event_handlers
         | |- silent (lift _) => reflexivity
         | |- silent (perform _) => reflexivity
         end.
Qed.

Lemma single_reply_length (a : action unit) :
  single_reply a -> length (posted_messages (fst a)) <= 1.
Proof.
  intros [Hs|(before & d & m & o & -> & Hbefore)].
  - unfold silent in Hs. rewrite Hs. simpl. lia.
  - cbn [fst]. rewrite posted_messages_app, Hbefore. simpl. lia.
Qed.

Lemma single_reply_failure (a : action unit) :
  single_reply a -> snd a <> Ok tt -> posted_messages (fst a) = [].
Proof.
  intros [Hs|(before & d & m & o & -> & _)] Hfail.
  - exact Hs.
  - now contradiction Hfail.
Qed.

(** X7: whatever the event, the configuration and the file system, an
    invocation of the [message] listener, and one of the [messageerror]
    listener, posts at most one message; the message, when there is one, is
    the last thing the invocation does and the invocation then returns
    normally; an invocation that ends with an exception has posted nothing. *)
Theorem listeners_post_at_most_one_message
    (localeCompare : string -> string -> Z) (file_system : FileSystem)
    (target : option Endpoint) (target_origin : option string)
    (message_event : MessageEvent.t message_data)
    (message_error_event : MessageEvent.t js_primitive) :
  single_reply
    (message_listener localeCompare file_system target target_origin
       message_event) /\
  single_reply
    (messageerror_listener target target_origin message_error_event) /\
  length
    (posted_messages
       (fst (message_listener localeCompare file_system target target_origin
               message_event))) <= 1 /\
  length
    (posted_messages
       (fst (messageerror_listener target target_origin
               message_error_event))) <= 1 /\
  (snd (message_listener localeCompare file_system target target_origin
          message_event) <> Ok tt ->
   posted_messages
     (fst (message_listener localeCompare file_system target target_origin
             message_event)) = []) /\
  (snd (messageerror_listener target target_origin message_error_event)
     <> Ok tt ->
   posted_messages
     (fst (messageerror_listener target target_origin message_error_event))
     = []).
Proof.
  assert (H1 : single_reply
                 (message_listener localeCompare file_system target
                    target_origin message_event)).
  { unfold message_listener. apply single_reply_try_catch.
    - apply single_reply_message_switch.
    - intros error. apply single_reply_postMessage. }
  assert (H2 : single_reply
                 (messageerror_listener target target_origin
                    message_error_event)).
  { unfold messageerror_listener. apply single_reply_try_catch.
    - apply single_reply_postMessage.
    - intros error. apply single_reply_postMessage. }
  split; [exact H1|]. split; [exact H2|].
  split; [now apply single_reply_length|].
  split; [now apply single_reply_length|].
  split; now apply single_reply_failure.
Qed.

(** The loop of the [receive-file-system-handles] case returns the entries of
    the handles it was given, in their order, after those already collected. *)
Lemma serialize_received_handles_ok_inv
    (localeCompare : string -> string -> Z)
    (handles : list FileSystemHandle.t) :
  forall collected result,
    serialize_received_handles localeCompare handles collected = Ok result ->
    exists entries,
      result = collected ++ entries /\
      Forall2 (entry_of localeCompare) handles entries.
Proof.
  induction handles as [|h rest IH]; simpl; intros collected result H.
  - injection H as <-. exists []. now rewrite app_nil_r.
  - destruct (serialize_handle localeCompare h) as [s|e] eqn:Hs;
      [|discriminate H].
    cbn [bind] in H. apply IH in H as (entries & -> & Hpairs).
    exists ({| handle := h; serialized := s |} :: entries).
    rewrite <- app_assoc. split; [reflexivity|].
    constructor; [split; [reflexivity|exact Hs]|exact Hpairs].
Qed.

Lemma entries_of_serializable (localeCompare : string -> string -> Z)
    (handles : list FileSystemHandle.t) (entries : list response_handle) :
  Forall2 (entry_of localeCompare) handles entries ->
  forallb serializable handles = true.
Proof.
  induction 1 as [|h e hs es [_ Hs] _ IH]; [reflexivity|].
  simpl. rewrite IH, andb_true_r.
  eapply serialize_handle_ok_serializable. exact Hs.
Qed.

Lemma serialize_received_handles_total
    (localeCompare : string -> string -> Z)
    (handles : list FileSystemHandle.t) :
  forallb serializable handles = true ->
  forall collected,
  exists entries,
    serialize_received_handles localeCompare handles collected =
      Ok (collected ++ entries) /\
    Forall2 (entry_of localeCompare) handles entries.
Proof.
  induction handles as [|h rest IH]; simpl; intros Hall collected.
  - exists []. rewrite app_nil_r. split; [reflexivity|constructor].
  - apply andb_prop in Hall as [Hh Hrest].
    destruct (serialize_handle_total localeCompare h Hh) as (s & Hs).
    rewrite Hs. cbn [bind].
    destruct (IH Hrest (collected ++ [{| handle := h; serialized := s |}]))
      as (entries & Hrun & Hpairs).
    exists ({| handle := h; serialized := s |} :: entries).
    rewrite Hrun, <- app_assoc. split; [reflexivity|].
    constructor; [split; [reflexivity|exact Hs]|exact Hpairs].
Qed.

Lemma type_is_true (message : envelope) (tag : string) :
  type_is message tag = true <-> type message = Some tag.
Proof.
  unfold type_is. destruct (type message) as [text|].
  - rewrite String.eqb_eq. split; congruence.
  - split; discriminate.
Qed.

(** With the reply destination an endpoint that accepts the target origin,
    posting is the single effect. *)
Lemma postMessage_accepted (destination : Endpoint) (message : message_data)
    (target_origin : option string) :
  accepts_target_origin destination target_origin = true ->
  postMessage (Some destination) message target_origin =
  ([PostMessage destination message target_origin], Ok tt).
Proof. intros H. unfold postMessage. now rewrite H. Qed.

(** The [receive-file-system-handles] case, as run by the [switch]. *)
Lemma message_switch_handles (localeCompare : string -> string -> Z)
    (file_system : FileSystem) (message_source : option Endpoint)
    (target_origin : option string) (message : envelope)
    (handles : list FileSystemHandle.t) :
  type message = Some "receive-file-system-handles" ->
  file_system_handles message = Some handles ->
  message_switch localeCompare file_system message_source target_origin
    (DataObject message) =
  and_then (lift (serialize_received_handles localeCompare handles []))
    (fun entries =>
       postMessage message_source
         (DataObject (serialized_handles_reply entries)) target_origin).
Proof.
  intros Htype Hhandles. unfold message_switch, and_then at 1.
  cbn [lift properties_of fst snd app]. unfold type_is.
  rewrite Htype, Hhandles. cbn [String.eqb Ascii.eqb Bool.eqb].
  symmetry. apply surjective_pairing.
Qed.

(** X8: the reply to a batch of handles is all or nothing.  With a reply
    destination that is an endpoint accepting the target origin, a
    [receive-file-system-handles] message makes the listener do exactly one
    thing, post one message, and that message is either a
    [receive-serialized-file-system-handles] message with one entry per
    handle received, in the order received, each pairing the handle with its
    dictionary, or an [ERROR:] string; it is the string whenever some object
    of the batch (or of the directories below it) is no handle.  No reply
    holds the entries of only part of the batch. *)
Theorem batch_reply_is_all_or_nothing
    (localeCompare : string -> string -> Z) (file_system : FileSystem)
    (target : option Endpoint) (target_origin : option string)
    (message_event : MessageEvent.t message_data) (message : envelope)
    (handles : list FileSystemHandle.t) (destination : Endpoint) :
  MessageEvent.data message_event = DataObject message ->
  type message = Some "receive-file-system-handles" ->
  file_system_handles message = Some handles ->
  resolve_message_source message_event target = Some destination ->
  accepts_target_origin destination target_origin = true ->
  exists reply,
    message_listener localeCompare file_system target target_origin
      message_event =
    ([PostMessage destination reply target_origin], Ok tt) /\
    ((exists entries,
         reply = DataObject (serialized_handles_reply entries) /\
         Forall2 (entry_of localeCompare) handles entries) \/
     (exists description,
         reply = DataString ("ERROR: " ++ description)%string)) /\
    (forallb serializable handles = false ->
     exists description,
       reply = DataString ("ERROR: " ++ description)%string).
Proof.
  intros Hdata Htype Hhandles Hsource Haccepts.
  unfold message_listener.
  rewrite Hdata, Hsource, (message_switch_handles _ _ _ _ _ _ Htype Hhandles).
  destruct (serialize_received_handles localeCompare handles [])
    as [collected|error] eqn:Hrun.
  - apply serialize_received_handles_ok_inv in Hrun
      as (entries & -> & Hpairs).
    exists (DataObject (serialized_handles_reply entries)).
    split; [|split].
    + unfold and_then, try_catch. cbn [lift fst snd app].
      now rewrite postMessage_accepted.
    + left. now exists entries.
    + intros Hall.
      rewrite (entries_of_serializable _ _ _ Hpairs) in Hall.
      discriminate Hall.
  - exists (DataString ("ERROR: " ++ error_to_string error)%string).
    split; [|split].
    + unfold and_then, try_catch, report_error. cbn [lift fst snd app].
      now rewrite postMessage_accepted.
    + right. now exists (error_to_string error).
    + intros _. now exists (error_to_string error).
Qed.

(** A batch holding an object that is no handle, received on a port. *)
Lemma batch_reply_is_all_or_nothing_witness :
  exists description,
    message_listener compare_code_units sample_file_system
      (Some (MessagePort 7)) None
      (sample_port_event
         (handles_request [sample_file 1 "a" "text"; sample_non_handle])) =
    ([PostMessage (MessagePort 7)
        (DataString ("ERROR: " ++ description)%string) None],
     Ok tt).
Proof.
  destruct (batch_reply_is_all_or_nothing compare_code_units
              sample_file_system (Some (MessagePort 7)) None
              (sample_port_event
                 (handles_request
                    [sample_file 1 "a" "text"; sample_non_handle]))
              _ _ (MessagePort 7) eq_refl eq_refl eq_refl eq_refl eq_refl)
    as (reply & Hrun & _ & Herror).
  destruct (Herror eq_refl) as (description & ->).
  exists description. exact Hrun.
Defined.

Lemma replies_of_type_app (tag : string) (t1 t2 : list effect) :
  replies_of_type tag (t1 ++ t2) =
  replies_of_type tag t1 ++ replies_of_type tag t2.
Proof. apply flat_map_app. Qed.

Lemma replies_of_type_and_then {A B : Type} (tag : string) (a : action A)
    (k : A -> action B) (reply : envelope) :
  In reply (replies_of_type tag (fst (and_then a k))) ->
  In reply (replies_of_type tag (fst a)) \/
  exists value,
    snd a = Ok value /\ In reply (replies_of_type tag (fst (k value))).
Proof.
  unfold and_then. destruct (snd a) as [value|error]; cbn [fst].
  - rewrite replies_of_type_app, in_app_iff. intros [H|H]; [now left|].
    right. now exists value.
  - now left.
Qed.

Lemma replies_of_type_postMessage (tag : string)
    (destination : option Endpoint) (message : envelope)
    (target_origin : option string) (reply : envelope) :
  In reply
    (replies_of_type tag
       (fst (postMessage destination (DataObject message) target_origin))) ->
  reply = message /\ type_is message tag = true.
Proof.
  unfold postMessage. destruct destination as [endpoint|]; [|contradiction].
  destruct (accepts_target_origin endpoint target_origin); [|contradiction].
  cbn [fst perform replies_of_type flat_map].
  destruct (type_is message tag); [|contradiction].
  intros [<-|[]]. now split.
Qed.

Lemma replies_of_type_silent (tag : string) (trace : list effect) :
  posted_messages trace = [] -> replies_of_type tag trace = [].
Proof.
  induction trace as [|e rest IH]; [reflexivity|].
  destruct e; simpl; try exact IH. discriminate.
Qed.

(** Where a [receive-serialized-file-system-handles] reply of the [switch]
    comes from. *)
Lemma serialized_reply_of_switch (localeCompare : string -> string -> Z)
    (file_system : FileSystem) (message_source : option Endpoint)
    (target_origin : option string) (message_data : message_data)
    (reply : envelope) :
  In reply
    (replies_of_type "receive-serialized-file-system-handles"
       (fst (message_switch localeCompare file_system message_source
               target_origin message_data))) ->
  exists message handles entries,
    message_data = DataObject message /\
    type message = Some "receive-file-system-handles" /\
    file_system_handles message = Some handles /\
    reply = serialized_handles_reply entries /\
    Forall2 (entry_of localeCompare) handles entries.
Proof.
  unfold message_switch. intros H.
  apply replies_of_type_and_then in H as [[]|(message & Hm & H)].
  destruct message_data as [|text|object]; [discriminate Hm| |];
    injection Hm as <-.
  { exfalso. revert H. simpl. tauto. }
  destruct (type_is object "receive-message-port").
  { exfalso.
    apply replies_of_type_and_then in H as [H|(? & _ & H)].
    - rewrite replies_of_type_silent in H; [contradiction|].
      apply silent_add_message_event_handlers.
    - rewrite replies_of_type_silent in H; [contradiction|].
      apply silent_start. }
  destruct (type_is object "create-broadcast-channel").
  { exfalso.
    apply replies_of_type_and_then in H as [[]|(? & _ & H)].
    apply replies_of_type_and_then in H as [H|(? & _ & H)].
    - rewrite replies_of_type_silent in H; [contradiction|].
      apply silent_add_message_event_handlers.
    - apply replies_of_type_postMessage in H as [_ H]. discriminate H. }
  destruct (type_is object "receive-file-system-handles") eqn:Htype.
  { apply type_is_true in Htype.
    destruct (file_system_handles object) as [handles|] eqn:Hhandles;
      [|contradiction].
    apply replies_of_type_and_then in H as [[]|(collected & Hrun & H)].
    apply replies_of_type_postMessage in H as [-> _].
    cbn [lift snd] in Hrun.
    apply serialize_received_handles_ok_inv in Hrun
      as (entries & -> & Hpairs).
    exists object, handles, entries. auto. }
  destruct (type_is object "receive-serialized-file-system-handles");
    [contradiction|].
  destruct (type_is object "create-file").
  { exfalso.
    apply replies_of_type_and_then in H as [[]|(? & _ & H)].
    apply replies_of_type_and_then in H as [[]|(? & _ & H)].
    apply replies_of_type_and_then in H as [[]|(? & _ & H)].
    apply replies_of_type_postMessage in H as [_ H]. discriminate H. }
  destruct (type_is object "create-directory").
  { exfalso.
    apply replies_of_type_and_then in H as [[]|(? & _ & H)].
    apply replies_of_type_and_then in H as [[]|(? & _ & H)].
    apply replies_of_type_and_then in H as [[]|(? & _ & H)].
    apply replies_of_type_postMessage in H as [_ H]. discriminate H. }
  contradiction.
Qed.

(** X9: the listener never posts a [receive-serialized-file-system-handles]
    message on its own account.  Whenever one appears among the messages of
    an invocation, the event carried a [receive-file-system-handles] message
    with an array of handles, every object of that array was a file or
    directory handle, and the reply holds their entries: one per handle, in
    the order received, each pairing the handle with its dictionary. *)
Theorem serialized_reply_only_answers_a_batch
    (localeCompare : string -> string -> Z) (file_system : FileSystem)
    (target : option Endpoint) (target_origin : option string)
    (message_event : MessageEvent.t message_data) (reply : envelope) :
  In reply
    (replies_of_type "receive-serialized-file-system-handles"
       (fst (message_listener localeCompare file_system target target_origin
               message_event))) ->
  exists message handles entries,
    MessageEvent.data message_event = DataObject message /\
    type message = Some "receive-file-system-handles" /\
    file_system_handles message = Some handles /\
    forallb serializable handles = true /\
    reply = serialized_handles_reply entries /\
    Forall2 (entry_of localeCompare) handles entries.
Proof.
  unfold message_listener, try_catch. intros H.
  assert (Hswitch :
            In reply
              (replies_of_type "receive-serialized-file-system-handles"
                 (fst (message_switch localeCompare file_system
                         (resolve_message_source message_event target)
                         target_origin (MessageEvent.data message_event))))).
  { destruct (snd (message_switch _ _ _ _ _)) as [[]|error];
      [exact H|].
    cbn [fst] in H. rewrite replies_of_type_app, in_app_iff in H.
    destruct H as [H|H]; [exact H|]. exfalso. revert H.
    unfold report_error, postMessage.
    destruct (resolve_message_source message_event target) as [endpoint|];
      [|simpl; tauto].
    destruct (accepts_target_origin endpoint target_origin); simpl; tauto. }
  apply serialized_reply_of_switch in Hswitch
    as (message & handles & entries & Hdata & Htype & Hhandles & -> & Hpairs).
  exists message, handles, entries.
  repeat split; auto.
  eapply entries_of_serializable. exact Hpairs.
Qed.

(** The reply to a batch of one file received on a port. *)
Lemma serialized_reply_only_answers_a_batch_witness :
  exists message handles entries,
    MessageEvent.data
      (sample_port_event
         (DataObject
            {| type := Some "receive-file-system-handles";
               message_port := None;
               broadcast_channel_name := None;
               file_system_handles := Some [sample_file 1 "a" "text"];
               serialized_file_system_handles := None;
               file_handle := None;
               directory_handle := None;
               serialized_message_error_event := None |})) =
      DataObject message /\
    type message = Some "receive-file-system-handles" /\
    file_system_handles message = Some handles /\
    forallb serializable handles = true /\
    serialized_handles_reply
      [ {| handle := sample_file 1 "a" "text";
           serialized :=
             {| is_file := Some true; is_directory := Some false;
                name := "a"; read_permission := granted;
                write_permission := granted; file_contents := Some "text";
                files := None; directories := None |} |} ] =
      serialized_handles_reply entries /\
    Forall2 (entry_of compare_code_units) handles entries.
Proof.
  apply (serialized_reply_only_answers_a_batch compare_code_units
           sample_file_system (Some (MessagePort 7)) None).
  vm_compute. left. reflexivity.
Defined.

(** A listener registered with its receiver as target and no target origin
    always has an endpoint to answer, so it always returns normally, and it
    answers the receiver when the event names no sender. *)
Lemma supplied_target_listeners_complete
    (localeCompare : string -> string -> Z) (file_system : FileSystem)
    (receiver : Endpoint) :
  installed_listeners_complete localeCompare file_system
    (AddMessageEventHandlers receiver (Some receiver) None).
Proof.
  intros message_event message_error_event.
  destruct (target_resolves_destination message_event receiver)
    as (destination & Hsource & Haccepts).
  destruct (target_resolves_destination message_error_event receiver)
    as (destination' & Hsource' & Haccepts').
  split; [|split; [|split]].
  - unfold message_listener. rewrite Hsource.
    now apply try_catch_report_error.
  - unfold messageerror_listener. rewrite Hsource'.
    now apply try_catch_report_error.
  - intros Hnull. unfold message_listener, resolve_message_source.
    rewrite Hnull. apply replies_try_catch.
    + apply replies_message_switch.
    + intros error. apply replies_postMessage.
  - intros Hnull. unfold messageerror_listener, resolve_message_source.
    rewrite Hnull. apply replies_try_catch.
    + apply replies_postMessage.
    + intros error. apply replies_postMessage.
Qed.

Lemma registration_in_trace (trace : list effect) (registration : effect) :
  registered_with_target trace ->
  In registration (registrations trace) ->
  exists receiver,
    registration = AddMessageEventHandlers receiver (Some receiver) None.
Proof.
  unfold registered_with_target. rewrite Forall_forall. intros Hall Hin.
  specialize (Hall _ Hin).
  apply filter_In in Hin as [_ Hkind].
  destruct registration; try discriminate Hkind.
  destruct Hall as [-> ->]. now eexists.
Qed.

(** X10: the listeners the repository installs never fail.  Every
    registration made by an invocation of the [message] listener (for a
    received port, for a new broadcast channel) or by the shared worker's
    [connect] listener installs listeners that, on every event they may
    receive, return normally, and that answer the endpoint they were
    registered on when the event names no sender. *)
Theorem installed_listeners_always_complete
    (localeCompare : string -> string -> Z) (file_system : FileSystem)
    (target : option Endpoint) (target_origin : option string)
    (message_event : MessageEvent.t message_data) (ports : list Endpoint)
    (registration : effect) :
  In registration
    (registrations
       (fst (message_listener localeCompare file_system target target_origin
               message_event)) ++
     registrations (fst (connect_listener ports))) ->
  installed_listeners_complete localeCompare file_system registration.
Proof.
  intros Hin.
  destruct (repository_registrations_supply_target localeCompare file_system
              target target_origin message_event ports) as [Hrouter Hworker].
  apply in_app_iff in Hin as [Hin|Hin].
  - destruct (registration_in_trace _ _ Hrouter Hin) as (receiver & ->).
    apply supplied_target_listeners_complete.
  - destruct (registration_in_trace _ _ Hworker Hin) as (receiver & ->).
    apply supplied_target_listeners_complete.
Qed.

(** The port of a shared worker connection: its listener answers a file
    request whose file system is refused, on the port itself. *)
Lemma installed_listeners_always_complete_witness :
  installed_listeners_complete compare_code_units failing_file_system
    (AddMessageEventHandlers (MessagePort 3) (Some (MessagePort 3)) None).
Proof.
  apply (installed_listeners_always_complete compare_code_units
           failing_file_system None None
           (sample_port_event (DataObject (envelope_of_type "create-file")))
           [MessagePort 3]).
  vm_compute. left. reflexivity.
Defined.

(** The cases of the [switch] that return normally without posting. *)
Lemma message_switch_unanswered (localeCompare : string -> string -> Z)
    (file_system : FileSystem) (destination : Endpoint)
    (target_origin : option string) (message_data : message_data) :
  accepts_target_origin destination target_origin = true ->
  snd (message_switch localeCompare file_system (Some destination)
         target_origin message_data) = Ok tt /\
  posted_messages
    (fst (message_switch localeCompare file_system (Some destination)
            target_origin message_data)) = [] <->
  exists message,
    message_data = DataObject message /\
    ((type message = Some "receive-message-port" /\
      exists id, message_port message = Some (MessagePort id)) \/
     type message = Some "receive-serialized-file-system-handles").
Proof.
  intros Haccepts. split.
  - unfold message_switch, and_then.
    destruct message_data as [|text|object]; cbn [lift properties_of fst snd].
    + intros [H _]. discriminate H.
    + intros [H _]. discriminate H.
    + destruct (type_is object "receive-message-port") eqn:E1.
      { apply type_is_true in E1.
        destruct (message_port object) as [[]|] eqn:Hport;
          cbn [add_message_event_handlers perform lift start fst snd];
          intros [H _]; try discriminate H.
        exists object. eauto. }
      destruct (type_is object "create-broadcast-channel").
      { unfold postMessage. rewrite Haccepts.
        cbn [add_message_event_handlers perform fst snd app posted_messages
             flat_map].
        intros [_ H]. discriminate H. }
      destruct (type_is object "receive-file-system-handles").
      { destruct (file_system_handles object) as [handles|];
          [|intros [H _]; discriminate H].
        unfold postMessage. rewrite Haccepts.
        destruct (serialize_received_handles localeCompare handles []);
          cbn [lift perform fst snd app posted_messages flat_map];
          intros [H1 H2]; discriminate. }
      destruct (type_is object "receive-serialized-file-system-handles")
        eqn:E4.
      { apply type_is_true in E4. exists object. auto. }
      destruct (type_is object "create-file").
      { unfold postMessage. rewrite Haccepts.
        destruct (getSystemDirectory file_system) as [directory|];
          cbn [lift perform fst snd app posted_messages flat_map];
          [|intros [H _]; discriminate H].
        destruct (getFile file_system directory "temp-file");
          cbn [lift perform fst snd app posted_messages flat_map];
          intros [H1 H2]; discriminate. }
      destruct (type_is object "create-directory").
      { unfold postMessage. rewrite Haccepts.
        destruct (getSystemDirectory file_system) as [directory|];
          cbn [lift perform fst snd app posted_messages flat_map];
          [|intros [H _]; discriminate H].
        destruct (getDirectory file_system directory "temp-directory");
          cbn [lift perform fst snd app posted_messages flat_map];
          intros [H1 H2]; discriminate. }
      intros [H _]. discriminate H.
  - intros (message & -> & [(Htype & id & Hport)|Htype]);
      unfold message_switch, and_then, type_is;
      cbn [lift properties_of fst snd]; rewrite Htype;
      cbn [String.eqb Ascii.eqb Bool.eqb].
    + rewrite Hport. split; reflexivity.
    + split; reflexivity.
Qed.

(** X11: with a reply destination that accepts the target origin, the
    [message] listener answers every event but two: it posts nothing exactly
    when the data is a [receive-message-port] message whose [message_port]
    is a port, or a [receive-serialized-file-system-handles] message.  Any
    other data, a malformed or failing request included, gets a message
    back. *)
Theorem only_two_messages_go_unanswered
    (localeCompare : string -> string -> Z) (file_system : FileSystem)
    (target : option Endpoint) (target_origin : option string)
    (message_event : MessageEvent.t message_data) (destination : Endpoint) :
  resolve_message_source message_event target = Some destination ->
  accepts_target_origin destination target_origin = true ->
  posted_messages
    (fst (message_listener localeCompare file_system target target_origin
            message_event)) = [] <->
  exists message,
    MessageEvent.data message_event = DataObject message /\
    ((type message = Some "receive-message-port" /\
      exists id, message_port message = Some (MessagePort id)) \/
     type message = Some "receive-serialized-file-system-handles").
Proof.
  intros Hsource Haccepts.
  rewrite <- (message_switch_unanswered localeCompare file_system destination
                target_origin _ Haccepts).
  unfold message_listener. rewrite Hsource.
  destruct (try_catch_report_error
              (message_switch localeCompare file_system (Some destination)
                 target_origin (MessageEvent.data message_event))
              destination target_origin Haccepts) as (_ & Hcaught & Hsame).
  destruct (snd (message_switch localeCompare file_system (Some destination)
                   target_origin (MessageEvent.data message_event)))
    as [[]|error] eqn:Hrun.
  - rewrite (Hsame eq_refl). intuition.
  - rewrite (Hcaught error eq_refl). cbn [fst].
    rewrite posted_messages_app. split.
    + intros H. apply app_eq_nil in H as [_ H]. discriminate H.
    + intros [H _]. discriminate H.
Qed.

(** A transferred port is taken over in silence; a request of an unknown
    kind is not. *)
Lemma only_two_messages_go_unanswered_witness :
  posted_messages
    (fst (message_listener compare_code_units sample_file_system None
            (Some "*")
            (MessageEvent.Build
               (receive_message_port_message (MessagePort 9))
               "https://web-platform.test:8443" EmptyString
               (Some (Window 1)) [MessagePort 9]))) = [].
Proof.
  apply (only_two_messages_go_unanswered compare_code_units
           sample_file_system None (Some "*")
           (MessageEvent.Build
              (receive_message_port_message (MessagePort 9))
              "https://web-platform.test:8443" EmptyString
              (Some (Window 1)) [MessagePort 9])
           (Window 1) eq_refl eq_refl).
  eexists. split; [reflexivity|]. left. split; [reflexivity|].
  now exists 9.
Defined.

(** ** The driver and the message target together *)

Lemma posted_message_in_trace (trace : list effect) (destination : Endpoint)
    (message : message_data) (target_origin : option string) :
  In (PostMessage destination message target_origin) trace ->
  In (destination, message) (posted_messages trace).
Proof.
  intros Hin. unfold posted_messages. apply in_flat_map.
  exists (PostMessage destination message target_origin).
  split; [exact Hin|now left].
Qed.

(** X12: a failure on the message target reaches the driver's test report.
    When the [try] block of the [message] listener throws, every message
    the invocation posts is the string ["ERROR: <description>"] of that
    failure, and such a reply, handed to the driver whatever it expects,
    fails [verify_response_with_file_system_handles] on its first assertion,
    whose description quotes the reply, and fails
    [verify_response_with_message_error] on its first assertion as well;
    when the reply destination is an endpoint that accepts the target
    origin, that string is posted to it, and it is the only message of the
    invocation. *)
Theorem target_failure_fails_verification
    (localeCompare : string -> string -> Z) (file_system : FileSystem)
    (clone : FileSystemHandle.t -> FileSystemHandle.t)
    (target : option Endpoint) (target_origin : option string)
    (message_event : MessageEvent.t message_data) (error : js_error)
    (expected_handles : list FileSystemHandle.t)
    (expected_origin : string) (expected_has_source : bool) :
  snd (message_switch localeCompare file_system
         (resolve_message_source message_event target) target_origin
         (MessageEvent.data message_event)) = Throw error ->
  (forall destination reply reply_origin,
      In (PostMessage destination reply reply_origin)
         (fst (message_listener localeCompare file_system target
                 target_origin message_event)) ->
      reply = DataString ("ERROR: " ++ error_to_string error)%string /\
      verify_response_with_file_system_handles localeCompare
        (deliver clone reply) expected_handles =
      Throw
        (AssertionError
           ("The message target must receive a " ++ dquote ++
            "serialized-file-system-handles" ++ dquote ++ " " ++
            "message response. Actual response: " ++
            "ERROR: " ++ error_to_string error)%string) /\
      verify_response_with_message_error (deliver clone reply)
        expected_origin expected_has_source =
      Throw
        (AssertionError
           ("The message target must receive a " ++ dquote ++
            "serialized-message-error" ++ dquote ++ " message " ++
            "response.")%string)) /\
  (forall destination,
      resolve_message_source message_event target = Some destination ->
      accepts_target_origin destination target_origin = true ->
      posted_messages
        (fst (message_listener localeCompare file_system target
                target_origin message_event)) =
      [(destination,
        DataString ("ERROR: " ++ error_to_string error)%string)]).
Proof.
  intros Hthrow.
  assert (Hsilent :
            posted_messages
              (fst (message_switch localeCompare file_system
                      (resolve_message_source message_event target)
                      target_origin (MessageEvent.data message_event))) = []).
  { apply single_reply_failure; [apply single_reply_message_switch|].
    rewrite Hthrow. discriminate. }
  split.
  - intros destination reply reply_origin Hin.
    assert (Hreply :
              reply = DataString ("ERROR: " ++ error_to_string error)%string).
    { unfold message_listener, try_catch in Hin. rewrite Hthrow in Hin.
      cbn [fst] in Hin. apply in_app_or in Hin as [Hin|Hin].
      - apply posted_message_in_trace in Hin.
        rewrite Hsilent in Hin. contradiction Hin.
      - unfold report_error, postMessage in Hin.
        destruct (resolve_message_source message_event target)
          as [endpoint|]; [|contradiction Hin].
        destruct (accepts_target_origin endpoint target_origin);
          [|contradiction Hin].
        destruct Hin as [Hin|[]]. now injection Hin. }
    rewrite Hreply. repeat split.
  - intros destination Hsource Haccepts.
    unfold message_listener. rewrite Hsource in *.
    destruct (try_catch_report_error
                (message_switch localeCompare file_system (Some destination)
                   target_origin (MessageEvent.data message_event))
                destination target_origin Haccepts) as (_ & Hcaught & _).
    rewrite (Hcaught error Hthrow). cbn [fst].
    rewrite posted_messages_app, Hsilent. reflexivity.
Qed.

(** A file request the platform refuses, as the driver sees it. *)
Lemma target_failure_fails_verification_witness :
  posted_messages
    (fst (message_listener compare_code_units failing_file_system
            (Some (MessagePort 7)) None
            (sample_port_event
               (DataObject (envelope_of_type "create-file"))))) =
  [(MessagePort 7,
    DataString "ERROR: SecurityError: Storage access is denied.")].
Proof.
  destruct (target_failure_fails_verification compare_code_units
              failing_file_system clone_as_new_object
              (Some (MessagePort 7)) None
              (sample_port_event (DataObject (envelope_of_type "create-file")))
              (DOMException "SecurityError" "Storage access is denied.")
              sample_batch EmptyString false eq_refl)
    as (_ & Hposted).
  exact (Hposted (MessagePort 7) eq_refl eq_refl).
Defined.

(** X13: the message channel handshake.  [create_message_channel] posts the
    [receive-message-port] message with the second port both in the message
    and in the transfer list, then starts and returns the first port; when
    the platform refuses the transfer it throws before starting anything.
    The message target that receives the message registers its listeners on
    the second port, with the port itself as target, starts it and posts
    nothing back; the listeners so installed return normally on every event
    and answer on that port. *)
Theorem message_channel_handshake
    (transfer_accepted : Endpoint -> option string -> bool)
    (localeCompare : string -> string -> Z) (file_system : FileSystem)
    (clone : FileSystemHandle.t -> FileSystemHandle.t)
    (port1 : Endpoint) (id : nat) (target : Endpoint)
    (target_origin : option string)
    (listener_target : option Endpoint) (listener_origin : option string)
    (event_origin event_id : string) (event_source : option Endpoint)
    (event_ports : list Endpoint) :
  create_message_channel transfer_accepted (port1, MessagePort id) target
    target_origin =
  (if transfer_accepted target target_origin
   then ([TransferMessage target
            (receive_message_port_message (MessagePort id)) target_origin
            [MessagePort id];
          StartDriverPort port1], Ok port1)
   else ([], Throw (TypeError "The provided value cannot be converted"))) /\
  message_listener localeCompare file_system listener_target listener_origin
    (MessageEvent.Build
       (deliver clone (receive_message_port_message (MessagePort id)))
       event_origin event_id event_source event_ports) =
  ([AddMessageEventHandlers (MessagePort id) (Some (MessagePort id)) None;
    StartPort (MessagePort id)], Ok tt) /\
  installed_listeners_complete localeCompare file_system
    (AddMessageEventHandlers (MessagePort id) (Some (MessagePort id)) None).
Proof.
  split; [|split].
  - unfold create_message_channel. cbn [fst snd].
    destruct target_origin as [origin|];
      destruct (transfer_accepted target _); reflexivity.
  - reflexivity.
  - apply supplied_target_listeners_complete.
Qed.

(** X14: the broadcast channel handshake, between a driver whose target
    accepts the driver's target origin and a message target whose reply
    destination is an endpoint that accepts the listener's target origin.
    The request [create_broadcast_channel] posts makes the message target
    open the channel of the requested name, register its listeners on it
    with the channel itself as target, and answer
    [broadcast-channel-created] to the reply destination; given that answer
    the driver's set-up returns normally, and given a string (the target's
    [ERROR:] reply) it fails its assertion. *)
Theorem broadcast_channel_handshake
    (localeCompare : string -> string -> Z) (file_system : FileSystem)
    (clone : FileSystemHandle.t -> FileSystemHandle.t)
    (channel_name : string) (driver_target : Endpoint)
    (driver_origin : option string)
    (target : option Endpoint) (target_origin : option string)
    (request_event : MessageEvent.t message_data) (destination : Endpoint) :
  accepts_target_origin driver_target driver_origin = true ->
  MessageEvent.data request_event =
    deliver clone (create_broadcast_channel_message channel_name) ->
  resolve_message_source request_event target = Some destination ->
  accepts_target_origin destination target_origin = true ->
  exists reply,
    message_listener localeCompare file_system target target_origin
      request_event =
    ([NewBroadcastChannel channel_name;
      AddMessageEventHandlers (BroadcastChannel channel_name)
        (Some (BroadcastChannel channel_name)) None;
      PostMessage destination reply target_origin], Ok tt) /\
    (forall reply_event,
        MessageEvent.data reply_event = deliver clone reply ->
        create_broadcast_channel channel_name (Some driver_target)
          driver_origin reply_event =
        ([PostMessage driver_target
            (create_broadcast_channel_message channel_name) driver_origin],
         Ok tt)) /\
    (forall reply_event text,
        MessageEvent.data reply_event = DataString text ->
        create_broadcast_channel channel_name (Some driver_target)
          driver_origin reply_event =
        ([PostMessage driver_target
            (create_broadcast_channel_message channel_name) driver_origin],
         Throw
           (AssertionError
              ("The message target must receive a " ++ dquote ++
               "broadcast-channel-created" ++ dquote ++ " message " ++
               "response.")%string))).
Proof.
  intros Hdriver Hdata Hsource Haccepts.
  exists (DataObject (envelope_of_type "broadcast-channel-created")).
  split; [|split].
  - unfold message_listener. rewrite Hdata, Hsource.
    unfold message_switch, try_catch, and_then, postMessage.
    rewrite Haccepts. reflexivity.
  - intros reply_event Hreply. unfold create_broadcast_channel, postMessage.
    rewrite Hdriver, Hreply. reflexivity.
  - intros reply_event text Hreply.
    unfold create_broadcast_channel, postMessage.
    rewrite Hdriver, Hreply. reflexivity.
Qed.

(** The driver asks a window for the channel named in its tests. *)
Lemma broadcast_channel_handshake_witness :
  exists reply,
    message_listener compare_code_units sample_file_system None (Some "*")
      (MessageEvent.Build
         (create_broadcast_channel_message "channel")
         "https://web-platform.test:8443" EmptyString (Some (Window 1)) []) =
    ([NewBroadcastChannel "channel";
      AddMessageEventHandlers (BroadcastChannel "channel")
        (Some (BroadcastChannel "channel")) None;
      PostMessage (Window 1) reply (Some "*")], Ok tt).
Proof.
  destruct (broadcast_channel_handshake compare_code_units sample_file_system
              clone_as_new_object "channel" (Window 2) (Some "*")
              None (Some "*")
              (MessageEvent.Build
                 (create_broadcast_channel_message "channel")
                 "https://web-platform.test:8443" EmptyString
                 (Some (Window 1)) [])
              (Window 1) eq_refl eq_refl eq_refl eq_refl)
    as (reply & Hrun & _).
  exists reply. exact Hrun.
Defined.

(** What the [message] listener does with a batch of handles, case by
    case. *)
Lemma handles_request_run (localeCompare : string -> string -> Z)
    (file_system : FileSystem) (target : option Endpoint)
    (target_origin : option string)
    (message_event : MessageEvent.t message_data) (message : envelope)
    (handles : list FileSystemHandle.t) :
  MessageEvent.data message_event = DataObject message ->
  type message = Some "receive-file-system-handles" ->
  file_system_handles message = Some handles ->
  message_listener localeCompare file_system target target_origin
    message_event =
  match resolve_message_source message_event target with
  | Some destination =>
      if accepts_target_origin destination target_origin then
        ([PostMessage destination
            match serialize_received_handles localeCompare handles [] with
            | Ok entries => DataObject (serialized_handles_reply entries)
            | Throw error =>
                DataString ("ERROR: " ++ error_to_string error)%string
            end
            target_origin], Ok tt)
      else ([], Throw (TypeError "The provided value cannot be converted"))
  | None => ([], Throw undefined_property_access)
  end.
Proof.
  intros Hdata Htype Hhandles. unfold message_listener.
  rewrite Hdata, (message_switch_handles _ _ _ _ _ _ Htype Hhandles).
  unfold and_then, try_catch, report_error, postMessage.
  destruct (resolve_message_source message_event target) as [destination|];
    [destruct (accepts_target_origin destination target_origin) eqn:Haccepts|];
    destruct (serialize_received_handles localeCompare handles []);
    cbn [lift perform fst snd app]; rewrite ?Haccepts; reflexivity.
Qed.

(** The elements of the reply, once they came back, are verified clones of
    the handles sent exactly when every handle of the batch made the round
    trip as the design document asks. *)
Lemma returned_entries_verified (localeCompare : string -> string -> Z)
    (outbound inbound : FileSystemHandle.t -> FileSystemHandle.t)
    (batch : list FileSystemHandle.t) :
  forall entries,
    Forall2 (entry_of localeCompare) (map outbound batch) entries ->
    Forall2 (clone_verified localeCompare)
      (map (fun entry =>
              {| handle := inbound (handle entry);
                 serialized := serialized entry |}) entries) batch <->
    Forall (returned_clone_matches localeCompare outbound inbound) batch.
Proof.
  induction batch as [|original rest IH]; intros entries Hpairs;
    inversion Hpairs as [|received entry receiveds rest_entries
                           [Hhandle Hserialized] Hrest]; subst.
  - split; constructor.
  - specialize (IH rest_entries Hrest). cbn [map].
    assert (Hone :
              clone_verified localeCompare
                {| handle := inbound (handle entry);
                   serialized := serialized entry |} original <->
              returned_clone_matches localeCompare outbound inbound original).
    { unfold clone_verified, returned_clone_matches. cbn [handle serialized].
      rewrite Hhandle. split.
      - intros (Hnew & snapshot & Hlocal & Hback & Hremote).
        split; [exact Hnew|]. exists snapshot.
        apply (serialized_handles_pass_iff_equal localeCompare _ _ _ _
                 Hserialized Hlocal) in Hremote.
        subst snapshot. auto.
      - intros (Hnew & snapshot & Hlocal & Hback & Hremote).
        split; [exact Hnew|]. exists snapshot.
        rewrite Hserialized in Hremote. injection Hremote as Hremote.
        rewrite Hremote.
        split; [exact Hlocal|]. split; [exact Hback|].
        eapply serialize_handle_result_equals_itself. exact Hlocal. }
    split.
    + inversion 1; subst. constructor; [now apply Hone|now apply IH].
    + inversion 1; subst. constructor; [now apply Hone|now apply IH].
Qed.

(** On a transport that clones as required, the elements of the reply,
    once they came back, are equal clones of the handles sent. *)
Lemma returned_entries_equal_clones (localeCompare : string -> string -> Z)
    (outbound inbound : FileSystemHandle.t -> FileSystemHandle.t)
    (batch : list FileSystemHandle.t) :
  clones_faithfully localeCompare outbound inbound ->
  forall entries,
    Forall2 (entry_of localeCompare) (map outbound batch) entries ->
    Forall2 (equal_clone localeCompare) batch
      (map (fun entry =>
              {| handle := inbound (handle entry);
                 serialized := serialized entry |}) entries).
Proof.
  intros (Hout & Hin & Hnew).
  induction batch as [|original rest IH]; intros entries Hpairs;
    inversion Hpairs as [|received entry receiveds rest_entries
                           [Hhandle Hserialized] Hrest]; subst.
  - constructor.
  - cbn [map]. constructor; [|now apply IH].
    unfold equal_clone. cbn [handle serialized]. rewrite Hhandle.
    split; [apply Hnew|].
    split; [now rewrite Hin, Hout|].
    now rewrite <- Hout.
Qed.

(** C2: a batch of handles sent by [send_file_system_handles] and received
    through the transport by the [message] listener; the reply the listener
    posts, received back through the transport.  On a transport that clones
    as the design document requires (a new object for the same entry),
    every [receive-serialized-file-system-handles] reply holds one element
    per handle of the batch, in order, and for every handle of the batch
    the reference returned in its element is an object other than the
    original, the dictionary obtained by serializing the returned reference
    is the dictionary of the original, and the dictionary the message
    target computed and included in the element is the dictionary of the
    original as well.  On any transport, the driver's verification of the
    reply returns normally exactly when these three facts hold of every
    handle of the batch; and a reply is posted whenever the reply
    destination is an endpoint that accepts the target origin. *)
Theorem returned_clones_equal_originals
    (localeCompare : string -> string -> Z) (file_system : FileSystem)
    (outbound inbound : FileSystemHandle.t -> FileSystemHandle.t)
    (batch : list FileSystemHandle.t)
    (driver_target : Endpoint) (driver_origin : option string)
    (sent : message_data)
    (target : option Endpoint) (target_origin : option string)
    (event_origin event_id : string) (event_source : option Endpoint)
    (event_ports : list Endpoint) :
  fst (send_file_system_handles batch (Some driver_target) driver_origin) =
    [PostMessage driver_target sent driver_origin] ->
  let message_event :=
    MessageEvent.Build (deliver outbound sent) event_origin event_id
      event_source event_ports in
  let run :=
    message_listener localeCompare file_system target target_origin
      message_event in
  (clones_faithfully localeCompare outbound inbound ->
   forall destination reply reply_origin message,
     In (PostMessage destination reply reply_origin) (fst run) ->
     deliver inbound reply = DataObject message ->
     type message = Some "receive-serialized-file-system-handles" ->
     exists returned,
       serialized_file_system_handles message = Some returned /\
       Forall2 (equal_clone localeCompare) batch returned) /\
  (forall destination reply reply_origin,
      In (PostMessage destination reply reply_origin) (fst run) ->
      verify_response_with_file_system_handles localeCompare
        (deliver inbound reply) batch = Ok tt <->
      Forall (returned_clone_matches localeCompare outbound inbound) batch) /\
  (forall destination,
      resolve_message_source message_event target = Some destination ->
      accepts_target_origin destination target_origin = true ->
      exists reply,
        run = ([PostMessage destination reply target_origin], Ok tt)) /\
  (clones_faithfully localeCompare outbound inbound ->
   forallb serializable batch = true ->
   Forall (returned_clone_matches localeCompare outbound inbound) batch).
Proof.
  intros Hsent message_event run.
  unfold send_file_system_handles, postMessage in Hsent.
  destruct (accepts_target_origin driver_target driver_origin);
    [|discriminate Hsent].
  injection Hsent as <-.
  assert (Hrun := handles_request_run localeCompare file_system target
                    target_origin message_event _ (map outbound batch)
                    eq_refl eq_refl eq_refl).
  fold run in Hrun.
  assert (Hposted :
            forall destination reply reply_origin,
              In (PostMessage destination reply reply_origin) (fst run) ->
              reply =
              match
                serialize_received_handles localeCompare
                  (map outbound batch) []
              with
              | Ok entries => DataObject (serialized_handles_reply entries)
              | Throw error =>
                  DataString ("ERROR: " ++ error_to_string error)%string
              end).
  { intros destination reply reply_origin Hin. rewrite Hrun in Hin.
    destruct (resolve_message_source message_event target)
      as [endpoint|]; [|contradiction Hin].
    destruct (accepts_target_origin endpoint target_origin);
      [|contradiction Hin].
    destruct Hin as [Hin|[]]. now injection Hin. }
  split; [|split; [|split]].
  - intros Hfaithful destination reply reply_origin message Hin Hreply Htype.
    rewrite (Hposted _ _ _ Hin) in Hreply.
    destruct (serialize_received_handles localeCompare (map outbound batch) [])
      as [entries|error] eqn:Hloop; [|discriminate Hreply].
    apply serialize_received_handles_ok_inv in Hloop
      as (collected & -> & Hpairs).
    injection Hreply as <-. eexists. split; [reflexivity|].
    exact (returned_entries_equal_clones localeCompare outbound inbound batch
             Hfaithful collected Hpairs).
  - intros destination reply reply_origin Hin.
    rewrite (Hposted _ _ _ Hin).
    destruct (serialize_received_handles localeCompare (map outbound batch) [])
      as [entries|error] eqn:Hloop.
    + apply serialize_received_handles_ok_inv in Hloop
        as (collected & -> & Hpairs).
      cbn [app deliver serialized_handles_reply type message_port
           broadcast_channel_name file_system_handles
           serialized_file_system_handles file_handle directory_handle
           serialized_message_error_event option_map].
      rewrite verification_accepts_verified_clones.
      rewrite <- (returned_entries_verified localeCompare outbound inbound
                    batch collected Hpairs).
      split.
      * intros (message & response_handles & Hm & _ & Hentries & Hall).
        injection Hm as <-. cbn in Hentries. injection Hentries as <-.
        exact Hall.
      * intros Hall. eexists. eexists.
        split; [reflexivity|]. split; [reflexivity|].
        split; [reflexivity|exact Hall].
    + split; [discriminate|]. intros Hall. exfalso.
      assert (Hserializable : forallb serializable (map outbound batch) = true).
      { rewrite forallb_forall. intros received Hreceived.
        apply in_map_iff in Hreceived as (original & <- & Horiginal).
        rewrite Forall_forall in Hall.
        destruct (Hall original Horiginal) as (_ & snapshot & _ & _ & Hremote).
        eapply serialize_handle_ok_serializable. exact Hremote. }
      destruct (serialize_received_handles_total localeCompare _
                  Hserializable []) as (entries & Hok & _).
      rewrite Hok in Hloop. discriminate Hloop.
  - intros destination Hsource Haccepts. rewrite Hrun, Hsource, Haccepts.
    eexists. reflexivity.
  - intros (Hout & Hin & Hnew) Hall. rewrite Forall_forall.
    intros original Horiginal. rewrite forallb_forall in Hall.
    destruct (serialize_handle_total localeCompare original
                (Hall original Horiginal)) as (snapshot & Hsnapshot).
    split; [apply Hnew|]. exists snapshot.
    rewrite Hin, Hout. auto.
Qed.

(** The batch of the driver, sent to a port and back through a transport
    that makes a new object of every handle: the reply is verified. *)
Lemma returned_clones_equal_originals_witness :
  exists reply,
    message_listener compare_code_units sample_file_system
      (Some (MessagePort 7)) None
      (sample_port_event
         (deliver clone_as_new_object (handles_request sample_batch))) =
      ([PostMessage (MessagePort 7) reply None], Ok tt) /\
    verify_response_with_file_system_handles compare_code_units
      (deliver clone_as_new_object reply) sample_batch = Ok tt.
Proof.
  destruct (returned_clones_equal_originals compare_code_units
              sample_file_system clone_as_new_object clone_as_new_object
              sample_batch (MessagePort 8) None (handles_request sample_batch)
              (Some (MessagePort 7)) None EmptyString EmptyString None []
              eq_refl)
    as (_ & Hverified & Hposted & Hfaithful).
  destruct (Hposted (MessagePort 7) eq_refl eq_refl) as (reply & Hrun).
  exists reply. split; [exact Hrun|].
  apply (Hverified (MessagePort 7) reply None).
  - rewrite Hrun. left. reflexivity.
  - apply Hfaithful; [|reflexivity].
    split; [|split].
    + apply clone_as_new_object_serializes_alike.
    + apply clone_as_new_object_serializes_alike.
    + intros handle. apply clone_as_new_object_returns_new.
Defined.
